(** * The forEach kernel dispatcher of the RenderScript support driver

    A shallow embedding of [rsdScriptInvokeForEach] and of its two worker
    bodies [wc_xy] and [wc_x]
    (renderscript/v8/rs_support/driver/rsdBcc.cpp), with the properties the
    design document states about them.

    Every field of the launch structure is a [uint32_t]; it is modelled by
    a [Z] and each 32-bit operation of the source is wrapped by [u32].
    Pointers are byte addresses in [Z]; pointer arithmetic is not
    wrapped. *)

From stdpp Require Import base tactics option numbers list list_numbers strings gmap.

Local Open Scope Z_scope.

(** ** Machine arithmetic *)

Definition UINT32_MOD : Z := 4294967296.

(** The value a [uint32_t] holds after an operation whose mathematical
    result is [z]. *)
Definition u32 (z : Z) : Z := z `mod` UINT32_MOD.

Definition is_u32 (z : Z) : Prop := 0 ≤ z < UINT32_MOD.

(** Modelled from the spec: [rsMin] and [rsMax] are declared outside src/;
    the spec reads every use of them as the minimum ("clamped", "min") and
    the maximum ("floored to minimum 1") of the two arguments. *)
Definition rsMin (a b : Z) : Z := if b <? a then b else a.
Definition rsMax (a b : Z) : Z := if a <? b then b else a.

(** The source's loop [for (i = lo; i < hi; i++) body], threading the
    state the body updates. *)
Definition for_range {S : Type} (lo hi : Z) (body : Z → S → S) (s : S) : S :=
  foldl (λ acc i, body i acc) s (seqZ lo (hi - lo)).

(** ** Data *)

(** What the dispatcher reads of an allocation's type and of its driver
    record: [getType()->getDimX()], ..., [getElementSizeBytes()],
    [lod[0].mallocPtr] and [lod[0].stride], each as the value the
    dispatcher stores in the 32-bit field of its launch structure.  A
    dimension the type does not have reads as 0. *)
Record Allocation := {
  getDimX : Z;
  getDimY : Z;
  getDimZ : Z;
  getElementSizeBytes : Z;
  mallocPtr : Z;
  stride : Z
}.

Record RsScriptCall := {
  sc_xStart : Z; sc_xEnd : Z;
  sc_yStart : Z; sc_yEnd : Z;
  sc_zStart : Z; sc_zEnd : Z;
  sc_arrayStart : Z; sc_arrayEnd : Z
}.

Definition with_xStart (v : Z) (c : RsScriptCall) : RsScriptCall :=
  {| sc_xStart := v; sc_xEnd := sc_xEnd c;
     sc_yStart := sc_yStart c; sc_yEnd := sc_yEnd c;
     sc_zStart := sc_zStart c; sc_zEnd := sc_zEnd c;
     sc_arrayStart := sc_arrayStart c; sc_arrayEnd := sc_arrayEnd c |}.

Definition with_yStart (v : Z) (c : RsScriptCall) : RsScriptCall :=
  {| sc_xStart := sc_xStart c; sc_xEnd := sc_xEnd c;
     sc_yStart := v; sc_yEnd := sc_yEnd c;
     sc_zStart := sc_zStart c; sc_zEnd := sc_zEnd c;
     sc_arrayStart := sc_arrayStart c; sc_arrayEnd := sc_arrayEnd c |}.

(** The fields of [MTLaunchStruct] that the launch reads.  The shared
    counter [mSliceNum] lives in the worker pool's state below. *)
Record MTLaunchStruct := {
  mSliceSize : Z;
  ptrIn : Z; eStrideIn : Z;
  ptrOut : Z; eStrideOut : Z;
  yStrideIn : Z; yStrideOut : Z;
  xStart : Z; xEnd : Z;
  yStart : Z; yEnd : Z;
  zStart : Z; zEnd : Z;
  arrayStart : Z; arrayEnd : Z;
  dimX : Z; dimY : Z; dimZ : Z; dimArray : Z
}.

Definition set_mSliceSize (v : Z) (m : MTLaunchStruct) : MTLaunchStruct :=
  {| mSliceSize := v;
     ptrIn := ptrIn m; eStrideIn := eStrideIn m;
     ptrOut := ptrOut m; eStrideOut := eStrideOut m;
     yStrideIn := yStrideIn m; yStrideOut := yStrideOut m;
     xStart := xStart m; xEnd := xEnd m;
     yStart := yStart m; yEnd := yEnd m;
     zStart := zStart m; zEnd := zEnd m;
     arrayStart := arrayStart m; arrayEnd := arrayEnd m;
     dimX := dimX m; dimY := dimY m; dimZ := dimZ m; dimArray := dimArray m |}.

(** One call [bare_fn(p.in, p.out, p.usr, x, y, z, ar)]. *)
Record Invocation := {
  k_in : Z; k_out : Z;
  k_x : Z; k_y : Z; k_z : Z; k_ar : Z
}.

Definition coords (c : Invocation) : Z * Z * Z * Z :=
  (k_x c, k_y c, k_z c, k_ar c).

(** The part of [RsForEachStubParamStruct] that changes while a loop
    runs, together with the calls made so far. *)
Record Cursor := {
  p_in : Z;
  p_out : Z;
  calls : list Invocation
}.

Definition cursor0 : Cursor := {| p_in := 0; p_out := 0; calls := [] |}.

(** The driver's part of the context, [dc->mWorkers.mCount] and
    [dc->mInForEach], and the script's flag [s->mHal.info.isThreadable].
    The worker count is a 32-bit unsigned value like the dimensions it is
    combined with. *)
Record RsdHal := {
  mCount : Z;
  mInForEach : bool
}.

Definition set_mInForEach (b : bool) (dc : RsdHal) : RsdHal :=
  {| mCount := mCount dc; mInForEach := b |}.

Record Script := { isThreadable : bool }.

Inductive RsError := RS_ERROR_BAD_SCRIPT.

(** ** The loops *)

(** The innermost loop, the same text in all three places: call the
    kernel at [x] and step both pointers by one element. *)
Definition x_step (mtls : MTLaunchStruct) (y z ar : Z) (x : Z) (p : Cursor) : Cursor :=
  {| p_in := p_in p + eStrideIn mtls;
     p_out := p_out p + eStrideOut mtls;
     calls := calls p ++ [ {| k_in := p_in p; k_out := p_out p;
                              k_x := x; k_y := y; k_z := z; k_ar := ar |} ] |}.

Definition x_loop (mtls : MTLaunchStruct) (y z ar : Z) (p : Cursor) : Cursor :=
  for_range (xStart mtls) (xEnd mtls) (x_step mtls y z ar) p.

(** A slice claimed with counter value [slice] on the axis
    [axisStart, axisEnd): [None] when the worker returns
    ([yEnd <= yStart], [xEnd <= xStart]). *)
Definition claimSlice (axisStart axisEnd sliceSize slice : Z) : option (Z * Z) :=
  let sStart := u32 (axisStart + u32 (slice * sliceSize)) in
  let sEnd := u32 (sStart + sliceSize) in
  let sEnd := rsMin sEnd axisEnd in
  if sEnd <=? sStart then None else Some (sStart, sEnd).

(** The rows of one slice of [wc_xy]. *)
Definition wc_xy_row (mtls : MTLaunchStruct) (y : Z) (p : Cursor) : Cursor :=
  let p := {| p_out := ptrOut mtls + u32 (yStrideOut mtls * y);
              p_in := ptrIn mtls + u32 (yStrideIn mtls * y);
              calls := calls p |} in
  x_loop mtls y 0 0 p.

Definition wc_xy_rows (mtls : MTLaunchStruct) (sStart sEnd : Z) (p : Cursor) : Cursor :=
  for_range sStart sEnd (wc_xy_row mtls) p.

(** One turn of the [while (1)] of [wc_xy] with the counter value it
    drew: the calls of the slice, or [None] when the worker returns. *)
Definition wc_xy (mtls : MTLaunchStruct) (slice : Z) : option (list Invocation) :=
  match claimSlice (yStart mtls) (yEnd mtls) (mSliceSize mtls) slice with
  | None => None
  | Some (sStart, sEnd) => Some (calls (wc_xy_rows mtls sStart sEnd cursor0))
  end.

(** One turn of the [while (1)] of [wc_x].  The pointers start at the
    slice, the loop runs over [mtls->xStart], [mtls->xEnd]. *)
Definition wc_x (mtls : MTLaunchStruct) (slice : Z) : option (list Invocation) :=
  match claimSlice (xStart mtls) (xEnd mtls) (mSliceSize mtls) slice with
  | None => None
  | Some (sStart, sEnd) =>
      let p := {| p_out := ptrOut mtls + u32 (eStrideOut mtls * sStart);
                  p_in := ptrIn mtls + u32 (eStrideIn mtls * sStart);
                  calls := [] |} in
      Some (calls (x_loop mtls 0 0 0 p))
  end.

(** The else branch of the dispatcher: four nested loops. *)
Definition seq_row (mtls : MTLaunchStruct) (ar z y : Z) (p : Cursor) : Cursor :=
  let offset := u32 (dimX mtls * dimY mtls * dimZ mtls * ar
                     + dimX mtls * dimY mtls * z
                     + dimX mtls * y) in
  let p := {| p_out := ptrOut mtls + u32 (eStrideOut mtls * offset);
              p_in := ptrIn mtls + u32 (eStrideIn mtls * offset);
              calls := calls p |} in
  x_loop mtls y z ar p.

Definition seq_loops (mtls : MTLaunchStruct) : list Invocation :=
  calls
    (for_range (arrayStart mtls) (arrayEnd mtls) (λ ar,
       for_range (zStart mtls) (zEnd mtls) (λ z,
         for_range (yStart mtls) (yEnd mtls) (seq_row mtls ar z)))
       cursor0).

(** ** The worker pool *)

(** A worker is about to draw a counter value ([Some []]), in the middle
    of a slice ([Some (c :: rest)], [c] its next call) or has returned
    ([None]). *)
Record Pool := {
  mSliceNum : Z;
  workers : list (option (list Invocation));
  trace : list Invocation
}.

Definition pool_init (n : nat) : Pool :=
  {| mSliceNum := 0; workers := replicate n (Some []); trace := [] |}.

(** Modelled from the spec: [android_atomic_inc] is declared outside
    src/; it "atomically increments counter" and returns the prior value.
    One step of worker [w]: draw and increment the counter, or make the
    next kernel call of the slice in hand. *)
Definition worker_step (body : Z → option (list Invocation)) (w : nat) (st : Pool) : Pool :=
  match workers st !! w with
  | Some (Some []) =>
      let slice := u32 (mSliceNum st) in
      {| mSliceNum := mSliceNum st + 1;
         workers := <[w := body slice]> (workers st);
         trace := trace st |}
  | Some (Some (c :: rest)) =>
      {| mSliceNum := mSliceNum st;
         workers := <[w := Some rest]> (workers st);
         trace := trace st ++ [c] |}
  | _ => st
  end.

Definition pool_run (body : Z → option (list Invocation)) (sched : list nat) (st : Pool) : Pool :=
  foldl (λ acc w, worker_step body w acc) st sched.

Definition drained (st : Pool) : bool :=
  forallb (λ o, bool_decide (o = None)) (workers st).

(** Modelled from the spec: [rsdLaunchThreads] is declared outside src/;
    it "runs the given function with the given context object on every
    worker, blocks until all have returned".  The schedule lists which
    worker moves next; the launch has returned when every worker has. *)
Definition rsdLaunchThreads (n : Z) (body : Z → option (list Invocation))
    (sched : list nat) : option (list Invocation) :=
  let st := pool_run body sched (pool_init (Z.to_nat n)) in
  if drained st then Some (trace st) else None.

(** ** The dispatcher *)

(** [a / b] on [uint32_t]; the division is undefined when [b] is 0. *)
Definition udiv (a b : Z) : option Z :=
  if b =? 0 then None else Some (a `div` b).

(** [mtls.mSliceSize = dim / (dc->mWorkers.mCount * 4)], raised to 1
    when it is below 1. *)
Definition sliceSizeFor (dim n : Z) : option Z :=
  match udiv dim (u32 (n * 4)) with
  | None => None
  | Some q => Some (if q <? 1 then 1 else q)
  end.

Inductive WorkerFn := by_wc_xy | by_wc_x.

Definition worker_body (fn : WorkerFn) (mtls : MTLaunchStruct) : Z → option (list Invocation) :=
  match fn with
  | by_wc_xy => wc_xy mtls
  | by_wc_x => wc_x mtls
  end.

(** The choice made inside the parallel branch: the worker function and
    the launch structure with its slice size. *)
Definition parallel_plan (n : Z) (mtls : MTLaunchStruct) : option (WorkerFn * MTLaunchStruct) :=
  if 1 <? dimY mtls then
    match sliceSizeFor (dimY mtls) n with
    | None => None
    | Some sz => Some (by_wc_xy, set_mSliceSize sz mtls)
    end
  else
    match sliceSizeFor (dimX mtls) n with
    | None => None
    | Some sz => Some (by_wc_x, set_mSliceSize sz mtls)
    end.

(** The allocation whose type gives the dimensions: [ain] when present,
    else [aout]. *)
Definition bound_allocation (ain aout : option Allocation) : option Allocation :=
  match ain, aout with
  | Some a, _ => Some a
  | None, Some a => Some a
  | None, None => None
  end.

(** [rsMin(dim, sc->xStart)] and [rsMin(dim, sc->xEnd)]. *)
Definition clamped (dim cStart cEnd : Z) : Z * Z :=
  (rsMin dim cStart, rsMin dim cEnd).

(** Lines 498-507 for X, and the same text for Y on lines 509-518: the
    start and end stored in the launch structure, or [None] at the early
    [return].  The three [rsAssert]s only log. *)
Definition clipAxis (dim : Z) (sc : option RsScriptCall)
    (cStart cEnd : RsScriptCall → Z) : option (Z * Z) :=
  match sc with
  | None => Some (0, dim)
  | Some c =>
      if cEnd c =? 0 then Some (0, dim)
      else
        let r := clamped dim (cStart c) (cEnd c) in
        if r.2 <=? r.1 then None else Some r
  end.

Inductive Setup :=
  | NullAllocations
  | EmptyRange
  | Ready (mtls : MTLaunchStruct).

(** Everything the dispatcher does before it chooses how to run: the
    launch structure starts zeroed by [memset]. *)
Definition launch_setup (ain aout : option Allocation) (sc : option RsScriptCall) : Setup :=
  match bound_allocation ain aout with
  | None => NullAllocations
  | Some a =>
      match clipAxis (getDimX a) sc sc_xStart sc_xEnd with
      | None => EmptyRange
      | Some (xs, xe) =>
          match clipAxis (getDimY a) sc sc_yStart sc_yEnd with
          | None => EmptyRange
          | Some (ys, ye) =>
              Ready
                {| mSliceSize := 10;
                   ptrIn := from_option mallocPtr 0 ain;
                   eStrideIn := from_option getElementSizeBytes 0 ain;
                   ptrOut := from_option mallocPtr 0 aout;
                   eStrideOut := from_option getElementSizeBytes 0 aout;
                   yStrideIn := from_option stride 0 ain;
                   yStrideOut := from_option stride 0 aout;
                   xStart := xs; xEnd := rsMax 1 xe;
                   yStart := ys; yEnd := rsMax 1 ye;
                   zStart := 0; zEnd := rsMax 1 0;
                   arrayStart := 0; arrayEnd := rsMax 1 0;
                   dimX := getDimX a; dimY := getDimY a; dimZ := getDimZ a;
                   dimArray := 0 |}
          end
      end
  end.

(** How the kernel was run: on the pool, with the context as it was
    during the launch, or by the caller's own loops. *)
Inductive Launch :=
  | Threads (during : RsdHal) (fn : WorkerFn) (mtls : MTLaunchStruct)
  | Inline (mtls : MTLaunchStruct).

Record Outcome := {
  error : option (RsError * string);
  invoked : list Invocation;
  hal_after : RsdHal;
  launch : option Launch
}.

(** A call has returned, is still blocked in the pool under the given
    schedule, or has run into a division by zero. *)
Inductive Reply :=
  | Returned (out : Outcome)
  | Blocked
  | Undefined.

(** The test of line 557:
    [(dc->mWorkers.mCount > 1) && s->mHal.info.isThreadable && !dc->mInForEach]. *)
Definition parallel_chosen (dc : RsdHal) (s : Script) : bool :=
  (1 <? mCount dc) && isThreadable s && negb (mInForEach dc).

Definition rsdScriptInvokeForEach (dc : RsdHal) (s : Script)
    (ain aout : option Allocation) (sc : option RsScriptCall)
    (sched : list nat) : Reply :=
  match launch_setup ain aout sc with
  | NullAllocations =>
      Returned {| error := Some (RS_ERROR_BAD_SCRIPT, "rsForEach called with null allocations"%string);
                  invoked := []; hal_after := dc; launch := None |}
  | EmptyRange =>
      Returned {| error := None; invoked := []; hal_after := dc; launch := None |}
  | Ready mtls =>
      if parallel_chosen dc s then
        let during := set_mInForEach true dc in
        match parallel_plan (mCount dc) mtls with
        | None => Undefined
        | Some (fn, mtls') =>
            match rsdLaunchThreads (mCount during) (worker_body fn mtls') sched with
            | None => Blocked
            | Some tr =>
                Returned {| error := None; invoked := tr;
                            hal_after := set_mInForEach false during;
                            launch := Some (Threads during fn mtls') |}
            end
        end
      else
        Returned {| error := None; invoked := seq_loops mtls;
                    hal_after := dc; launch := Some (Inline mtls) |}
  end.

(** ** Kernels that write a function of their coordinates *)

(** The output buffer's memory, byte by byte. *)
Fixpoint write_bytes (a : Z) (bs : list Byte.byte) (m : gmap Z Byte.byte) : gmap Z Byte.byte :=
  match bs with
  | [] => m
  | b :: bs' => <[a := b]> (write_bytes (a + 1) bs' m)
  end.

(** A kernel whose output element depends on its coordinates only: it
    stores [f x y z ar] at [p.out]. *)
Definition kernel_write (f : Z → Z → Z → Z → list Byte.byte) (c : Invocation)
    (m : gmap Z Byte.byte) : gmap Z Byte.byte :=
  write_bytes (k_out c) (f (k_x c) (k_y c) (k_z c) (k_ar c)) m.

Definition run_kernel (f : Z → Z → Z → Z → list Byte.byte) (tr : list Invocation)
    (m : gmap Z Byte.byte) : gmap Z Byte.byte :=
  foldl (λ acc c, kernel_write f c acc) m tr.

(** ** Slices drawn by one uninterrupted worker *)

(** The slices obtained with the counter values [i], [i + 1], ... up to
    the first empty one, as a worker that is alone on the pool draws
    them. *)
Fixpoint claimUntilEmpty (fuel : nat) (axisStart axisEnd sliceSize i : Z) : list (Z * Z) :=
  match fuel with
  | O => []
  | S fuel' =>
      match claimSlice axisStart axisEnd sliceSize i with
      | None => []
      | Some r => r :: claimUntilEmpty fuel' axisStart axisEnd sliceSize (i + 1)
      end
  end.

(** [tiles lo hi l]: the half-open ranges of [l] are non-empty, the first
    starts at [lo], each next one starts where the previous one ends, and
    the last ends at [hi]; [l] is empty when [lo, hi) is. *)
Inductive tiles : Z → Z → list (Z * Z) → Prop :=
  | tiles_done lo hi : hi ≤ lo → tiles lo hi []
  | tiles_next lo mid hi l :
      lo < mid → mid ≤ hi → tiles mid hi l → tiles lo hi ((lo, mid) :: l).

Definition in_slice (z : Z) (r : Z * Z) : Prop := r.1 ≤ z < r.2.

(** ** Auxiliary definitions for the properties *)

(** Where slice [i] starts when nothing wraps. *)
Definition sliceAt (axisStart sliceSize i : Z) : Z := axisStart + i * sliceSize.

(** The first counter value whose slice is empty, when nothing wraps. *)
Definition sliceCount (axisStart axisEnd sliceSize : Z) : Z :=
  if axisEnd <=? axisStart then 0
  else (axisEnd - axisStart + sliceSize - 1) `div` sliceSize.

(** The calls of one pass of the innermost loop that starts with the
    pointers [pin] and [pout]. *)
Definition row_calls (mtls : MTLaunchStruct) (y z ar pin pout : Z) : list Invocation :=
  (λ x, {| k_in := pin + (x - xStart mtls) * eStrideIn mtls;
           k_out := pout + (x - xStart mtls) * eStrideOut mtls;
           k_x := x; k_y := y; k_z := z; k_ar := ar |})
    <$> seqZ (xStart mtls) (xEnd mtls - xStart mtls).

(** The calls of row [y] as [wc_xy] makes them. *)
Definition xy_row_calls (mtls : MTLaunchStruct) (y : Z) : list Invocation :=
  row_calls mtls y 0 0 (ptrIn mtls + u32 (yStrideIn mtls * y))
                       (ptrOut mtls + u32 (yStrideOut mtls * y)).

(** The calls of the slice of [wc_x] that starts at [sStart]: the whole
    X range, with pointers that start at the slice. *)
Definition x_slice_calls (mtls : MTLaunchStruct) (sStart : Z) : list Invocation :=
  row_calls mtls 0 0 0 (ptrIn mtls + u32 (eStrideIn mtls * sStart))
                       (ptrOut mtls + u32 (eStrideOut mtls * sStart)).

(** The row offset of the caller's own loops. *)
Definition seq_offset (mtls : MTLaunchStruct) (ar z y : Z) : Z :=
  u32 (dimX mtls * dimY mtls * dimZ mtls * ar
       + dimX mtls * dimY mtls * z
       + dimX mtls * y).

(** The calls of row [y] as the caller's own loops make them. *)
Definition seq_row_calls (mtls : MTLaunchStruct) (ar z y : Z) : list Invocation :=
  row_calls mtls y z ar
    (ptrIn mtls + u32 (eStrideIn mtls * seq_offset mtls ar z y))
    (ptrOut mtls + u32 (eStrideOut mtls * seq_offset mtls ar z y)).

(** The iteration domain of a launch, array index outermost and x
    innermost. *)
Definition domain (mtls : MTLaunchStruct) : list (Z * Z * Z * Z) :=
  seqZ (arrayStart mtls) (arrayEnd mtls - arrayStart mtls) ≫= λ ar,
  seqZ (zStart mtls) (zEnd mtls - zStart mtls) ≫= λ z,
  seqZ (yStart mtls) (yEnd mtls - yStart mtls) ≫= λ y,
  (λ x, (x, y, z, ar)) <$> seqZ (xStart mtls) (xEnd mtls - xStart mtls).

(** The calls the workers hold and have not made yet. *)
Definition pending (ws : list (option (list Invocation))) : list Invocation :=
  ws ≫= from_option id [].

(** How many workers have returned. *)
Definition finished (ws : list (option (list Invocation))) : nat :=
  length (filter (λ o, o = None) ws).

(** The calls of the slice drawn with counter value [i]. *)
Definition slice_calls (body : Z → option (list Invocation)) (i : Z) : list Invocation :=
  from_option id [] (body (u32 i)).

(** The calls of the slices drawn with the counter values below [n]. *)
Definition claimed (body : Z → option (list Invocation)) (n : Z) : list Invocation :=
  seqZ 0 n ≫= slice_calls body.

(** What holds of the pool at every moment of a launch of [W] workers
    whose first empty slice is slice [n]: the calls made and the calls in
    hand are those of the slices drawn so far, and a worker has returned
    only after the counter passed [n]. *)
Record pool_inv (body : Z → option (list Invocation)) (n : Z) (W : nat)
    (st : Pool) : Prop := {
  inv_workers : length (workers st) = W;
  inv_counter : 0 ≤ mSliceNum st;
  inv_calls : trace st ++ pending (workers st) ≡ₚ claimed body (mSliceNum st);
  inv_returned : (0 < finished (workers st))%nat → n < mSliceNum st;
  inv_bound : mSliceNum st ≤ n + Z.of_nat (finished (workers st))
}.

(** What is left to do: calls in hand, calls of the slices not drawn
    yet, and counter values not drawn yet. *)
Definition budget (body : Z → option (list Invocation)) (n : Z) (W : nat)
    (st : Pool) : nat :=
  (length (pending (workers st))
   + length (seqZ (mSliceNum st) (n + Z.of_nat W - mSliceNum st) ≫= slice_calls body)
   + Z.to_nat (n + Z.of_nat W - mSliceNum st))%nat.

(** The clip, when there is one, has 32-bit unsigned fields. *)
Definition clip_u32 (sc : option RsScriptCall) : Prop :=
  ∀ c, sc = Some c →
    is_u32 (sc_xStart c) ∧ is_u32 (sc_xEnd c)
    ∧ is_u32 (sc_yStart c) ∧ is_u32 (sc_yEnd c).

(** The kernel does not look at its input pointer. *)
Definition forget_in (c : Invocation) : Invocation :=
  {| k_in := 0; k_out := k_out c;
     k_x := k_x c; k_y := k_y c; k_z := k_z c; k_ar := k_ar c |}.

(** A call at [x], [y] that stores at the element stride times
    [dimX * y + (x - xStart)] past the buffer's start. *)
Definition placed (mtls : MTLaunchStruct) (c : Invocation) : Prop :=
  ∃ x y, xStart mtls ≤ x < xEnd mtls ∧ yStart mtls ≤ y < yEnd mtls
         ∧ c = {| k_in := 0;
                  k_out := ptrOut mtls
                           + eStrideOut mtls * (dimX mtls * y + (x - xStart mtls));
                  k_x := x; k_y := y; k_z := 0; k_ar := 0 |}.

(** ** Test data *)

Module Samples.

Definition flat8 : Allocation :=
  {| getDimX := 8; getDimY := 0; getDimZ := 0;
     getElementSizeBytes := 4; mallocPtr := 1000; stride := 32 |}.

Definition grid4x3 : Allocation :=
  {| getDimX := 4; getDimY := 3; getDimZ := 0;
     getElementSizeBytes := 1; mallocPtr := 1000; stride := 4 |}.

(** Two rows of two bytes, each row padded to four bytes. *)
Definition padded2x2 : Allocation :=
  {| getDimX := 2; getDimY := 2; getDimZ := 0;
     getElementSizeBytes := 1; mallocPtr := 1000; stride := 4 |}.

Definition deep : Allocation :=
  {| getDimX := 1; getDimY := 1; getDimZ := 4;
     getElementSizeBytes := 1; mallocPtr := 1000; stride := 1 |}.

Definition hal (n : Z) : RsdHal := {| mCount := n; mInForEach := false |}.

Definition threadable : Script := {| isThreadable := true |}.

Definition clip (xs xe ys ye : Z) : RsScriptCall :=
  {| sc_xStart := xs; sc_xEnd := xe; sc_yStart := ys; sc_yEnd := ye;
     sc_zStart := 0; sc_zEnd := 0; sc_arrayStart := 0; sc_arrayEnd := 0 |}.

(** [k] rounds over the workers [0 .. n-1]. *)
Definition round_robin (n k : nat) : list nat := mjoin (replicate k (seq 0 n)).

(** A kernel that stores the low byte of [16 * y + x]. *)
Definition tag (x y z ar : Z) : list Byte.byte :=
  match Byte.of_N (Z.to_N ((16 * y + x) `mod` 256)) with
  | Some b => [b]
  | None => []
  end.

(** The outcome of a call that has returned. *)
Definition outcome_of (r : Reply) : Outcome :=
  match r with
  | Returned out => out
  | _ => {| error := None; invoked := []; hal_after := hal 0; launch := None |}
  end.

End Samples.

(** * More of the driver *)

(** ** The calls of a launch *)

(** What every kernel call of a launch has in common, whichever path
    makes it: Z and the array index are 0, x lies in the X range, y lies
    below the end of the Y range, and each pointer is the buffer's start
    plus a 32-bit product of a stride plus one element stride per step
    taken from [xStart]. *)
Definition dispatched (m : MTLaunchStruct) (c : Invocation) : Prop :=
  k_z c = 0 ∧ k_ar c = 0
  ∧ xStart m ≤ k_x c < xEnd m
  ∧ Z.min 0 (yStart m) ≤ k_y c < yEnd m
  ∧ (∃ a b, (a = yStrideIn m ∨ a = eStrideIn m)
            ∧ k_in c = ptrIn m + u32 (a * b) + (k_x c - xStart m) * eStrideIn m)
  ∧ (∃ a b, (a = yStrideOut m ∨ a = eStrideOut m)
            ∧ k_out c = ptrOut m + u32 (a * b) + (k_x c - xStart m) * eStrideOut m).

(** ** Scripts *)

(** [struct DrvScript].  A pointer is an address and [NULL] is 0; an
    array is the list of its elements, empty while its pointer is
    [NULL]; a bound allocation is [None] for [NULL]. *)
Record DrvScript := {
  mScriptSO : Z;
  mRoot : Z;
  mRootExpand : Z;
  mInit : Z;
  mFreeChildren : Z;
  mInvokeFunctions : list Z;
  mForEachFunctions : list Z;
  mFieldAddress : list Z;
  mFieldIsObject : list bool;
  mForEachSignatures : list Z;
  mBoundAllocs : list (option Allocation)
}.

(** [script->mHal]: the driver record [drv], [None] for [NULL], and the
    fields of [info] that the driver writes or reads. *)
Record ScriptHal := {
  drv : option DrvScript;
  exportedVariableCount : Z;
  exportedFunctionCount : Z;
  exportedPragmaCount : Z;
  root : Z;
  info_isThreadable : bool
}.

Definition set_drv (d : option DrvScript) (s : ScriptHal) : ScriptHal :=
  {| drv := d;
     exportedVariableCount := exportedVariableCount s;
     exportedFunctionCount := exportedFunctionCount s;
     exportedPragmaCount := exportedPragmaCount s;
     root := root s;
     info_isThreadable := info_isThreadable s |}.

Definition set_mBoundAllocs (l : list (option Allocation)) (d : DrvScript) : DrvScript :=
  {| mScriptSO := mScriptSO d; mRoot := mRoot d; mRootExpand := mRootExpand d;
     mInit := mInit d; mFreeChildren := mFreeChildren d;
     mInvokeFunctions := mInvokeFunctions d;
     mForEachFunctions := mForEachFunctions d;
     mFieldAddress := mFieldAddress d;
     mFieldIsObject := mFieldIsObject d;
     mForEachSignatures := mForEachSignatures d;
     mBoundAllocs := l |}.

(** The script as the dispatcher sees it. *)
Definition as_script (s : ScriptHal) : Script :=
  {| isThreadable := info_isThreadable s |}.

(** What the driver asks of the runtime and of the C library. *)
Inductive Event :=
  | MutexLock
  | MutexUnlock
  | Fclose (fp : Z)
  | Dlclose (handle : Z)
  | LookupRuntimeStub (name : string)
  | IncRefs (ptr : Z)
  | DecRefs (ptr : Z)
  | SetObject (dst : Z) (src : Z)
  | ClearObject (dst : Z).

(** [a[i]]: reading outside the array is undefined, here [None]. *)
Definition elem_at {A : Type} (l : list A) (i : Z) : option A :=
  if i <? 0 then None else l !! Z.to_nat i.

(** ** Script globals *)

(** In the functions below [None] stands for behaviour the language
    leaves undefined: a null [drv] dereferenced, or an array read or
    written outside its bounds.  A caller's buffer is given by its
    contents, [dataLength] being their number. *)

(** [rsdScriptSetGlobalVar], lines 651-664. *)
Definition rsdScriptSetGlobalVar (script : ScriptHal) (slot : Z)
    (data : list Byte.byte) (mem : gmap Z Byte.byte) : option (gmap Z Byte.byte) :=
  d ← drv script;
  destPtr ← elem_at (mFieldAddress d) slot;
  if destPtr =? 0 then Some mem
  else Some (write_bytes destPtr data mem).

(** One turn of the increment loop and of the decrement loop of lines
    690-700: the call, then the pointer moves on by the stride. *)
Definition incRefs_step (stride : Z) (i : Z) (s : Z * list Event) : Z * list Event :=
  (s.1 + stride, s.2 ++ [IncRefs s.1]).

Definition decRefs_step (stride : Z) (i : Z) (s : Z * list Event) : Z * list Event :=
  (s.1 + stride, s.2 ++ [DecRefs s.1]).

(** [rsdScriptSetGlobalVarWithElemDims], lines 666-704.  [data] is the
    buffer's address and [bytes] its contents; [stride] is
    [elem->getSizeBytes()]; [dims] is the array of [dimLength] bytes. *)
Definition rsdScriptSetGlobalVarWithElemDims (script : ScriptHal) (slot : Z)
    (data : Z) (bytes : list Byte.byte) (stride : Z)
    (dims : list Z) (dimLength : Z) (mem : gmap Z Byte.byte)
    : option (gmap Z Byte.byte * list Event) :=
  d ← drv script;
  destPtr ← elem_at (mFieldAddress d) slot;
  if destPtr =? 0 then Some (mem, [])
  else
    let dimLength := dimLength `div` 4 in
    if dimLength =? 1 then
      dims0 ← elem_at dims 0;
      let ev := (for_range 0 dims0 (incRefs_step stride) (data, [])).2 in
      let ev := (for_range 0 dims0 (decRefs_step stride) (destPtr, ev)).2 in
      Some (write_bytes destPtr bytes mem, ev)
    else Some (write_bytes destPtr bytes mem, []).

(** The bytes of a pointer in memory, least significant first. *)
Definition byte_of (z : Z) : Byte.byte :=
  default Byte.x00 (Byte.of_N (Z.to_N (z `mod` 256))).

Fixpoint pointer_bytes (size : nat) (p : Z) : list Byte.byte :=
  match size with
  | O => []
  | S n => byte_of p :: pointer_bytes n (p `div` 256)
  end.

(** The pointer stored in [size] bytes at [a], when all are mapped. *)
Fixpoint read_pointer (size : nat) (a : Z) (mem : gmap Z Byte.byte) : option Z :=
  match size with
  | O => Some 0
  | S n =>
      b ← mem !! a;
      rest ← read_pointer n (a + 1) mem;
      Some (Z.of_N (Byte.to_N b) + 256 * rest)
  end.

(** [rsdScriptSetGlobalBind], lines 706-725; [sizeof_ptr] is the size
    of a pointer in bytes. *)
Definition rsdScriptSetGlobalBind (sizeof_ptr : nat) (script : ScriptHal) (slot : Z)
    (data : option Allocation) (mem : gmap Z Byte.byte)
    : option (ScriptHal * gmap Z Byte.byte) :=
  d ← drv script;
  destPtr ← elem_at (mFieldAddress d) slot;
  if destPtr =? 0 then Some (script, mem)
  else
    _ ← elem_at (mBoundAllocs d) slot;
    let d := set_mBoundAllocs (<[Z.to_nat slot := data]> (mBoundAllocs d)) d in
    let ptr := from_option mallocPtr 0 data in
    Some (set_drv (Some d) script,
          write_bytes destPtr (pointer_bytes sizeof_ptr ptr) mem).

(** [rsdScriptSetGlobalObj], lines 727-739. *)
Definition rsdScriptSetGlobalObj (script : ScriptHal) (slot : Z) (data : Z)
    : option (list Event) :=
  d ← drv script;
  destPtr ← elem_at (mFieldAddress d) slot;
  if destPtr =? 0 then Some []
  else Some [SetObject destPtr data].

(** One turn of the loop of lines 748-756. *)
Definition destroy_step (d : DrvScript) (i : Z) (acc : option (list Event))
    : option (list Event) :=
  ev ← acc;
  isObject ← elem_at (mFieldIsObject d) i;
  if isObject : bool then
    addr ← elem_at (mFieldAddress d) i;
    if addr =? 0 then Some ev else Some (ev ++ [ClearObject addr])
  else Some ev.

(** [rsdScriptDestroy], lines 741-769. *)
Definition rsdScriptDestroy (script : ScriptHal) : option (ScriptHal * list Event) :=
  match drv script with
  | None => Some (script, [])
  | Some d =>
      ev ← for_range 0 (exportedVariableCount script) (destroy_step d) (Some []);
      Some (set_drv None script,
            ev ++ (if mScriptSO d =? 0 then [] else [Dlclose (mScriptSO d)]))
  end.

(** The loop of lines 779-786 over the slots [cts], with its early
    [return]. *)
Fixpoint find_bound (d : option DrvScript) (cts : list Z) (ptr : Z)
    : option (option Allocation) :=
  match cts with
  | [] => Some None
  | ct :: rest =>
      d' ← d;
      a ← elem_at (mBoundAllocs d') ct;
      match a with
      | None => find_bound d rest ptr
      | Some al =>
          if mallocPtr al =? ptr then Some (Some al)
          else find_bound d rest ptr
      end
  end.

(** [rsdScriptGetAllocationForPointer], lines 771-789: the outer [None]
    is undefined behaviour, the inner one [NULL]. *)
Definition rsdScriptGetAllocationForPointer (script : ScriptHal) (ptr : Z)
    : option (option Allocation) :=
  if ptr =? 0 then Some None
  else find_bound (drv script) (seqZ 0 (exportedVariableCount script)) ptr.

(** ** Loading a script *)

Definition EXPORT_VAR_STR : string := "exportVarCount: ".
Definition EXPORT_FUNC_STR : string := "exportFuncCount: ".
Definition EXPORT_FOREACH_STR : string := "exportForEachCount: ".
Definition OBJECT_SLOT_STR : string := "objectSlotCount: ".

(** The C library as [rsdScriptInit] uses it.  [dlsym handle symbol] is
    0 for [NULL].  [scan_count prefix line] is the number stored by
    [sscanf(line, prefix "%zu", &n)] when the call returns 1;
    [scan_forEach line] is the pair stored by
    [sscanf(line, "%u - %500s", &tmpSig, tmpName)] when it returns 2;
    [scan_slot line] is the number stored by [sscanf(line, "%u", &n)]
    when it returns 1. *)
Record Libc := {
  dlsym : Z → string → Z;
  scan_count : string → string → option N;
  scan_forEach : string → option (N * string);
  scan_slot : string → option N
}.

(** [calloc(1, sizeof(DrvScript))]. *)
Definition drv_zeroed : DrvScript :=
  {| mScriptSO := 0; mRoot := 0; mRootExpand := 0; mInit := 0; mFreeChildren := 0;
     mInvokeFunctions := []; mForEachFunctions := [];
     mFieldAddress := []; mFieldIsObject := [];
     mForEachSignatures := []; mBoundAllocs := [] |}.

Definition set_mScriptSO (h : Z) (d : DrvScript) : DrvScript :=
  {| mScriptSO := h; mRoot := mRoot d; mRootExpand := mRootExpand d;
     mInit := mInit d; mFreeChildren := mFreeChildren d;
     mInvokeFunctions := mInvokeFunctions d;
     mForEachFunctions := mForEachFunctions d;
     mFieldAddress := mFieldAddress d;
     mFieldIsObject := mFieldIsObject d;
     mForEachSignatures := mForEachSignatures d;
     mBoundAllocs := mBoundAllocs d |}.

Definition set_entry_points (r re i f : Z) (d : DrvScript) : DrvScript :=
  {| mScriptSO := mScriptSO d; mRoot := r; mRootExpand := re;
     mInit := i; mFreeChildren := f;
     mInvokeFunctions := mInvokeFunctions d;
     mForEachFunctions := mForEachFunctions d;
     mFieldAddress := mFieldAddress d;
     mFieldIsObject := mFieldIsObject d;
     mForEachSignatures := mForEachSignatures d;
     mBoundAllocs := mBoundAllocs d |}.

Definition set_mInvokeFunctions (l : list Z) (d : DrvScript) : DrvScript :=
  {| mScriptSO := mScriptSO d; mRoot := mRoot d; mRootExpand := mRootExpand d;
     mInit := mInit d; mFreeChildren := mFreeChildren d;
     mInvokeFunctions := l;
     mForEachFunctions := mForEachFunctions d;
     mFieldAddress := mFieldAddress d;
     mFieldIsObject := mFieldIsObject d;
     mForEachSignatures := mForEachSignatures d;
     mBoundAllocs := mBoundAllocs d |}.

Definition set_mForEachFunctions (l : list Z) (d : DrvScript) : DrvScript :=
  {| mScriptSO := mScriptSO d; mRoot := mRoot d; mRootExpand := mRootExpand d;
     mInit := mInit d; mFreeChildren := mFreeChildren d;
     mInvokeFunctions := mInvokeFunctions d;
     mForEachFunctions := l;
     mFieldAddress := mFieldAddress d;
     mFieldIsObject := mFieldIsObject d;
     mForEachSignatures := mForEachSignatures d;
     mBoundAllocs := mBoundAllocs d |}.

Definition set_mFieldAddress (l : list Z) (d : DrvScript) : DrvScript :=
  {| mScriptSO := mScriptSO d; mRoot := mRoot d; mRootExpand := mRootExpand d;
     mInit := mInit d; mFreeChildren := mFreeChildren d;
     mInvokeFunctions := mInvokeFunctions d;
     mForEachFunctions := mForEachFunctions d;
     mFieldAddress := l;
     mFieldIsObject := mFieldIsObject d;
     mForEachSignatures := mForEachSignatures d;
     mBoundAllocs := mBoundAllocs d |}.

Definition set_mFieldIsObject (l : list bool) (d : DrvScript) : DrvScript :=
  {| mScriptSO := mScriptSO d; mRoot := mRoot d; mRootExpand := mRootExpand d;
     mInit := mInit d; mFreeChildren := mFreeChildren d;
     mInvokeFunctions := mInvokeFunctions d;
     mForEachFunctions := mForEachFunctions d;
     mFieldAddress := mFieldAddress d;
     mFieldIsObject := l;
     mForEachSignatures := mForEachSignatures d;
     mBoundAllocs := mBoundAllocs d |}.

Definition set_mForEachSignatures (l : list Z) (d : DrvScript) : DrvScript :=
  {| mScriptSO := mScriptSO d; mRoot := mRoot d; mRootExpand := mRootExpand d;
     mInit := mInit d; mFreeChildren := mFreeChildren d;
     mInvokeFunctions := mInvokeFunctions d;
     mForEachFunctions := mForEachFunctions d;
     mFieldAddress := mFieldAddress d;
     mFieldIsObject := mFieldIsObject d;
     mForEachSignatures := l;
     mBoundAllocs := mBoundAllocs d |}.

Definition set_exportedVariableCount (n : Z) (s : ScriptHal) : ScriptHal :=
  {| drv := drv s;
     exportedVariableCount := n;
     exportedFunctionCount := exportedFunctionCount s;
     exportedPragmaCount := exportedPragmaCount s;
     root := root s;
     info_isThreadable := info_isThreadable s |}.

Definition set_exportedFunctionCount (n : Z) (s : ScriptHal) : ScriptHal :=
  {| drv := drv s;
     exportedVariableCount := exportedVariableCount s;
     exportedFunctionCount := n;
     exportedPragmaCount := exportedPragmaCount s;
     root := root s;
     info_isThreadable := info_isThreadable s |}.

Definition set_exportedPragmaCount (n : Z) (s : ScriptHal) : ScriptHal :=
  {| drv := drv s;
     exportedVariableCount := exportedVariableCount s;
     exportedFunctionCount := exportedFunctionCount s;
     exportedPragmaCount := n;
     root := root s;
     info_isThreadable := info_isThreadable s |}.

Definition set_root (r : Z) (s : ScriptHal) : ScriptHal :=
  {| drv := drv s;
     exportedVariableCount := exportedVariableCount s;
     exportedFunctionCount := exportedFunctionCount s;
     exportedPragmaCount := exportedPragmaCount s;
     root := r;
     info_isThreadable := info_isThreadable s |}.

Definition set_isThreadable (b : bool) (s : ScriptHal) : ScriptHal :=
  {| drv := drv s;
     exportedVariableCount := exportedVariableCount s;
     exportedFunctionCount := exportedFunctionCount s;
     exportedPragmaCount := exportedPragmaCount s;
     root := root s;
     info_isThreadable := b |}.

(** What the body of [rsdScriptInit] works on: the script's [mHal], the
    driver record behind [drv], and the rest of the info file, as the
    strings that the coming calls of [fgets] return one after the
    other. *)
Record InitState := {
  st_script : ScriptHal;
  st_drv : DrvScript;
  st_fp : list string
}.

(** A step of the body: it yields a value, or [None] where the source
    has [goto error], and the state it leaves in either case. *)
Definition Init (A : Type) : Type := InitState → option A * InitState.

#[global] Instance Init_ret : MRet Init := λ A a st, (Some a, st).

#[global] Instance Init_bind : MBind Init := λ A B f m st,
  match m st with
  | (Some a, st') => f a st'
  | (None, st') => (None, st')
  end.

Definition goto_error {A : Type} : Init A := λ st, (None, st).

Definition upd_drv (f : DrvScript → DrvScript) : Init unit := λ st,
  (Some tt, {| st_script := st_script st; st_drv := f (st_drv st); st_fp := st_fp st |}).

Definition upd_script (f : ScriptHal → ScriptHal) : Init unit := λ st,
  (Some tt, {| st_script := f (st_script st); st_drv := st_drv st; st_fp := st_fp st |}).

Definition get_drv : Init DrvScript := λ st, (Some (st_drv st), st).

(** [if (fgets(line, MAXLINE, fp) == NULL) goto error;]. *)
Definition fgets : Init string := λ st,
  match st_fp st with
  | [] => (None, st)
  | line :: rest =>
      (Some line, {| st_script := st_script st; st_drv := st_drv st; st_fp := rest |})
  end.

(** [if (sscanf(...) != n) goto error;]. *)
Definition scanned {A : Type} (o : option A) : Init A :=
  match o with
  | Some a => mret a
  | None => goto_error
  end.

(** [for (size_t i = 0; i < n; ++i) body], over the values of [i]. *)
Fixpoint for_each {A : Type} (l : list A) (body : A → Init unit) : Init unit :=
  match l with
  | [] => mret tt
  | i :: rest => body i ;; for_each rest body
  end.

Definition newline : Ascii.ascii := Ascii.ascii_of_nat 10.

Fixpoint has_newline (s : string) : bool :=
  match s with
  | EmptyString => false
  | String c rest => Ascii.eqb c newline || has_newline rest
  end.

(** Lines 180-183: the string is cut at its last newline, if it has
    one. *)
Fixpoint chop_last_newline (s : string) : string :=
  match s with
  | EmptyString => EmptyString
  | String c rest =>
      if has_newline rest then String c (chop_last_newline rest)
      else if Ascii.eqb c newline then EmptyString
      else s
  end.

(** Lines 177-193, one exported variable. *)
Definition read_variable (libc : Libc) (scriptSO : Z) (i : nat) : Init unit :=
  line ← fgets;
  let line := chop_last_newline line in
  upd_drv (λ d, set_mFieldAddress (<[i := dlsym libc scriptSO line]> (mFieldAddress d)) d).

(** Lines 215-233, one exported function. *)
Definition read_function (libc : Libc) (scriptSO : Z) (i : nat) : Init unit :=
  line ← fgets;
  let line := chop_last_newline line in
  upd_drv (λ d, set_mInvokeFunctions
                  (<[i := dlsym libc scriptSO line]> (mInvokeFunctions d)) d) ;;
  d ← get_drv;
  if default 0 (mInvokeFunctions d !! i) =? 0 then goto_error else mret tt.

(** Lines 257-283, one exported kernel. *)
Definition read_forEach (libc : Libc) (scriptSO : Z) (i : nat) : Init unit :=
  line ← fgets;
  parsed ← scanned (scan_forEach libc line);
  upd_drv (λ d, set_mForEachSignatures
                  (<[i := Z.of_N parsed.1]> (mForEachSignatures d)) d) ;;
  upd_drv (λ d, set_mForEachFunctions
                  (<[i := dlsym libc scriptSO parsed.2]> (mForEachFunctions d)) d) ;;
  d ← get_drv;
  if default 0 (mForEachFunctions d !! i) =? 0 then goto_error else mret tt.

(** Lines 299-310, one object slot. *)
Definition read_object_slot (libc : Libc) (varCount : N) (i : nat) : Init unit :=
  line ← fgets;
  varNum ← scanned (scan_slot libc line);
  if (varNum <? varCount)%N then
    upd_drv (λ d, set_mFieldIsObject (<[N.to_nat varNum := true]> (mFieldIsObject d)) d)
  else mret tt.

(** Lines 152-195, the exported variables.  The arrays made by [new]
    start with zeros here; the source writes every element before it
    reads it. *)
Definition load_variables (libc : Libc) (scriptSO : Z) : Init N :=
  line ← fgets;
  varCount ← scanned (scan_count libc EXPORT_VAR_STR line);
  upd_script (set_exportedVariableCount (Z.of_N varCount)) ;;
  (if (0 <? varCount)%N then
     upd_drv (set_mFieldIsObject (replicate (N.to_nat varCount) false)) ;;
     upd_drv (set_mFieldAddress (replicate (N.to_nat varCount) 0)) ;;
     for_each (seq 0 (N.to_nat varCount)) (read_variable libc scriptSO)
   else mret tt) ;;
  mret varCount.

(** Lines 197-235, the exported functions. *)
Definition load_functions (libc : Libc) (scriptSO : Z) : Init unit :=
  line ← fgets;
  funcCount ← scanned (scan_count libc EXPORT_FUNC_STR line);
  upd_script (set_exportedFunctionCount (Z.of_N funcCount)) ;;
  if (0 <? funcCount)%N then
    upd_drv (set_mInvokeFunctions (replicate (N.to_nat funcCount) 0)) ;;
    for_each (seq 0 (N.to_nat funcCount)) (read_function libc scriptSO)
  else mret tt.

(** Lines 237-285, the exported kernels. *)
Definition load_forEach (libc : Libc) (scriptSO : Z) : Init unit :=
  line ← fgets;
  forEachCount ← scanned (scan_count libc EXPORT_FOREACH_STR line);
  if (0 <? forEachCount)%N then
    upd_drv (set_mForEachSignatures (replicate (N.to_nat forEachCount) 0)) ;;
    upd_drv (set_mForEachFunctions (replicate (N.to_nat forEachCount) 0)) ;;
    for_each (seq 0 (N.to_nat forEachCount)) (read_forEach libc scriptSO)
  else mret tt.

(** Lines 287-312, the object slots. *)
Definition load_object_slots (libc : Libc) (varCount : N) : Init unit :=
  line ← fgets;
  objectSlotCount ← scanned (scan_count libc OBJECT_SLOT_STR line);
  if (0 <? objectSlotCount)%N then
    for_each (seq 0 (N.to_nat objectSlotCount)) (read_object_slot libc varCount)
  else mret tt.

(** Lines 133-327, the body of [if (scriptSO)]. *)
Definition load_info (libc : Libc) (scriptSO : Z) : Init unit :=
  upd_drv (set_entry_points (dlsym libc scriptSO "root")
                            (dlsym libc scriptSO "root.expand")
                            (dlsym libc scriptSO "init")
                            (dlsym libc scriptSO ".rs.dtor")) ;;
  varCount ← load_variables libc scriptSO;
  load_functions libc scriptSO ;;
  load_forEach libc scriptSO ;;
  load_object_slots libc varCount ;;
  upd_script (set_exportedPragmaCount 0) ;;
  d ← get_drv;
  upd_script (set_root (if mRootExpand d =? 0 then mRoot d else mRootExpand d)) ;;
  (if (0 <? varCount)%N then
     upd_drv (set_mBoundAllocs (replicate (N.to_nat varCount) None))
   else mret tt) ;;
  upd_script (set_isThreadable true).

(** How a call of [rsdScriptInit] ends: it returns its flag, leaving the
    script's [mHal] and having made the calls listed, or it makes a call
    whose behaviour the C library leaves undefined, after the calls
    [before]. *)
Inductive InitReply :=
  | InitReturned (r : bool * ScriptHal * list Event)
  | InitUndefined (before : list Event) (call : Event).

(** The label [error], lines 338-355, entered after the calls [before]
    with the file pointer [fp] and the driver record, [None] when
    [calloc] failed.  Line 340 calls [fclose(fp)] whatever [fp] is, and
    [fclose] of a null pointer is undefined. *)
Definition init_error (before : list Event) (fp : Z) (d : option DrvScript)
    (script : ScriptHal) : InitReply :=
  if fp =? 0 then InitUndefined before (Fclose fp)
  else
    InitReturned
      (false, set_drv None script,
       before ++ [Fclose fp; MutexUnlock]
       ++ match d with
          | Some d => if mScriptSO d =? 0 then [] else [Dlclose (mScriptSO d)]
          | None => []
          end).

(** [rsdScriptInit], lines 82-357.  [calloc_ok] tells whether [calloc]
    gave a record, [fp] is what [fopen] returns, [lines] what the calls
    of [fgets] on it return, and [scriptSO] what [dlopen] returns.  When
    [calloc] fails [fopen] is not called and the file pointer is still
    [NULL] at the label [error]. *)
Definition rsdScriptInit (libc : Libc) (calloc_ok : bool) (fp : Z)
    (lines : list string) (scriptSO : Z) (script : ScriptHal) : InitReply :=
  let before := [MutexLock] in
  if negb calloc_ok then init_error before 0 None script
  else
    let script := set_drv (Some drv_zeroed) script in
    if fp =? 0 then init_error before fp (Some drv_zeroed) script
    else if scriptSO =? 0 then init_error before fp (Some drv_zeroed) script
    else
      match load_info libc scriptSO
              {| st_script := script;
                 st_drv := set_mScriptSO scriptSO drv_zeroed;
                 st_fp := lines |} with
      | (Some _, st) =>
          InitReturned
            (true, set_drv (Some (st_drv st)) (st_script st),
             before
             ++ (if scriptSO =? 1 then [LookupRuntimeStub "acos"] else [])
             ++ [Fclose fp; MutexUnlock])
      | (None, st) => init_error before fp (Some (st_drv st)) (st_script st)
      end.

(** What a line of the kernel list stands for: the signature and the
    address of the named symbol, 0 where the line does not scan. *)
Definition forEach_sig (libc : Libc) (line : string) : Z :=
  from_option (λ p : N * string, Z.of_N p.1) 0 (scan_forEach libc line).

Definition forEach_fn (libc : Libc) (scriptSO : Z) (line : string) : Z :=
  from_option (λ p : N * string, dlsym libc scriptSO p.2) 0 (scan_forEach libc line).

(** The object marks after one line of the object slot list. *)
Definition mark_object (libc : Libc) (varCount : N) (arr : list bool) (line : string)
    : list bool :=
  match scan_slot libc line with
  | Some varNum =>
      if (varNum <? varCount)%N then <[N.to_nat varNum := true]> arr else arr
  | None => arr
  end.

(** The driver record of a script loaded from the library [scriptSO]
    and an info file that lists the variables [vars], the functions
    [funcs], the kernels [kernels] and the object slots [slots]. *)
Definition loaded_drv (libc : Libc) (scriptSO : Z)
    (vars funcs kernels slots : list string) : DrvScript :=
  {| mScriptSO := scriptSO;
     mRoot := dlsym libc scriptSO "root";
     mRootExpand := dlsym libc scriptSO "root.expand";
     mInit := dlsym libc scriptSO "init";
     mFreeChildren := dlsym libc scriptSO ".rs.dtor";
     mInvokeFunctions := (λ n, dlsym libc scriptSO (chop_last_newline n)) <$> funcs;
     mForEachFunctions := forEach_fn libc scriptSO <$> kernels;
     mFieldAddress := (λ n, dlsym libc scriptSO (chop_last_newline n)) <$> vars;
     mFieldIsObject := foldl (mark_object libc (N.of_nat (length vars)))
                             (replicate (length vars) false) slots;
     mForEachSignatures := forEach_sig libc <$> kernels;
     mBoundAllocs := replicate (length vars) None |}.

Definition loaded_script (libc : Libc) (scriptSO : Z)
    (vars funcs kernels slots : list string) : ScriptHal :=
  {| drv := Some (loaded_drv libc scriptSO vars funcs kernels slots);
     exportedVariableCount := Z.of_nat (length vars);
     exportedFunctionCount := Z.of_nat (length funcs);
     exportedPragmaCount := 0;
     root := if dlsym libc scriptSO "root.expand" =? 0
             then dlsym libc scriptSO "root"
             else dlsym libc scriptSO "root.expand";
     info_isThreadable := true |}.

(** An info file of the expected layout: four lists, each after a line
    with its length, whose kernel lines and object slot lines scan. *)
Definition info_file (libc : Libc) (lines vars funcs kernels slots rest : list string)
    : Prop :=
  ∃ lv lf lk lo,
    lines = lv :: vars ++ lf :: funcs ++ lk :: kernels ++ lo :: slots ++ rest
    ∧ scan_count libc EXPORT_VAR_STR lv = Some (N.of_nat (length vars))
    ∧ scan_count libc EXPORT_FUNC_STR lf = Some (N.of_nat (length funcs))
    ∧ scan_count libc EXPORT_FOREACH_STR lk = Some (N.of_nat (length kernels))
    ∧ scan_count libc OBJECT_SLOT_STR lo = Some (N.of_nat (length slots))
    ∧ Forall (λ n, is_Some (scan_forEach libc n)) kernels
    ∧ Forall (λ n, is_Some (scan_slot libc n)) slots.

(** Every function and every kernel that the file names is in the
    library. *)
Definition symbols_found (libc : Libc) (scriptSO : Z) (funcs kernels : list string)
    : Prop :=
  Forall (λ n, dlsym libc scriptSO (chop_last_newline n) ≠ 0) funcs
  ∧ Forall (λ n, forEach_fn libc scriptSO n ≠ 0) kernels.

(** A step that leaves the library handle of the driver record as it
    is, whether it ends with an error or not. *)
Definition keeps_library {A : Type} (m : Init A) : Prop :=
  ∀ st, mScriptSO (st_drv (m st).2) = mScriptSO (st_drv st).

(** The calls of a successful [rsdScriptInit]. *)
Definition init_calls (fp scriptSO : Z) : list Event :=
  MutexLock
  :: (if scriptSO =? 1 then [LookupRuntimeStub "acos"] else [])
  ++ [Fclose fp; MutexUnlock].

(** The [rsrClearObject] calls that [rsdScriptDestroy] makes for slot
    [i]. *)
Definition cleared (d : DrvScript) (i : Z) : list Event :=
  match elem_at (mFieldIsObject d) i, elem_at (mFieldAddress d) i with
  | Some true, Some a => if a =? 0 then [] else [ClearObject a]
  | _, _ => []
  end.

Module ScriptSamples.

(** Three exported variables: the second was not found in the library,
    the third holds an object. *)
Definition driver3 : DrvScript :=
  {| mScriptSO := 7; mRoot := 0; mRootExpand := 500; mInit := 0; mFreeChildren := 0;
     mInvokeFunctions := []; mForEachFunctions := [500]; 
     mFieldAddress := [2000; 0; 2016];
     mFieldIsObject := [false; false; true];
     mForEachSignatures := [3];
     mBoundAllocs := [None; None; None] |}.

Definition script3 : ScriptHal :=
  {| drv := Some driver3;
     exportedVariableCount := 3; exportedFunctionCount := 0;
     exportedPragmaCount := 0; root := 500; info_isThreadable := true |}.

Definition bytes4 : list Byte.byte := [Byte.x01; Byte.x02; Byte.x03; Byte.x04].

Definition nl : string := String newline EmptyString.

(** A C library that knows one library, with handle 7, and scans the
    lines of the file below. *)
Definition libc : Libc :=
  {| dlsym := λ handle name,
       if negb (handle =? 7) then 0
       else if String.eqb name "root" then 400
       else if String.eqb name "gA" then 2000
       else if String.eqb name "gObj" then 2016
       else if String.eqb name "invoke1" then 600
       else 0;
     scan_count := λ prefix line,
       if String.eqb line (prefix +:+ "0" +:+ nl) then Some 0%N
       else if String.eqb line (prefix +:+ "1" +:+ nl) then Some 1%N
       else if String.eqb line (prefix +:+ "2" +:+ nl) then Some 2%N
       else if String.eqb line (prefix +:+ "3" +:+ nl) then Some 3%N
       else None;
     scan_forEach := λ line,
       if String.eqb line ("3 - root" +:+ nl) then Some (3%N, "root") else None;
     scan_slot := λ line,
       if String.eqb line ("2" +:+ nl) then Some 2%N
       else if String.eqb line ("7" +:+ nl) then Some 7%N
       else None |}.

Definition vars3 : list string := ["gA" +:+ nl; "gMissing" +:+ nl; "gObj" +:+ nl].
Definition funcs1 : list string := ["invoke1" +:+ nl].
Definition kernels1 : list string := ["3 - root" +:+ nl].
Definition slots2 : list string := ["2" +:+ nl; "7" +:+ nl].

(** An info file: three variables, of which the second is not in the
    library, one function, one kernel, and two object slots, of which
    the second names no variable. *)
Definition info3 : list string :=
  (EXPORT_VAR_STR +:+ "3" +:+ nl) :: vars3
  ++ (EXPORT_FUNC_STR +:+ "1" +:+ nl) :: funcs1
  ++ (EXPORT_FOREACH_STR +:+ "1" +:+ nl) :: kernels1
  ++ (OBJECT_SLOT_STR +:+ "2" +:+ nl) :: slots2.

Definition unloaded : ScriptHal :=
  {| drv := None; exportedVariableCount := 0; exportedFunctionCount := 0;
     exportedPragmaCount := 0; root := 0; info_isThreadable := false |}.

(** The script that a call of [rsdScriptInit] that returns leaves, and
    the calls it has made. *)
Definition script_of (r : InitReply) : ScriptHal :=
  match r with
  | InitReturned r => r.1.2
  | InitUndefined _ _ => unloaded
  end.

Definition calls_of (r : InitReply) : list Event :=
  match r with
  | InitReturned r => r.2
  | InitUndefined before _ => before
  end.

End ScriptSamples.

(** * Properties *)

(** ** Arithmetic helpers *)

Lemma rsMax_floor a b : a ≤ rsMax a b.
Proof. unfold rsMax. destruct (Z.ltb_spec a b); lia. Qed.

Lemma rsMax_max a b : rsMax a b = Z.max a b.
Proof. unfold rsMax. destruct (Z.ltb_spec a b); lia. Qed.

Lemma rsMin_min a b : rsMin a b = Z.min a b.
Proof. unfold rsMin. destruct (Z.ltb_spec b a); lia. Qed.

Lemma u32_small z : is_u32 z → u32 z = z.
Proof. intros Hz. apply Z.mod_small. exact Hz. Qed.

Lemma u32_range z : is_u32 (u32 z).
Proof. apply Z.mod_pos_bound. reflexivity. Qed.

(** ** Setting up the launch *)

Lemma setup_null ain aout sc :
  launch_setup ain aout sc = NullAllocations ↔ ain = None ∧ aout = None.
Proof.
  unfold launch_setup, bound_allocation.
  destruct ain as [a|], aout as [b|]; simpl;
    repeat (match goal with
            | |- context [clipAxis ?d ?s ?f ?g] => destruct (clipAxis d s f g) as [[? ?]|]
            end);
    split; intros H; try discriminate; try (destruct H; discriminate); auto.
Qed.

Lemma clipAxis_unclipped dim sc cStart cEnd :
  (sc = None ∨ ∃ c, sc = Some c ∧ cEnd c = 0) →
  clipAxis dim sc cStart cEnd = Some (0, dim).
Proof.
  intros [-> | (c & -> & Hc)]; simpl; [done|].
  rewrite Hc. reflexivity.
Qed.


(** C4: with neither an input nor an output allocation the dispatcher
    reports an error to the context and returns; no kernel call is made,
    nothing is launched and the context is left as it was. *)
Theorem missing_buffers_rejected (dc : RsdHal) (s : Script)
    (sc : option RsScriptCall) (sched : list nat) :
  ∃ out msg,
    rsdScriptInvokeForEach dc s None None sc sched = Returned out
    ∧ error out = Some (RS_ERROR_BAD_SCRIPT, msg)
    ∧ invoked out = []
    ∧ launch out = None
    ∧ hal_after out = dc.
Proof. eexists _, _. repeat split. Qed.




(** ** Which way the kernel is run *)

Lemma dispatch_ready dc s ain aout sc sched mtls :
  launch_setup ain aout sc = Ready mtls →
  rsdScriptInvokeForEach dc s ain aout sc sched =
    if (1 <? mCount dc) && isThreadable s && negb (mInForEach dc) then
      match parallel_plan (mCount dc) mtls with
      | None => Undefined
      | Some (fn, mtls') =>
          match rsdLaunchThreads (mCount dc) (worker_body fn mtls') sched with
          | None => Blocked
          | Some tr =>
              Returned {| error := None; invoked := tr;
                          hal_after := set_mInForEach false (set_mInForEach true dc);
                          launch := Some (Threads (set_mInForEach true dc) fn mtls') |}
          end
      end
    else
      Returned {| error := None; invoked := seq_loops mtls;
                  hal_after := dc; launch := Some (Inline mtls) |}.
Proof. intros H. unfold rsdScriptInvokeForEach. rewrite H. reflexivity. Qed.

Lemma dispatch_launch_ready dc s ain aout sc sched out l :
  rsdScriptInvokeForEach dc s ain aout sc sched = Returned out →
  launch out = Some l →
  ∃ mtls, launch_setup ain aout sc = Ready mtls.
Proof.
  unfold rsdScriptInvokeForEach.
  destruct (launch_setup ain aout sc) as [| |mtls]; [| |eauto];
    intros [= <-]; simpl; discriminate.
Qed.

Lemma parallel_chosen_spec dc s :
  parallel_chosen dc s = true
  ↔ 1 < mCount dc ∧ isThreadable s = true ∧ mInForEach dc = false.
Proof.
  unfold parallel_chosen.
  destruct (Z.ltb_spec 1 (mCount dc)), (isThreadable s), (mInForEach dc);
    simpl; split; try done; try lia; intros (? & ? & ?); done || lia.
Qed.

(** C5: the dispatcher chooses the worker pool exactly when the pool has
    more than one worker, the script is threadable and the context's
    in-forEach flag is clear; a dispatch that returns has run the kernel
    on the pool exactly when its launch was set up and that choice was
    made.  Then the kernel calls of the dispatch are the calls that the
    workers of the pool made, launched on the context with the flag set
    and nothing else changed; any dispatch issued on the context as it is
    during the launch runs the caller's own nested loops and never
    reaches the pool; and the flag is clear again when the dispatch
    returns.  When the choice is not made, and so when the dispatch is
    entered with the flag set, the kernel calls are those of the caller's
    own nested loops and the context is left as it was found. *)
Theorem parallel_iff_guard (dc : RsdHal) (s : Script)
    (ain aout : option Allocation) (sc : option RsScriptCall)
    (sched : list nat) (out : Outcome) :
  rsdScriptInvokeForEach dc s ain aout sc sched = Returned out →
  (parallel_chosen dc s = true
     ↔ 1 < mCount dc ∧ isThreadable s = true ∧ mInForEach dc = false)
  ∧ ((∃ during fn mtls, launch out = Some (Threads during fn mtls))
     ↔ (∃ mtls, launch_setup ain aout sc = Ready mtls)
       ∧ 1 < mCount dc ∧ isThreadable s = true ∧ mInForEach dc = false)
  ∧ (∀ during fn mtls',
       launch out = Some (Threads during fn mtls') →
       during = set_mInForEach true dc
       ∧ (∃ mtls, launch_setup ain aout sc = Ready mtls
                  ∧ parallel_plan (mCount dc) mtls = Some (fn, mtls'))
       ∧ rsdLaunchThreads (mCount during) (worker_body fn mtls') sched
         = Some (invoked out)
       ∧ hal_after out = set_mInForEach false during
       ∧ mInForEach during = true
       ∧ mCount during = mCount dc
       ∧ mInForEach (hal_after out) = false
       ∧ ∀ s' ain' aout' sc' sched' m,
           launch_setup ain' aout' sc' = Ready m →
           rsdScriptInvokeForEach during s' ain' aout' sc' sched'
           = Returned {| error := None; invoked := seq_loops m;
                         hal_after := during; launch := Some (Inline m) |})
  ∧ (∀ mtls,
       launch_setup ain aout sc = Ready mtls →
       ¬ (1 < mCount dc ∧ isThreadable s = true ∧ mInForEach dc = false) →
       launch out = Some (Inline mtls)
       ∧ invoked out = seq_loops mtls
       ∧ hal_after out = dc)
  ∧ (mInForEach dc = true →
       hal_after out = dc
       ∧ ∀ mtls, launch_setup ain aout sc = Ready mtls →
           launch out = Some (Inline mtls) ∧ invoked out = seq_loops mtls).
Proof.
  intros Hret. split; [apply parallel_chosen_spec|].
  destruct (launch_setup ain aout sc) as [| |mtls] eqn:Hsetup.
  - unfold rsdScriptInvokeForEach in Hret. rewrite Hsetup in Hret.
    injection Hret as <-. simpl. split_and!.
    + split; [intros (?&?&?&[=]) | intros [[? [=]] _]].
    + intros ??? [=].
    + intros ? [=].
    + intros _. split; [done | intros ? [=]].
  - unfold rsdScriptInvokeForEach in Hret. rewrite Hsetup in Hret.
    injection Hret as <-. simpl. split_and!.
    + split; [intros (?&?&?&[=]) | intros [[? [=]] _]].
    + intros ??? [=].
    + intros ? [=].
    + intros _. split; [done | intros ? [=]].
  - rewrite (dispatch_ready _ _ _ _ _ _ _ Hsetup) in Hret.
    destruct (Z.ltb_spec 1 (mCount dc)) as [Hn|Hn];
      destruct (isThreadable s) eqn:Hth;
      destruct (mInForEach dc) eqn:Hin; simpl in Hret;
      try (injection Hret as <-; simpl; split_and!;
           [ split; [intros (?&?&?&[=]) | intros (_&?&?&?); (lia || done)]
           | intros ??? [=]
           | intros ? [= <-] _; done
           | intros _; split; [done | intros ? [= <-]; done] ]).
    destruct (parallel_plan (mCount dc) mtls) as [[fn m']|] eqn:Hplan; [|done].
    destruct (rsdLaunchThreads _ _ _) as [tr|] eqn:Htr; [|done].
    injection Hret as <-. simpl. split_and!.
    + split; [intros _; eauto 6 | eauto].
    + intros ??? [= <- <- <-]. split_and!; try done.
      * by exists mtls.
      * intros s' ain' aout' sc' sched' m Hm.
        rewrite (dispatch_ready _ _ _ _ _ _ _ Hm). simpl.
        by rewrite andb_false_r.
    + intros ? [= <-] Hng. exfalso. by apply Hng.
    + done.
Qed.

Lemma parallel_iff_guard_witness :
  let out := Samples.outcome_of
               (rsdScriptInvokeForEach (Samples.hal 2) Samples.threadable
                  None (Some Samples.grid4x3) None (Samples.round_robin 2 20)) in
  (∃ during fn mtls,
     launch out = Some (Threads during fn mtls)
     ∧ mInForEach during = true
     ∧ rsdLaunchThreads (mCount during) (worker_body fn mtls)
         (Samples.round_robin 2 20) = Some (invoked out))
  ∧ mInForEach (hal_after out) = false.
Proof.
  intros out.
  destruct (parallel_iff_guard (Samples.hal 2) Samples.threadable
              None (Some Samples.grid4x3) None (Samples.round_robin 2 20) out)
    as (_ & Hiff & Hflag & _); [vm_compute; reflexivity|].
  assert (Hpar : ∃ during fn mtls, launch out = Some (Threads during fn mtls)).
  { apply Hiff. split_and!; [eexists; vm_compute; reflexivity | reflexivity | done | done]. }
  destruct Hpar as (d & fn & m & Hl).
  destruct (Hflag d fn m Hl) as (_ & _ & Hrun & _ & Hset & _ & Hclear & _).
  exact (conj (ex_intro _ d (ex_intro _ fn (ex_intro _ m (conj Hl (conj Hset Hrun)))))
              Hclear).
Defined.

(** ** The resolved ranges *)

Lemma setup_ready_inv ain aout sc mtls :
  launch_setup ain aout sc = Ready mtls →
  ∃ a xs xe ys ye,
    bound_allocation ain aout = Some a
    ∧ clipAxis (getDimX a) sc sc_xStart sc_xEnd = Some (xs, xe)
    ∧ clipAxis (getDimY a) sc sc_yStart sc_yEnd = Some (ys, ye)
    ∧ xStart mtls = xs ∧ xEnd mtls = rsMax 1 xe
    ∧ yStart mtls = ys ∧ yEnd mtls = rsMax 1 ye
    ∧ zStart mtls = 0 ∧ zEnd mtls = 1
    ∧ arrayStart mtls = 0 ∧ arrayEnd mtls = 1
    ∧ dimX mtls = getDimX a ∧ dimY mtls = getDimY a ∧ dimZ mtls = getDimZ a
    ∧ ptrOut mtls = from_option mallocPtr 0 aout
    ∧ eStrideOut mtls = from_option getElementSizeBytes 0 aout
    ∧ yStrideOut mtls = from_option stride 0 aout.
Proof.
  unfold launch_setup.
  destruct (bound_allocation ain aout) as [a|]; [|done].
  destruct (clipAxis (getDimX a) sc sc_xStart sc_xEnd) as [[xs xe]|] eqn:Hx; [|done].
  destruct (clipAxis (getDimY a) sc sc_yStart sc_yEnd) as [[ys ye]|] eqn:Hy; [|done].
  intros [= <-]. exists a, xs, xe, ys, ye. simpl. split_and!; done.
Qed.

Lemma setup_unclipped ain aout sc a mtls :
  bound_allocation ain aout = Some a →
  launch_setup ain aout sc = Ready mtls →
  ((sc = None ∨ ∃ c, sc = Some c ∧ sc_xEnd c = 0) →
     xStart mtls = 0 ∧ xEnd mtls = rsMax 1 (getDimX a))
  ∧ ((sc = None ∨ ∃ c, sc = Some c ∧ sc_yEnd c = 0) →
     yStart mtls = 0 ∧ yEnd mtls = rsMax 1 (getDimY a)).
Proof.
  intros Ha Hs.
  destruct (setup_ready_inv _ _ _ _ Hs)
    as (a' & xs & xe & ys & ye & Ha' & Hx & Hy & Hxs & Hxe & Hys & Hye & _).
  rewrite Ha in Ha'. injection Ha' as <-.
  split.
  - intros Hu. rewrite (clipAxis_unclipped _ _ _ _ Hu) in Hx.
    injection Hx as <- <-. done.
  - intros Hu. rewrite (clipAxis_unclipped _ _ _ _ Hu) in Hy.
    injection Hy as <- <-. done.
Qed.

(** C6, as the code has it: on the X and Y axes a launch without a clip,
    or with a clip whose end field is 0, runs from 0 to the buffer's
    dimension, raised to 1 when the buffer is flat there.  The Z and the
    array axis never take the buffer's dimension: they always run over
    [0, 1).  The end of every axis is at least 1. *)
Theorem axis_fallback (ain aout : option Allocation) (sc : option RsScriptCall)
    (a : Allocation) (mtls : MTLaunchStruct) :
  bound_allocation ain aout = Some a →
  launch_setup ain aout sc = Ready mtls →
  ((sc = None ∨ ∃ c, sc = Some c ∧ sc_xEnd c = 0) →
     xStart mtls = 0 ∧ xEnd mtls = rsMax 1 (getDimX a))
  ∧ ((sc = None ∨ ∃ c, sc = Some c ∧ sc_yEnd c = 0) →
     yStart mtls = 0 ∧ yEnd mtls = rsMax 1 (getDimY a))
  ∧ (zStart mtls = 0 ∧ zEnd mtls = 1)
  ∧ (arrayStart mtls = 0 ∧ arrayEnd mtls = 1)
  ∧ 1 ≤ xEnd mtls ∧ 1 ≤ yEnd mtls ∧ 1 ≤ zEnd mtls ∧ 1 ≤ arrayEnd mtls.
Proof.
  intros Ha Hs.
  destruct (setup_unclipped _ _ _ _ _ Ha Hs) as [HX HY].
  destruct (setup_ready_inv _ _ _ _ Hs)
    as (a' & xs & xe & ys & ye & _ & _ & _ & _ & Hxe & _ & Hye
        & Hzs & Hze & Has & Hae & _).
  split_and!; try done.
  - rewrite Hxe. apply rsMax_floor.
  - rewrite Hye. apply rsMax_floor.
  - lia.
  - lia.
Qed.

Lemma axis_fallback_witness :
  ∃ mtls,
    launch_setup None (Some Samples.flat8) None = Ready mtls
    ∧ (xStart mtls = 0 ∧ xEnd mtls = 8)
    ∧ (yStart mtls = 0 ∧ yEnd mtls = 1).
Proof.
  eexists. split; [reflexivity|].
  match goal with
  | |- (xStart ?m = _ ∧ _) ∧ _ =>
      destruct (axis_fallback None (Some Samples.flat8) None Samples.flat8 m
                  eq_refl eq_refl) as (Hx & Hy & _)
  end.
  split; [apply Hx | apply Hy]; left; reflexivity.
Defined.

(** C6 as stated fails on the Z axis: an output buffer four deep,
    dispatched without a clip, is run over [0, 1) on Z and not over its
    full depth. *)
Lemma z_axis_not_from_buffer :
  ¬ (∀ (ain aout : option Allocation) (a : Allocation) (mtls : MTLaunchStruct),
       bound_allocation ain aout = Some a →
       launch_setup ain aout None = Ready mtls →
       zStart mtls = 0 ∧ zEnd mtls = rsMax 1 (getDimZ a)).
Proof.
  intros H.
  destruct (H None (Some Samples.deep) Samples.deep _ eq_refl eq_refl) as [_ Hz].
  vm_compute in Hz. discriminate.
Qed.

(** C10, as the code has it: when the supplied clip has [xEnd = 0] the
    launch does not depend on its [xStart], and the X range is
    [0, max 1 dimX); likewise for [yEnd = 0], [yStart] and
    [0, max 1 dimY). *)
Theorem zero_end_ignores_start (ain aout : option Allocation) (a : Allocation)
    (c : RsScriptCall) (mtls : MTLaunchStruct) :
  bound_allocation ain aout = Some a →
  launch_setup ain aout (Some c) = Ready mtls →
  (sc_xEnd c = 0 →
     xStart mtls = 0 ∧ xEnd mtls = rsMax 1 (getDimX a)
     ∧ ∀ v, launch_setup ain aout (Some (with_xStart v c)) = Ready mtls)
  ∧ (sc_yEnd c = 0 →
     yStart mtls = 0 ∧ yEnd mtls = rsMax 1 (getDimY a)
     ∧ ∀ v, launch_setup ain aout (Some (with_yStart v c)) = Ready mtls).
Proof.
  intros Ha Hs.
  destruct (setup_unclipped _ _ _ _ _ Ha Hs) as (Hx & Hy).
  split; intros H0.
  - destruct Hx as [-> ->]; [right; eauto|]. split_and!; try done.
    intros v. rewrite <- Hs. unfold launch_setup. rewrite Ha.
    unfold clipAxis at 1 3. simpl. rewrite H0. reflexivity.
  - destruct Hy as [-> ->]; [right; eauto|]. split_and!; try done.
    intros v. rewrite <- Hs. unfold launch_setup. rewrite Ha.
    destruct (clipAxis (getDimX a) (Some c) sc_xStart sc_xEnd) as [[xs xe]|] eqn:Hcx.
    + change (clipAxis (getDimX a) (Some (with_yStart v c)) sc_xStart sc_xEnd)
        with (clipAxis (getDimX a) (Some c) sc_xStart sc_xEnd).
      rewrite Hcx. unfold clipAxis. simpl. rewrite H0. reflexivity.
    + change (clipAxis (getDimX a) (Some (with_yStart v c)) sc_xStart sc_xEnd)
        with (clipAxis (getDimX a) (Some c) sc_xStart sc_xEnd).
      rewrite Hcx. reflexivity.
Qed.

Lemma zero_end_ignores_start_witness :
  ∃ mtls,
    launch_setup None (Some Samples.flat8) (Some (Samples.clip 5 0 7 0)) = Ready mtls
    ∧ (xStart mtls = 0 ∧ xEnd mtls = 8)
    ∧ (yStart mtls = 0 ∧ yEnd mtls = 1).
Proof.
  eexists. split; [reflexivity|].
  match goal with
  | |- (xStart ?m = _ ∧ _) ∧ _ =>
      destruct (zero_end_ignores_start None (Some Samples.flat8) Samples.flat8
                  (Samples.clip 5 0 7 0) m eq_refl eq_refl) as (Hx & Hy)
  end.
  destruct (Hx eq_refl) as (? & ? & _). destruct (Hy eq_refl) as (? & ? & _).
  done.
Defined.

(** C10 as stated fails on a flat axis: for a one-dimensional buffer
    ([dimY = 0]) and a clip with [yEnd = 0] the Y range is [0, 1), not
    [0, dimY). *)
Lemma zero_end_range_is_floored :
  ¬ (∀ (ain aout : option Allocation) (a : Allocation) (c : RsScriptCall)
       (mtls : MTLaunchStruct),
       bound_allocation ain aout = Some a →
       launch_setup ain aout (Some c) = Ready mtls →
       sc_yEnd c = 0 →
       yStart mtls = 0 ∧ yEnd mtls = getDimY a).
Proof.
  intros H.
  destruct (H None (Some Samples.flat8) Samples.flat8 (Samples.clip 0 0 7 0) _
              eq_refl eq_refl eq_refl) as [_ Hy].
  vm_compute in Hy. discriminate.
Qed.

(** ** The slice size *)

Lemma sliceSizeFor_no_wrap dim n :
  1 ≤ n → n * 4 < UINT32_MOD →
  sliceSizeFor dim n = Some (Z.max 1 (dim `div` (n * 4))).
Proof.
  intros Hn Hw. unfold sliceSizeFor, udiv.
  rewrite u32_small by (unfold is_u32; lia).
  destruct (Z.eqb_spec (n * 4) 0) as [?|_]; [lia|].
  f_equal. destruct (Z.ltb_spec (dim `div` (n * 4)) 1); lia.
Qed.

(** C7, as the code has it: for every worker count [n >= 1] whose
    fourfold fits the 32-bit product [mCount * 4], the slice size is
    [max 1 (extent / (n * 4))], a function of the sliced axis's extent and
    of the worker count alone; a dispatch that ran on the pool used this
    size, slicing Y with [wc_xy] when [dimY > 1] and X with [wc_x]
    otherwise. *)
Theorem slice_size_formula :
  (∀ dim n, 1 ≤ n → n * 4 < UINT32_MOD →
     sliceSizeFor dim n = Some (Z.max 1 (dim `div` (n * 4))))
  ∧ (∀ dc s ain aout sc sched out during fn mtls,
       mCount dc * 4 < UINT32_MOD →
       rsdScriptInvokeForEach dc s ain aout sc sched = Returned out →
       launch out = Some (Threads during fn mtls) →
       let extent := if 1 <? dimY mtls then dimY mtls else dimX mtls in
       mSliceSize mtls = Z.max 1 (extent `div` (mCount dc * 4))
       ∧ fn = (if 1 <? dimY mtls then by_wc_xy else by_wc_x)).
Proof.
  split; [exact sliceSizeFor_no_wrap|].
  intros dc s ain aout sc sched out during fn mtls Hw Hret Hl.
  destruct (dispatch_launch_ready _ _ _ _ _ _ _ _ Hret Hl) as [m0 Hs].
  rewrite (dispatch_ready _ _ _ _ _ _ _ Hs) in Hret.
  destruct (Z.ltb_spec 1 (mCount dc)) as [Hn|Hn]; simpl in Hret;
    [|injection Hret as <-; simpl in Hl; discriminate].
  destruct (isThreadable s && negb (mInForEach dc));
    [|injection Hret as <-; simpl in Hl; discriminate].
  unfold parallel_plan in Hret.
  rewrite !sliceSizeFor_no_wrap in Hret by lia.
  destruct (1 <? dimY m0) eqn:Hy;
    destruct (rsdLaunchThreads _ _ _); try discriminate;
    injection Hret as <-; simpl in Hl; injection Hl as <- <- <-;
    simpl; rewrite Hy; done.
Qed.

Lemma slice_size_formula_witness :
  sliceSizeFor 1000 8 = Some 31
  ∧ let out := Samples.outcome_of
                 (rsdScriptInvokeForEach (Samples.hal 2) Samples.threadable
                    None (Some Samples.grid4x3) None (Samples.round_robin 2 20)) in
    ∀ during fn mtls,
      launch out = Some (Threads during fn mtls) →
      mSliceSize mtls = 1 ∧ fn = by_wc_xy.
Proof.
  destruct slice_size_formula as [Hsize Hrun]. split.
  - rewrite (Hsize 1000 8) by (vm_compute; done). reflexivity.
  - intros out during fn mtls Hl.
    pose proof (Hrun (Samples.hal 2) Samples.threadable None
                  (Some Samples.grid4x3) None (Samples.round_robin 2 20)
                  out during fn mtls
                  ltac:(vm_compute; reflexivity)
                  ltac:(vm_compute; reflexivity) Hl) as H.
    vm_compute in Hl. injection Hl as <- <- <-. exact H.
Defined.

(** C7 as stated fails once [mCount * 4] wraps: with [2^30 + 1] workers
    the divisor is 4 and the slice size of a 1000-row buffer is 250, not
    [max 1 (1000 / (4 * (2^30 + 1))) = 1]; with [2^30] workers the divisor
    is 0. *)
Lemma slice_size_wraps :
  sliceSizeFor 1000 1073741825 = Some 250
  ∧ Z.max 1 (1000 `div` (1073741825 * 4)) = 1
  ∧ sliceSizeFor 1000 1073741824 = None.
Proof. vm_compute. done. Qed.

(** ** Slicing an axis *)

Section Slicing.

Variables axisStart axisEnd sliceSize : Z.
Hypothesis start_u32 : is_u32 axisStart.
Hypothesis end_u32 : is_u32 axisEnd.
Hypothesis size_pos : 1 ≤ sliceSize.
Hypothesis no_wrap : axisEnd + sliceSize ≤ UINT32_MOD.

Lemma claimSlice_inside i :
  0 ≤ i → sliceAt axisStart sliceSize i < axisEnd →
  claimSlice axisStart axisEnd sliceSize i
  = Some (sliceAt axisStart sliceSize i, Z.min (sliceAt axisStart sliceSize (i + 1)) axisEnd).
Proof using Type*.
  intros Hi Hlt. unfold claimSlice, sliceAt in *. unfold is_u32 in *.
  assert (0 ≤ i * sliceSize) by nia.
  rewrite (u32_small (i * sliceSize)) by (unfold is_u32; lia).
  rewrite (u32_small (axisStart + _)) by (unfold is_u32; lia).
  rewrite (u32_small (axisStart + _ + _)) by (unfold is_u32; lia).
  rewrite rsMin_min.
  destruct (Z.leb_spec (Z.min (axisStart + i * sliceSize + sliceSize) axisEnd)
                       (axisStart + i * sliceSize)); [lia|].
  do 2 f_equal. lia.
Qed.

Lemma claimSlice_past i :
  0 ≤ i → axisEnd ≤ sliceAt axisStart sliceSize i → sliceAt axisStart sliceSize i < UINT32_MOD →
  claimSlice axisStart axisEnd sliceSize i = None.
Proof using Type*.
  intros Hi Hge Hlt. unfold claimSlice, sliceAt in *. unfold is_u32 in *.
  assert (0 ≤ i * sliceSize) by nia.
  rewrite (u32_small (i * sliceSize)) by (unfold is_u32; lia).
  rewrite (u32_small (axisStart + _)) by (unfold is_u32; lia).
  rewrite rsMin_min.
  destruct (Z.leb_spec (Z.min (u32 (axisStart + i * sliceSize + sliceSize)) axisEnd)
                       (axisStart + i * sliceSize)); [done|lia].
Qed.

Lemma sliceCount_spec :
  0 ≤ (sliceCount axisStart axisEnd sliceSize)
  ∧ axisEnd ≤ sliceAt axisStart sliceSize (sliceCount axisStart axisEnd sliceSize)
  ∧ sliceAt axisStart sliceSize (sliceCount axisStart axisEnd sliceSize) < axisEnd + sliceSize ∨ (sliceCount axisStart axisEnd sliceSize) = 0
  ∧ axisEnd ≤ axisStart.
Proof using Type*.
  unfold sliceCount, sliceAt.
  destruct (Z.leb_spec axisEnd axisStart) as [Hle|Hlt]; [right; lia|left].
  pose proof (Z.div_mod (axisEnd - axisStart + sliceSize - 1) sliceSize ltac:(lia)) as Hdm.
  pose proof (Z.mod_pos_bound (axisEnd - axisStart + sliceSize - 1) sliceSize ltac:(lia)) as Hb.
  split_and!; [apply Z.div_pos; lia | nia | nia].
Qed.

Lemma sliceCount_inside i :
  0 ≤ i < (sliceCount axisStart axisEnd sliceSize) → sliceAt axisStart sliceSize i < axisEnd.
Proof using Type*.
  unfold sliceCount, sliceAt.
  destruct (Z.leb_spec axisEnd axisStart) as [Hle|Hlt]; [lia|].
  intros Hi.
  pose proof (Z.div_mod (axisEnd - axisStart + sliceSize - 1) sliceSize ltac:(lia)) as Hdm.
  pose proof (Z.mod_pos_bound (axisEnd - axisStart + sliceSize - 1) sliceSize ltac:(lia)) as Hb.
  nia.
Qed.

Lemma sliceCount_past i :
  (sliceCount axisStart axisEnd sliceSize) ≤ i → axisEnd ≤ sliceAt axisStart sliceSize i.
Proof using Type*.
  unfold sliceCount, sliceAt.
  destruct (Z.leb_spec axisEnd axisStart) as [Hle|Hlt]; [nia|].
  intros Hi.
  pose proof (Z.div_mod (axisEnd - axisStart + sliceSize - 1) sliceSize ltac:(lia)) as Hdm.
  pose proof (Z.mod_pos_bound (axisEnd - axisStart + sliceSize - 1) sliceSize ltac:(lia)) as Hb.
  nia.
Qed.

Lemma claimUntilEmpty_tiles fuel i :
  0 ≤ i → sliceAt axisStart sliceSize i < axisEnd + sliceSize → axisEnd - sliceAt axisStart sliceSize i < Z.of_nat fuel →
  tiles (Z.min (sliceAt axisStart sliceSize i) axisEnd) axisEnd
        (claimUntilEmpty fuel axisStart axisEnd sliceSize i).
Proof using Type*.
  revert i. induction fuel as [|fuel IH]; intros i Hi Hlo Hfuel.
  - simpl. apply tiles_done. lia.
  - simpl. destruct (Z_lt_le_dec (sliceAt axisStart sliceSize i) axisEnd) as [Hin|Hout].
    + rewrite claimSlice_inside by done.
      replace (Z.min (sliceAt axisStart sliceSize i) axisEnd) with (sliceAt axisStart sliceSize i) by lia.
      assert (sliceAt axisStart sliceSize (i + 1) = sliceAt axisStart sliceSize i + sliceSize) as Hnext
        by (unfold sliceAt; lia).
      apply tiles_next; [lia | lia |].
      apply IH; lia.
    + rewrite claimSlice_past by lia.
      apply tiles_done. lia.
Qed.

Lemma claimUntilEmpty_lookup fuel i (k : nat) r :
  0 ≤ i → sliceAt axisStart sliceSize i < axisEnd + sliceSize →
  claimUntilEmpty fuel axisStart axisEnd sliceSize i !! k = Some r →
  r = (sliceAt axisStart sliceSize (i + Z.of_nat k), Z.min (sliceAt axisStart sliceSize (i + Z.of_nat k + 1)) axisEnd).
Proof using Type*.
  revert i k. induction fuel as [|fuel IH]; intros i k Hi Hlo; [done|].
  simpl. destruct (Z_lt_le_dec (sliceAt axisStart sliceSize i) axisEnd) as [Hin|Hout].
  - rewrite claimSlice_inside by done.
    destruct k as [|k]; simpl.
    + intros [= <-]. by rewrite Z.add_0_r.
    + intros Hk. apply IH in Hk; [|lia|unfold sliceAt in *; lia].
      rewrite Hk. by replace (i + 1 + Z.of_nat k) with (i + Z.of_nat (S k)) by lia.
  - rewrite claimSlice_past by lia. done.
Qed.

Lemma claimUntilEmpty_stops fuel i :
  0 ≤ i → sliceAt axisStart sliceSize i < axisEnd + sliceSize → axisEnd - sliceAt axisStart sliceSize i < Z.of_nat fuel →
  claimSlice axisStart axisEnd sliceSize
    (i + Z.of_nat (length (claimUntilEmpty fuel axisStart axisEnd sliceSize i))) = None.
Proof using Type*.
  revert i. induction fuel as [|fuel IH]; intros i Hi Hlo Hfuel.
  - simpl. rewrite Z.add_0_r. apply claimSlice_past; lia.
  - simpl. destruct (Z_lt_le_dec (sliceAt axisStart sliceSize i) axisEnd) as [Hin|Hout].
    + rewrite (claimSlice_inside i) by done. simpl length.
      replace (i + Z.of_nat (S (length (claimUntilEmpty fuel axisStart axisEnd sliceSize (i + 1)))))
        with (i + 1 + Z.of_nat (length (claimUntilEmpty fuel axisStart axisEnd sliceSize (i + 1))))
        by lia.
      apply IH; unfold sliceAt in *; lia.
    + rewrite (claimSlice_past i) by lia. simpl. rewrite Z.add_0_r.
      apply claimSlice_past; lia.
Qed.

Lemma claimUntilEmpty_nothing fuel :
  axisEnd ≤ axisStart →
  claimUntilEmpty fuel axisStart axisEnd sliceSize 0 = []
  ∧ claimSlice axisStart axisEnd sliceSize 0 = None.
Proof using Type*.
  intros Hle.
  assert (claimSlice axisStart axisEnd sliceSize 0 = None) as Hc
    by (apply claimSlice_past; unfold sliceAt, is_u32 in *; lia).
  split; [|done]. destruct fuel; simpl; [done|]. by rewrite Hc.
Qed.

End Slicing.

Lemma tiles_bounds lo hi l r :
  tiles lo hi l → r ∈ l → lo ≤ r.1 ∧ r.1 < r.2 ∧ r.2 ≤ hi.
Proof.
  induction 1 as [|lo mid hi l Hlt Hle Ht IH]; intros Hin.
  - by apply elem_of_nil in Hin.
  - apply elem_of_cons in Hin as [->|Hin]; simpl; [lia|].
    specialize (IH Hin). lia.
Qed.

Lemma tiles_cover lo hi l z :
  tiles lo hi l → (∃ r, r ∈ l ∧ in_slice z r) ↔ lo ≤ z < hi.
Proof.
  induction 1 as [lo hi Hle|lo mid hi l Hlt Hle Ht IH].
  - split; [intros (r & Hin & _); by apply elem_of_nil in Hin | lia].
  - split.
    + intros (r & Hin & Hz). unfold in_slice in Hz.
      apply elem_of_cons in Hin as [->|Hin]; simpl in *; [lia|].
      pose proof (tiles_bounds _ _ _ _ Ht Hin). lia.
    + intros Hz. destruct (Z_lt_le_dec z mid) as [Hzm|Hzm].
      * exists (lo, mid). split; [left|unfold in_slice; simpl; lia].
      * destruct (proj2 IH ltac:(lia)) as (r & Hin & Hr).
        exists r. split; [by right|done].
Qed.

Lemma tiles_ordered lo hi l (i j : nat) r1 r2 :
  tiles lo hi l → (i < j)%nat → l !! i = Some r1 → l !! j = Some r2 →
  r1.2 ≤ r2.1.
Proof.
  intros Ht. revert i j. induction Ht as [|lo mid hi l Hlt Hle Ht IH];
    intros i j Hij H1 H2; [done|].
  destruct j as [|j]; [lia|]. simpl in H2.
  destruct i as [|i]; simpl in H1.
  - injection H1 as <-. simpl.
    apply list_elem_of_lookup_2 in H2.
    pose proof (tiles_bounds _ _ _ _ Ht H2). lia.
  - apply (IH i j); [lia|done|done].
Qed.

(** C3, as the code has it: when [axisEnd + sliceSize] does not exceed
    [2^32], so that no 32-bit sum wraps, the slices claimed with the
    counter values 0, 1, 2, ... up to the first empty one are slice [i] =
    [axisStart + i * sliceSize, min (axisStart + (i + 1) * sliceSize)
    axisEnd); each is non-empty, each starts where the previous one ends
    (so they are in increasing position and pairwise disjoint), and a
    position lies in one of them exactly when it lies in
    [axisStart, axisEnd).  The counter value after the last of them
    claims an empty slice. *)
Theorem slices_partition_axis (axisStart axisEnd sliceSize : Z) (fuel : nat) :
  is_u32 axisStart → is_u32 axisEnd → 1 ≤ sliceSize →
  axisEnd + sliceSize ≤ UINT32_MOD →
  axisEnd - axisStart < Z.of_nat fuel →
  let l := claimUntilEmpty fuel axisStart axisEnd sliceSize 0 in
  tiles axisStart axisEnd l
  ∧ (∀ (i : nat) r, l !! i = Some r →
       r = (axisStart + Z.of_nat i * sliceSize,
            Z.min (axisStart + (Z.of_nat i + 1) * sliceSize) axisEnd))
  ∧ (∀ z, (∃ r, r ∈ l ∧ in_slice z r) ↔ axisStart ≤ z < axisEnd)
  ∧ (∀ (i j : nat) r1 r2, (i < j)%nat → l !! i = Some r1 → l !! j = Some r2 →
       r1.1 < r1.2 ∧ r1.2 ≤ r2.1)
  ∧ claimSlice axisStart axisEnd sliceSize (Z.of_nat (length l)) = None.
Proof.
  intros Hs He Hsz Hw Hfuel l.
  destruct (Z_lt_le_dec axisStart axisEnd) as [Hlt|Hge].
  - assert (Hat0 : sliceAt axisStart sliceSize 0 = axisStart) by (unfold sliceAt; lia).
    assert (Hlo : sliceAt axisStart sliceSize 0 < axisEnd + sliceSize) by lia.
    assert (Ht : tiles axisStart axisEnd l).
    { pose proof (claimUntilEmpty_tiles axisStart axisEnd sliceSize Hs He Hsz Hw fuel 0) as H.
      rewrite Hat0 in H.
      replace (Z.min axisStart axisEnd) with axisStart in H by lia.
      apply H; lia. }
    split_and!.
    + exact Ht.
    + intros i r Hi.
      apply (claimUntilEmpty_lookup axisStart axisEnd sliceSize Hs He Hsz Hw) in Hi;
        [|lia|done].
      rewrite Hi. unfold sliceAt. by rewrite !Z.add_0_l.
    + intros z. by apply tiles_cover.
    + intros i j r1 r2 Hij H1 H2. split.
      * apply list_elem_of_lookup_2 in H1.
        pose proof (tiles_bounds _ _ _ _ Ht H1). lia.
      * by apply (tiles_ordered _ _ _ i j _ _ Ht).
    + pose proof (claimUntilEmpty_stops axisStart axisEnd sliceSize Hs He Hsz Hw fuel 0) as H.
      rewrite Hat0, Z.add_0_l in H. apply H; lia.
  - destruct (claimUntilEmpty_nothing axisStart axisEnd sliceSize Hs He Hsz Hw fuel Hge)
      as [Hnil Hnone].
    subst l. rewrite Hnil. split_and!.
    + by apply tiles_done.
    + intros i r Hi. done.
    + intros z. split; [intros (r & Hin & _); by apply elem_of_nil in Hin | lia].
    + intros i j r1 r2 _ H1. done.
    + exact Hnone.
Qed.

Lemma slices_partition_axis_witness :
  Forall (λ es, tiles 0 es.1 (claimUntilEmpty 1001 0 es.1 es.2 0))
         [(0, 1); (1, 1); (2, 1); (1000, 250); (1000, 125); (1000, 31)].
Proof.
  repeat apply Forall_cons_2; [..|apply Forall_nil_2];
    refine (proj1 (slices_partition_axis 0 _ _ 1001 _ _ _ _ _));
    vm_compute; try split; discriminate || reflexivity.
Defined.

(** C3 as stated fails when a 32-bit sum wraps: with [sliceSize = 2^29 - 1],
    the size a two-worker launch gives an axis of [2^32 - 1] rows, claim 8
    starts at [2^32 - 8], its end wraps below its start and it comes out
    empty; whatever the fuel, position [2^32 - 2] is in no slice. *)
Lemma slices_wrap_leaves_gap :
  ¬ (∀ (axisStart axisEnd sliceSize : Z) (fuel : nat),
       is_u32 axisStart → is_u32 axisEnd → 1 ≤ sliceSize →
       axisEnd - axisStart < Z.of_nat fuel →
       ∀ z, axisStart ≤ z < axisEnd →
            ∃ r, r ∈ claimUntilEmpty fuel axisStart axisEnd sliceSize 0
                 ∧ in_slice z r).
Proof.
  intros H.
  destruct (H 0 4294967295 536870911 (Z.to_nat 4294967296)
              ltac:(vm_compute; split; [discriminate|reflexivity])
              ltac:(vm_compute; split; [discriminate|reflexivity])
              ltac:(lia) ltac:(lia) 4294967294 ltac:(lia))
    as (r & Hin & Hz).
  assert (Hnine : ∃ n, Z.to_nat 4294967296 = (9 + n)%nat)
    by (exists (Z.to_nat 4294967287); lia).
  destruct Hnine as [n Hn]. rewrite Hn in Hin.
  vm_compute in Hin.
  unfold in_slice in Hz.
  repeat (apply elem_of_cons in Hin as [->|Hin]; [simpl in Hz; lia|]).
  by apply elem_of_nil in Hin.
Qed.

(** ** What the loops call *)

Lemma seqZ_to_nat lo len : seqZ lo len = seqZ lo (Z.of_nat (Z.to_nat len)).
Proof. unfold seqZ. by rewrite Nat2Z.id. Qed.

Lemma x_loop_calls mtls y z ar p :
  calls (x_loop mtls y z ar p) = calls p ++ row_calls mtls y z ar (p_in p) (p_out p).
Proof.
  unfold x_loop, for_range, row_calls.
  rewrite (seqZ_to_nat (xStart mtls)).
  generalize (Z.to_nat (xEnd mtls - xStart mtls)) as n.
  set (lo := xStart mtls).
  set (F := λ x, {| k_in := p_in p + (x - lo) * eStrideIn mtls;
                    k_out := p_out p + (x - lo) * eStrideOut mtls;
                    k_x := x; k_y := y; k_z := z; k_ar := ar |}).
  intros n.
  enough (H : let r := foldl (λ acc i, x_step mtls y z ar i acc) p (seqZ lo (Z.of_nat n)) in
              p_in r = p_in p + Z.of_nat n * eStrideIn mtls
              ∧ p_out r = p_out p + Z.of_nat n * eStrideOut mtls
              ∧ calls r = calls p ++ (F <$> seqZ lo (Z.of_nat n)))
    by (apply H).
  induction n as [|n IH].
  - simpl. rewrite app_nil_r. split_and!; [lia | lia | done].
  - rewrite seqZ_S, foldl_app. simpl.
    destruct IH as (Hin & Hout & Hc). split_and!; [lia | lia |].
    rewrite Hc, fmap_app, <- app_assoc. do 2 f_equal. simpl. unfold F.
    rewrite Hin, Hout. do 2 f_equal; lia.
Qed.

(** A loop whose body appends calls that depend on the index only. *)
Lemma for_range_calls (body : Z → Cursor → Cursor) (g : Z → list Invocation) :
  (∀ i p, calls (body i p) = calls p ++ g i) →
  ∀ lo hi p, calls (for_range lo hi body p) = calls p ++ (seqZ lo (hi - lo) ≫= g).
Proof.
  intros Hbody lo hi. unfold for_range.
  generalize (seqZ lo (hi - lo)) as l.
  induction l as [|i l IH]; intros p.
  - simpl. by rewrite app_nil_r.
  - cbn [foldl]. rewrite IH, Hbody, bind_cons, app_assoc. done.
Qed.

Lemma wc_xy_rows_calls mtls sStart sEnd p :
  calls (wc_xy_rows mtls sStart sEnd p)
  = calls p ++ (seqZ sStart (sEnd - sStart) ≫= xy_row_calls mtls).
Proof.
  unfold wc_xy_rows. apply for_range_calls.
  intros y q. unfold wc_xy_row. by rewrite x_loop_calls.
Qed.

(** The caller's loops visit array, then z, then y, then x, outermost
    first, and each call gets the row's pointers advanced by one element
    stride per step taken from [xStart]. *)
Lemma seq_loops_calls mtls :
  seq_loops mtls
  = seqZ (arrayStart mtls) (arrayEnd mtls - arrayStart mtls) ≫= λ ar,
    seqZ (zStart mtls) (zEnd mtls - zStart mtls) ≫= λ z,
    seqZ (yStart mtls) (yEnd mtls - yStart mtls) ≫= λ y,
    seq_row_calls mtls ar z y.
Proof.
  unfold seq_loops.
  rewrite (for_range_calls _ (λ ar,
             seqZ (zStart mtls) (zEnd mtls - zStart mtls) ≫= λ z,
             seqZ (yStart mtls) (yEnd mtls - yStart mtls) ≫= λ y,
             seq_row_calls mtls ar z y)); [done|].
  intros ar p.
  rewrite (for_range_calls _ (λ z,
             seqZ (yStart mtls) (yEnd mtls - yStart mtls) ≫= λ y,
             seq_row_calls mtls ar z y)); [done|].
  intros z q.
  rewrite (for_range_calls _ (seq_row_calls mtls ar z)); [done|].
  intros y r. unfold seq_row. by rewrite x_loop_calls.
Qed.

(** ** The worker pool under any schedule *)

Lemma pending_app ws1 ws2 : pending (ws1 ++ ws2) = pending ws1 ++ pending ws2.
Proof. apply bind_app. Qed.

Lemma pending_cons o ws : pending (o :: ws) = from_option id [] o ++ pending ws.
Proof. apply bind_cons. Qed.

Lemma finished_app ws1 ws2 : finished (ws1 ++ ws2) = (finished ws1 + finished ws2)%nat.
Proof. unfold finished. by rewrite filter_app, length_app. Qed.

Lemma finished_cons_None ws : finished (None :: ws) = S (finished ws).
Proof. unfold finished. by rewrite filter_cons_True. Qed.

Lemma finished_cons_Some l ws : finished (Some l :: ws) = finished ws.
Proof. unfold finished. by rewrite filter_cons_False. Qed.

Lemma finished_le ws : (finished ws ≤ length ws)%nat.
Proof. apply length_filter. Qed.

Lemma pending_replicate n : pending (replicate n (Some [])) = [].
Proof. induction n as [|n IH]; [done|]. cbn [replicate]. by rewrite pending_cons, IH. Qed.

Lemma finished_replicate n l : finished (replicate n (Some l)) = 0%nat.
Proof. induction n as [|n IH]; [done|]. cbn [replicate]. by rewrite finished_cons_Some. Qed.

Lemma claimed_succ body n :
  0 ≤ n → claimed body (n + 1) = claimed body n ++ slice_calls body n.
Proof.
  intros Hn. unfold claimed. rewrite seqZ_app by lia. rewrite bind_app.
  rewrite Z.add_0_l, (seqZ_cons n 1), (seqZ_nil _ (Z.pred 1)) by lia.
  by rewrite bind_singleton.
Qed.

Lemma drained_spec st :
  drained st = true ↔ Forall (λ o, o = None) (workers st).
Proof.
  unfold drained. rewrite <- Is_true_true, forallb_True.
  apply Forall_proper; [|done]. intros o. by rewrite bool_decide_spec.
Qed.

Lemma pending_all_None ws : Forall (λ o, o = None) ws → pending ws = [].
Proof. induction 1 as [|o ws -> _ IH]; [done|]. by rewrite pending_cons, IH. Qed.

Lemma finished_all_None ws : Forall (λ o, o = None) ws → finished ws = length ws.
Proof.
  induction 1 as [|o ws -> _ IH]; [done|].
  rewrite finished_cons_None, IH. done.
Qed.

Section Pool.

Variable body : Z → option (list Invocation).
Variable n : Z.
Variable W : nat.

(** The slices below [n] have calls to make, and the next [W] counter
    values draw an empty slice. *)
Hypothesis n_nonneg : 0 ≤ n.
Hypothesis below_n : ∀ i, 0 ≤ i < n → is_Some (body (u32 i)).
Hypothesis from_n : ∀ i, n ≤ i < n + Z.of_nat W → body (u32 i) = None.

Lemma pool_init_inv : pool_inv body n W (pool_init W).
Proof using Type*.
  split; simpl.
  - apply length_replicate.
  - done.
  - by rewrite pending_replicate.
  - rewrite finished_replicate. lia.
  - rewrite finished_replicate. lia.
Qed.

(** A worker that has not returned leaves room under the bound. *)
Lemma active_bound st w l :
  pool_inv body n W st → workers st !! w = Some (Some l) →
  mSliceNum st < n + Z.of_nat W.
Proof using Type*.
  intros [Hlen _ _ _ Hb] Hw.
  rewrite <- (take_drop_middle _ _ _ Hw) in Hb, Hlen.
  rewrite finished_app, finished_cons_Some in Hb.
  rewrite length_app in Hlen. simpl in Hlen.
  pose proof (finished_le (take w (workers st))).
  pose proof (finished_le (drop (S w) (workers st))).
  lia.
Qed.

Lemma worker_step_inv w st : pool_inv body n W st → pool_inv body n W (worker_step body w st).
Proof using Type*.
  intros Hinv. unfold worker_step.
  destruct (workers st !! w) as [[[|c rest]|]|] eqn:Hw; try done.
  - (* the worker draws the next counter value *)
    pose proof (active_bound _ _ _ Hinv Hw) as Hroom.
    destruct Hinv as [Hlen Hc Hp Hlo Hhi].
    assert (Hwlt : (w < length (workers st))%nat) by (by eapply lookup_lt_Some).
    split; simpl.
    + by rewrite length_insert.
    + lia.
    + rewrite claimed_succ by done.
      rewrite insert_take_drop by done.
      rewrite <- (take_drop_middle _ _ _ Hw) in Hp.
      rewrite pending_app, pending_cons in Hp |- *. simpl in Hp.
      rewrite <- Hp. unfold slice_calls.
      generalize (from_option id [] (body (u32 (mSliceNum st)))) as new.
      intros new. solve_Permutation.
    + intros Hfin.
      destruct (Z_lt_le_dec (mSliceNum st) n) as [Hlt|Hge]; [|lia].
      exfalso. rewrite insert_take_drop in Hfin by done.
      destruct (below_n (mSliceNum st) ltac:(lia)) as [l Hl].
      rewrite Hl, finished_app, finished_cons_Some in Hfin.
      rewrite <- (take_drop_middle _ _ _ Hw) in Hlo.
      rewrite finished_app, finished_cons_Some in Hlo.
      specialize (Hlo Hfin). lia.
    + rewrite insert_take_drop by done.
      rewrite <- (take_drop_middle _ _ _ Hw) in Hhi.
      rewrite finished_app, finished_cons_Some in Hhi.
      rewrite finished_app.
      destruct (Z_lt_le_dec (mSliceNum st) n) as [Hlt|Hge].
      * destruct (below_n (mSliceNum st) ltac:(lia)) as [l ->].
        rewrite finished_cons_Some. lia.
      * rewrite from_n by lia. rewrite finished_cons_None. lia.
  - (* the worker makes the next call of its slice *)
    destruct Hinv as [Hlen Hc Hp Hlo Hhi].
    assert (Hwlt : (w < length (workers st))%nat) by (by eapply lookup_lt_Some).
    rewrite <- (take_drop_middle _ _ _ Hw) in Hp, Hlo, Hhi.
    rewrite pending_app, pending_cons in Hp. simpl in Hp.
    rewrite finished_app, finished_cons_Some in Hlo, Hhi.
    split; simpl.
    + by rewrite length_insert.
    + done.
    + rewrite insert_take_drop by done.
      rewrite pending_app, pending_cons. simpl.
      rewrite <- Hp. solve_Permutation.
    + rewrite insert_take_drop by done.
      by rewrite finished_app, finished_cons_Some.
    + rewrite insert_take_drop by done.
      by rewrite finished_app, finished_cons_Some.
Qed.

Lemma pool_run_inv sched st : pool_inv body n W st → pool_inv body n W (pool_run body sched st).
Proof using Type*.
  revert st. induction sched as [|w sched IH]; intros st Hinv; [done|].
  apply IH. by apply worker_step_inv.
Qed.

Lemma claimed_past m :
  n ≤ m ≤ n + Z.of_nat W → claimed body m = claimed body n.
Proof using Type*.
  intros Hm. unfold claimed.
  replace m with (n + (m - n)) by lia.
  rewrite seqZ_app by lia. rewrite bind_app, Z.add_0_l.
  assert (seqZ n (m - n) ≫= slice_calls body = []) as ->; [|by rewrite app_nil_r].
  assert (Forall (λ i, slice_calls body i = []) (seqZ n (m - n))) as Hall.
  { apply Forall_seqZ. intros i Hi. unfold slice_calls. rewrite from_n by lia. done. }
  induction Hall as [|i l Hi _ IH]; [done|].
  by rewrite bind_cons, Hi, IH.
Qed.

(** Whatever the schedule, once every worker has returned the calls made
    are, up to their order, those of the slices below [n], each slice's
    calls once. *)
Lemma pool_drained_calls sched :
  (0 < W)%nat →
  drained (pool_run body sched (pool_init W)) = true →
  trace (pool_run body sched (pool_init W)) ≡ₚ claimed body n.
Proof using Type*.
  intros HW Hd.
  pose proof (pool_run_inv sched _ pool_init_inv) as [Hlen Hc Hp Hlo Hhi].
  apply drained_spec in Hd.
  rewrite (pending_all_None _ Hd), app_nil_r in Hp.
  rewrite (finished_all_None _ Hd), Hlen in Hlo, Hhi.
  rewrite Hp, (claimed_past (mSliceNum _)); [done|]. specialize (Hlo HW). lia.
Qed.

Lemma step_budget w l st :
  pool_inv body n W st → workers st !! w = Some (Some l) →
  (budget body n W (worker_step body w st) < budget body n W st)%nat.
Proof using Type*.
  intros Hinv Hw.
  pose proof (active_bound _ _ _ Hinv Hw) as Hroom.
  destruct Hinv as [Hlen Hc _ _ _].
  assert (Hwlt : (w < length (workers st))%nat) by (by eapply lookup_lt_Some).
  assert (Hsplit : pending (workers st)
                   = pending (take w (workers st)) ++ l
                     ++ pending (drop (S w) (workers st))).
  { rewrite <- (take_drop_middle _ _ _ Hw) at 1.
    by rewrite pending_app, pending_cons. }
  unfold worker_step, budget. rewrite Hw, Hsplit.
  destruct l as [|c rest]; simpl.
  - rewrite insert_take_drop by done.
    rewrite !pending_app, !pending_cons, !length_app. simpl.
    rewrite (seqZ_cons (mSliceNum st)) by lia.
    rewrite bind_cons, length_app.
    replace (Z.pred (n + Z.of_nat W - mSliceNum st))
      with (n + Z.of_nat W - (mSliceNum st + 1)) by lia.
    replace (Z.succ (mSliceNum st)) with (mSliceNum st + 1) by lia.
    change (from_option id [] (body (u32 (mSliceNum st))))
      with (slice_calls body (mSliceNum st)).
    lia.
  - rewrite insert_take_drop by done.
    rewrite !pending_app, !pending_cons, !length_app. simpl.
    rewrite length_app. lia.
Qed.

Lemma some_active (ws : list (option (list Invocation))) :
  forallb (λ o, bool_decide (o = None)) ws = false →
  ∃ w l, ws !! w = Some (Some l).
Proof.
  induction ws as [|[l|] ws IH]; simpl; [done| |].
  - intros _. by exists 0%nat, l.
  - intros H. destruct (IH H) as (w & l & Hw). by exists (S w), l.
Qed.

Lemma can_drain k st :
  pool_inv body n W st → (budget body n W st ≤ k)%nat →
  ∃ sched, drained (pool_run body sched st) = true.
Proof using Type*.
  revert st. induction k as [|k IH]; intros st Hinv Hk;
    (destruct (drained st) eqn:Hd; [by exists []|]);
    destruct (some_active _ Hd) as (w & l & Hw);
    pose proof (step_budget _ _ _ Hinv Hw) as Hlt; [lia|].
  destruct (IH (worker_step body w st)) as [sched Hs];
    [by apply worker_step_inv | lia |].
  by exists (w :: sched).
Qed.

(** Some schedule lets every worker return. *)
Lemma pool_can_drain :
  ∃ sched, drained (pool_run body sched (pool_init W)) = true.
Proof using Type*. eapply can_drain; [apply pool_init_inv | done]. Qed.

End Pool.

(** The launch returns under some schedule, and whenever it returns the
    calls made are those of the slices below [n], in some order. *)
Lemma launch_returns body n mCount :
  0 ≤ n → 1 ≤ mCount →
  (∀ i, 0 ≤ i < n → is_Some (body (u32 i))) →
  (∀ i, n ≤ i < n + mCount → body (u32 i) = None) →
  (∃ sched tr, rsdLaunchThreads mCount body sched = Some tr)
  ∧ (∀ sched tr, rsdLaunchThreads mCount body sched = Some tr →
       tr ≡ₚ claimed body n).
Proof.
  intros Hn HW Hlo Hhi.
  assert (Hhi' : ∀ i, n ≤ i < n + Z.of_nat (Z.to_nat mCount) → body (u32 i) = None)
    by (intros i Hi; apply Hhi; lia).
  unfold rsdLaunchThreads. split.
  - destruct (pool_can_drain body n (Z.to_nat mCount) Hn Hlo Hhi') as [sched Hd].
    exists sched. rewrite Hd. eauto.
  - intros sched tr.
    destruct (drained _) eqn:Hd; [|done]. intros [= <-].
    apply (pool_drained_calls body n (Z.to_nat mCount) Hn Hlo Hhi'); [lia|done].
Qed.

(** ** A launch over the slices of one axis *)

Section SlicedLaunch.

Variables axisStart axisEnd sliceSize mCount : Z.
Variable body : Z → option (list Invocation).
Variable slice_body : Z → Z → list Invocation.

Hypothesis start_u32 : is_u32 axisStart.
Hypothesis end_u32 : is_u32 axisEnd.
Hypothesis range_nonempty : axisStart < axisEnd.
Hypothesis size_pos : 1 ≤ sliceSize.
Hypothesis workers_pos : 1 ≤ mCount.
Hypothesis no_wrap : axisEnd + mCount * sliceSize ≤ UINT32_MOD.
Hypothesis body_claims : ∀ i,
  body i = match claimSlice axisStart axisEnd sliceSize i with
           | None => None
           | Some (sStart, sEnd) => Some (slice_body sStart sEnd)
           end.

Local Abbreviation n := (sliceCount axisStart axisEnd sliceSize).

Lemma sliced_fits : axisEnd + sliceSize ≤ UINT32_MOD.
Proof using Type*. nia. Qed.

Lemma sliced_count_bound : 1 ≤ n ∧ n ≤ axisEnd ∧ sliceAt axisStart sliceSize (n - 1) < axisEnd.
Proof using Type*.
  destruct (sliceCount_spec axisStart axisEnd sliceSize start_u32 end_u32 size_pos sliced_fits)
    as [(H0 & Hge & Hlt)|[_ Hle]]; [|lia].
  assert (1 ≤ sliceCount axisStart axisEnd sliceSize) as H1.
  { destruct (Z_lt_le_dec (sliceCount axisStart axisEnd sliceSize) 1); [|done].
    assert (sliceCount axisStart axisEnd sliceSize = 0) as H by lia.
    rewrite H in Hge. unfold sliceAt in Hge. lia. }
  pose proof (sliceCount_inside axisStart axisEnd sliceSize start_u32 end_u32
                size_pos sliced_fits (sliceCount axisStart axisEnd sliceSize - 1)
                ltac:(lia)) as Hin.
  split_and!; [done| |done].
  unfold sliceAt, is_u32 in *. nia.
Qed.

Lemma sliced_below i :
  0 ≤ i < n →
  body (u32 i)
  = Some (slice_body (sliceAt axisStart sliceSize i)
                     (Z.min (sliceAt axisStart sliceSize (i + 1)) axisEnd)).
Proof using Type*.
  intros Hi. destruct sliced_count_bound as (_ & Hn & _).
  rewrite u32_small by (unfold is_u32 in *; lia).
  rewrite body_claims.
  rewrite (claimSlice_inside axisStart axisEnd sliceSize start_u32 end_u32
             size_pos sliced_fits) by
    (try apply (sliceCount_inside axisStart axisEnd sliceSize start_u32 end_u32
                  size_pos sliced_fits); lia).
  done.
Qed.

Lemma sliced_from i :
  n ≤ i < n + mCount → body (u32 i) = None.
Proof using Type*.
  intros Hi. destruct sliced_count_bound as (H1 & Hn & Hlast).
  assert (i ≤ n - 1 + mCount - 1 + 1) as Hi' by lia.
  assert (sliceAt axisStart sliceSize i < UINT32_MOD) as Hat.
  { unfold sliceAt in *. unfold is_u32 in *. nia. }
  rewrite u32_small by (unfold is_u32 in *; nia).
  rewrite body_claims.
  rewrite (claimSlice_past axisStart axisEnd sliceSize start_u32 end_u32
             size_pos sliced_fits); [done|lia| |done].
  apply (sliceCount_past axisStart axisEnd sliceSize start_u32 end_u32
           size_pos sliced_fits). lia.
Qed.

Lemma sliced_claimed :
  claimed body n
  = seqZ 0 n ≫= λ i, slice_body (sliceAt axisStart sliceSize i)
                       (Z.min (sliceAt axisStart sliceSize (i + 1)) axisEnd).
Proof using Type*.
  unfold claimed. apply Forall_bind_ext, Forall_seqZ.
  intros i Hi. unfold slice_calls. by rewrite sliced_below by lia.
Qed.

(** The launch returns under some schedule; whenever it returns, its
    calls are those of the slices 0 .. n - 1, each slice's once, in some
    order. *)
Lemma sliced_launch :
  (∃ sched tr, rsdLaunchThreads mCount body sched = Some tr)
  ∧ (∀ sched tr, rsdLaunchThreads mCount body sched = Some tr →
       tr ≡ₚ seqZ 0 n ≫= λ i,
               slice_body (sliceAt axisStart sliceSize i)
                          (Z.min (sliceAt axisStart sliceSize (i + 1)) axisEnd)).
Proof using Type*.
  destruct sliced_count_bound as (H1 & _ & _).
  destruct (launch_returns body n mCount) as [Hex Hall];
    [lia | done | | exact sliced_from |].
  - intros i Hi. rewrite sliced_below by done. eauto.
  - split; [done|]. intros sched tr Htr. rewrite <- sliced_claimed. eauto.
Qed.

(** Consecutive slices laid end to end give the axis. *)
Lemma sliced_rows (g : Z → list Invocation) :
  (seqZ 0 n ≫= λ i,
     seqZ (sliceAt axisStart sliceSize i)
          (Z.min (sliceAt axisStart sliceSize (i + 1)) axisEnd
           - sliceAt axisStart sliceSize i) ≫= g)
  = seqZ axisStart (axisEnd - axisStart) ≫= g.
Proof using Type*.
  destruct sliced_count_bound as (H1 & _ & _).
  assert (Hk : ∀ k : nat, Z.of_nat k ≤ n →
            (seqZ 0 (Z.of_nat k) ≫= λ i,
               seqZ (sliceAt axisStart sliceSize i)
                    (Z.min (sliceAt axisStart sliceSize (i + 1)) axisEnd
                     - sliceAt axisStart sliceSize i) ≫= g)
            = seqZ axisStart
                (Z.min (sliceAt axisStart sliceSize (Z.of_nat k)) axisEnd - axisStart)
              ≫= g).
  { induction k as [|k IH]; intros Hle.
    - simpl. unfold sliceAt. rewrite seqZ_nil by lia. done.
    - rewrite seqZ_S, bind_app, bind_singleton, IH, Z.add_0_l by lia.
      pose proof (sliceCount_inside axisStart axisEnd sliceSize start_u32 end_u32
                    size_pos sliced_fits (Z.of_nat k) ltac:(lia)) as Hin.
      rewrite <- bind_app.
      replace (Z.min (sliceAt axisStart sliceSize (Z.of_nat k)) axisEnd)
        with (sliceAt axisStart sliceSize (Z.of_nat k)) by lia.
      replace (Z.of_nat (S k)) with (Z.of_nat k + 1) by lia.
      assert (axisStart ≤ sliceAt axisStart sliceSize (Z.of_nat k)
              ∧ sliceAt axisStart sliceSize (Z.of_nat k)
                < sliceAt axisStart sliceSize (Z.of_nat k + 1)) as [Ha Hb]
        by (unfold sliceAt; nia).
      f_equal.
      replace (Z.min (sliceAt axisStart sliceSize (Z.of_nat k + 1)) axisEnd - axisStart)
        with ((sliceAt axisStart sliceSize (Z.of_nat k) - axisStart)
              + (Z.min (sliceAt axisStart sliceSize (Z.of_nat k + 1)) axisEnd
                 - sliceAt axisStart sliceSize (Z.of_nat k))) by lia.
      rewrite seqZ_app by lia. do 2 f_equal. lia. }
  specialize (Hk (Z.to_nat n) ltac:(lia)).
  rewrite Z2Nat.id in Hk by lia. rewrite Hk.
  pose proof (sliceCount_past axisStart axisEnd sliceSize start_u32 end_u32
                size_pos sliced_fits n ltac:(lia)).
  by replace (Z.min (sliceAt axisStart sliceSize n) axisEnd) with axisEnd by lia.
Qed.

End SlicedLaunch.

(** ** Memory written by the kernel *)

Lemma write_bytes_outside a bs m q :
  q < a ∨ a + Z.of_nat (length bs) ≤ q →
  write_bytes a bs m !! q = m !! q.
Proof.
  revert a. induction bs as [|b bs IH]; intros a Hq; [done|].
  simpl in *. rewrite lookup_insert_ne by lia. apply IH. lia.
Qed.

Lemma write_bytes_inside a bs m q :
  a ≤ q < a + Z.of_nat (length bs) →
  write_bytes a bs m !! q = bs !! Z.to_nat (q - a).
Proof.
  revert a. induction bs as [|b bs IH]; intros a Hq; simpl in *; [lia|].
  destruct (decide (a = q)) as [->|Hne].
  - rewrite lookup_insert_eq. by replace (q - q) with 0 by lia.
  - rewrite lookup_insert_ne by done. rewrite IH by lia.
    replace (Z.to_nat (q - a)) with (S (Z.to_nat (q - (a + 1)))) by lia. done.
Qed.

Lemma write_bytes_comm a1 bs1 a2 bs2 m :
  a1 + Z.of_nat (length bs1) ≤ a2 ∨ a2 + Z.of_nat (length bs2) ≤ a1 →
  write_bytes a1 bs1 (write_bytes a2 bs2 m)
  = write_bytes a2 bs2 (write_bytes a1 bs1 m).
Proof.
  intros Hd. apply map_eq. intros q.
  destruct (decide (a1 ≤ q < a1 + Z.of_nat (length bs1))) as [H1|H1];
    destruct (decide (a2 ≤ q < a2 + Z.of_nat (length bs2))) as [H2|H2];
    try lia.
  - rewrite write_bytes_inside by done.
    rewrite (write_bytes_outside a2) by lia.
    by rewrite write_bytes_inside.
  - rewrite (write_bytes_outside a1) by lia.
    rewrite !(write_bytes_inside a2) by done. done.
  - rewrite !(write_bytes_outside a1), !(write_bytes_outside a2) by lia.
    by rewrite write_bytes_outside by lia.
Qed.

(** Actions that commute pairwise can be folded in any order. *)
Lemma foldl_commute_perm {A B} (act : A → B → A) (l1 l2 : list B) :
  l1 ≡ₚ l2 →
  (∀ x y, x ∈ l1 → y ∈ l1 → ∀ a, act (act a x) y = act (act a y) x) →
  ∀ a, foldl act a l1 = foldl act a l2.
Proof.
  induction 1 as [|x l1 l2 Hp IH|x y l|l1 l2 l3 Hp1 IH1 Hp2 IH2]; intros Hc a.
  - done.
  - simpl. apply IH. intros u v Hu Hv. apply Hc; by right.
  - simpl. f_equal. apply Hc; [left | right; left].
  - rewrite IH1 by done. apply IH2.
    intros u v Hu Hv. apply Hc; by rewrite Hp1.
Qed.

Lemma run_kernel_forget_in f tr m :
  run_kernel f (forget_in <$> tr) m = run_kernel f tr m.
Proof.
  unfold run_kernel. revert m. induction tr as [|c tr IH]; intros m; [done|].
  simpl. apply IH.
Qed.

(** ** The two worker functions on the pool *)

(** [wc_xy]: whenever the launch returns, every row of the Y range has
    been run once over the X range. *)
Lemma wc_xy_launch mtls mCount :
  is_u32 (yStart mtls) → is_u32 (yEnd mtls) → yStart mtls < yEnd mtls →
  1 ≤ mSliceSize mtls → 1 ≤ mCount →
  yEnd mtls + mCount * mSliceSize mtls ≤ UINT32_MOD →
  (∃ sched tr, rsdLaunchThreads mCount (wc_xy mtls) sched = Some tr)
  ∧ (∀ sched tr, rsdLaunchThreads mCount (wc_xy mtls) sched = Some tr →
       tr ≡ₚ seqZ (yStart mtls) (yEnd mtls - yStart mtls) ≫= xy_row_calls mtls).
Proof.
  intros Hs He Hne Hsz HW Hfit.
  assert (Hb : ∀ i, wc_xy mtls i
                    = match claimSlice (yStart mtls) (yEnd mtls) (mSliceSize mtls) i with
                      | None => None
                      | Some (sStart, sEnd) =>
                          Some (seqZ sStart (sEnd - sStart) ≫= xy_row_calls mtls)
                      end).
  { intros i. unfold wc_xy.
    destruct (claimSlice _ _ _ _) as [[s e]|]; [|done].
    by rewrite wc_xy_rows_calls. }
  pose proof (sliced_launch (yStart mtls) (yEnd mtls) (mSliceSize mtls) mCount
                (wc_xy mtls) (λ s e, seqZ s (e - s) ≫= xy_row_calls mtls)
                Hs He Hne Hsz HW Hfit Hb) as Hl.
  cbv beta in Hl.
  rewrite (sliced_rows (yStart mtls) (yEnd mtls) (mSliceSize mtls) mCount
             (wc_xy mtls) (λ s e, seqZ s (e - s) ≫= xy_row_calls mtls)
             Hs He Hne Hsz HW Hfit Hb (xy_row_calls mtls)) in Hl.
  exact Hl.
Qed.

(** [wc_x]: whenever the launch returns, the whole X range has been run
    once for every slice. *)
Lemma wc_x_launch mtls mCount :
  is_u32 (xStart mtls) → is_u32 (xEnd mtls) → xStart mtls < xEnd mtls →
  1 ≤ mSliceSize mtls → 1 ≤ mCount →
  xEnd mtls + mCount * mSliceSize mtls ≤ UINT32_MOD →
  (∃ sched tr, rsdLaunchThreads mCount (wc_x mtls) sched = Some tr)
  ∧ (∀ sched tr, rsdLaunchThreads mCount (wc_x mtls) sched = Some tr →
       tr ≡ₚ seqZ 0 (sliceCount (xStart mtls) (xEnd mtls) (mSliceSize mtls)) ≫= λ i,
               x_slice_calls mtls (sliceAt (xStart mtls) (mSliceSize mtls) i)).
Proof.
  intros Hs He Hne Hsz HW Hfit.
  apply (sliced_launch (xStart mtls) (xEnd mtls) (mSliceSize mtls) mCount
           (wc_x mtls) (λ s e, x_slice_calls mtls s)
           Hs He Hne Hsz HW Hfit).
  intros i. unfold wc_x.
  destruct (claimSlice _ _ _ _) as [[s e]|]; [|done].
  by rewrite x_loop_calls.
Qed.

(** The caller's own loops after a set-up: Z and the array index stay at
    0. *)
Lemma seq_loops_flat mtls :
  zStart mtls = 0 → zEnd mtls = 1 → arrayStart mtls = 0 → arrayEnd mtls = 1 →
  seq_loops mtls
  = seqZ (yStart mtls) (yEnd mtls - yStart mtls) ≫= seq_row_calls mtls 0 0.
Proof.
  intros Hz0 Hz1 Ha0 Ha1. rewrite seq_loops_calls, Hz0, Hz1, Ha0, Ha1.
  change (seqZ 0 (1 - 0)) with [0]. by rewrite !bind_singleton.
Qed.

(** ** The tuples a dispatch visits *)

Lemma fmap_bind_list {A B C} (f : B → C) (g : A → list B) (l : list A) :
  f <$> (l ≫= g) = l ≫= λ a, f <$> g a.
Proof.
  induction l as [|a l IH]; [done|].
  by rewrite !bind_cons, fmap_app, IH.
Qed.

Lemma row_calls_coords mtls y z ar pin pout :
  coords <$> row_calls mtls y z ar pin pout
  = (λ x, (x, y, z, ar)) <$> seqZ (xStart mtls) (xEnd mtls - xStart mtls).
Proof. unfold row_calls. rewrite <- list_fmap_compose. done. Qed.

(** The caller's own loops visit the domain in its order: every tuple
    once, array index outermost, then z, then y, then x. *)
Lemma seq_loops_coords mtls : coords <$> seq_loops mtls = domain mtls.
Proof.
  rewrite seq_loops_calls. unfold domain.
  rewrite fmap_bind_list. apply list_bind_ext; [|done]. intros ar.
  rewrite fmap_bind_list. apply list_bind_ext; [|done]. intros z.
  rewrite fmap_bind_list. apply list_bind_ext; [|done]. intros y.
  apply row_calls_coords.
Qed.

Lemma domain_NoDup mtls : NoDup (domain mtls).
Proof.
  unfold domain.
  apply NoDup_bind; [| |apply NoDup_seqZ].
  { intros ar1 ar2 t _ _ H1 H2.
    apply list_elem_of_bind in H1 as (z1 & H1 & _).
    apply list_elem_of_bind in H1 as (y1 & H1 & _).
    apply list_elem_of_fmap in H1 as (x1 & -> & _).
    apply list_elem_of_bind in H2 as (z2 & H2 & _).
    apply list_elem_of_bind in H2 as (y2 & H2 & _).
    apply list_elem_of_fmap in H2 as (x2 & [= _ _ _ ->] & _). done. }
  intros ar _. apply NoDup_bind; [| |apply NoDup_seqZ].
  { intros z1 z2 t _ _ H1 H2.
    apply list_elem_of_bind in H1 as (y1 & H1 & _).
    apply list_elem_of_fmap in H1 as (x1 & -> & _).
    apply list_elem_of_bind in H2 as (y2 & H2 & _).
    apply list_elem_of_fmap in H2 as (x2 & [= _ _ ->] & _). done. }
  intros z _. apply NoDup_bind; [| |apply NoDup_seqZ].
  { intros y1 y2 t _ _ H1 H2.
    apply list_elem_of_fmap in H1 as (x1 & -> & _).
    apply list_elem_of_fmap in H2 as (x2 & [= _ ->] & _). done. }
  intros y _. apply NoDup_fmap_2; [|apply NoDup_seqZ].
  intros x1 x2 [= ->]. done.
Qed.

Lemma domain_elem mtls x y z ar :
  (x, y, z, ar) ∈ domain mtls
  ↔ xStart mtls ≤ x < xEnd mtls ∧ yStart mtls ≤ y < yEnd mtls
    ∧ zStart mtls ≤ z < zEnd mtls ∧ arrayStart mtls ≤ ar < arrayEnd mtls.
Proof.
  unfold domain. split.
  - intros H.
    apply list_elem_of_bind in H as (ar' & H & Har%elem_of_seqZ).
    apply list_elem_of_bind in H as (z' & H & Hz%elem_of_seqZ).
    apply list_elem_of_bind in H as (y' & H & Hy%elem_of_seqZ).
    apply list_elem_of_fmap in H as (x' & [= -> -> -> ->] & Hx%elem_of_seqZ).
    lia.
  - intros (Hx & Hy & Hz & Har).
    apply list_elem_of_bind. exists ar. split; [|apply elem_of_seqZ; lia].
    apply list_elem_of_bind. exists z. split; [|apply elem_of_seqZ; lia].
    apply list_elem_of_bind. exists y. split; [|apply elem_of_seqZ; lia].
    apply list_elem_of_fmap. exists x. split; [done|apply elem_of_seqZ; lia].
Qed.

(** ** Dispatches on the pool *)

Lemma xy_row_calls_slice_size sz mtls y :
  xy_row_calls (set_mSliceSize sz mtls) y = xy_row_calls mtls y.
Proof. reflexivity. Qed.

(** A Y-sliced dispatch ([dimY > 1]) whose 32-bit sums do not wrap
    returns under some schedule, and whenever it returns it has run every
    row of the Y range once over the X range. *)
Lemma dispatch_xy dc s ain aout sc mtls :
  launch_setup ain aout sc = Ready mtls →
  1 < mCount dc → mCount dc * 4 < UINT32_MOD →
  isThreadable s = true → mInForEach dc = false →
  1 < dimY mtls →
  is_u32 (yStart mtls) → is_u32 (yEnd mtls) → yStart mtls < yEnd mtls →
  yEnd mtls + mCount dc * Z.max 1 (dimY mtls `div` (mCount dc * 4)) ≤ UINT32_MOD →
  (∃ sched out, rsdScriptInvokeForEach dc s ain aout sc sched = Returned out)
  ∧ (∀ sched out,
       rsdScriptInvokeForEach dc s ain aout sc sched = Returned out →
       invoked out ≡ₚ seqZ (yStart mtls) (yEnd mtls - yStart mtls) ≫= xy_row_calls mtls).
Proof.
  intros Hs Hn Hn4 Hth Hin Hy Hys Hye Hne Hfit.
  set (sz := Z.max 1 (dimY mtls `div` (mCount dc * 4))) in *.
  destruct (wc_xy_launch (set_mSliceSize sz mtls) (mCount dc))
    as [(sched & tr & Hex) Hall]; simpl; try done; try lia.
  assert (Hd : ∀ sched,
            rsdScriptInvokeForEach dc s ain aout sc sched
            = match rsdLaunchThreads (mCount dc) (wc_xy (set_mSliceSize sz mtls)) sched with
              | None => Blocked
              | Some tr =>
                  Returned {| error := None; invoked := tr;
                              hal_after := set_mInForEach false (set_mInForEach true dc);
                              launch := Some (Threads (set_mInForEach true dc) by_wc_xy
                                                (set_mSliceSize sz mtls)) |}
              end).
  { intros sched'. rewrite (dispatch_ready _ _ _ _ _ _ _ Hs), Hth, Hin.
    destruct (Z.ltb_spec 1 (mCount dc)); [|lia]. simpl.
    unfold parallel_plan.
    destruct (Z.ltb_spec 1 (dimY mtls)); [|lia].
    rewrite sliceSizeFor_no_wrap by lia. done. }
  split.
  - exists sched. rewrite Hd, Hex. eauto.
  - intros sched' out. rewrite Hd.
    destruct (rsdLaunchThreads _ _ sched') as [tr'|] eqn:Htr; [|done].
    intros [= <-]. simpl. apply (Hall _ _ Htr).
Qed.

(** C1, at the input where the code departs from it: a one-dimensional
    buffer of 8 elements, no clip, two workers.  The launch slices X with
    [wc_x] into 8 slices of one element, and each slice runs the whole X
    range: whatever the schedule, a dispatch that returns has visited each
    of the 8 tuples of the domain 8 times. *)
Theorem wc_x_revisits (sched : list nat) (out : Outcome) :
  rsdScriptInvokeForEach (Samples.hal 2) Samples.threadable
    None (Some Samples.flat8) None sched = Returned out →
  coords <$> invoked out
    ≡ₚ mjoin (replicate 8 ((λ x, (x, 0, 0, 0)) <$> seqZ 0 8))
  ∧ length (invoked out) = 64%nat
  ∧ ¬ NoDup (coords <$> invoked out).
Proof.
  intros Hret.
  destruct (launch_setup None (Some Samples.flat8) None) as [| |mtls] eqn:Hs;
    try discriminate Hs.
  rewrite (dispatch_ready _ _ _ _ _ _ _ Hs) in Hret.
  injection Hs as <-.
  simpl in Hret. unfold parallel_plan in Hret. simpl in Hret.
  match type of Hret with
  | context [rsdLaunchThreads 2 (wc_x ?m) sched] =>
      destruct (wc_x_launch m 2) as [_ Hall];
        try (vm_compute; ((split; congruence) || congruence));
        destruct (rsdLaunchThreads 2 (wc_x m) sched) as [tr|] eqn:Htr;
        [|discriminate Hret]; specialize (Hall _ _ Htr)
  end.
  injection Hret as <-. simpl.
  assert (Hc : coords <$> tr
               ≡ₚ mjoin (replicate 8 ((λ x, (x, 0, 0, 0)) <$> seqZ 0 8))).
  { rewrite Hall. vm_compute. reflexivity. }
  split_and!.
  - exact Hc.
  - rewrite <- (length_fmap coords), Hc. reflexivity.
  - rewrite Hc. intros Hnd.
    change (mjoin (replicate 8 ((λ x, (x, 0, 0, 0)) <$> seqZ 0 8)))
      with ((0, 0, 0, 0) :: tail (mjoin (replicate 8 ((λ x : Z, (x, 0, 0, 0)) <$> seqZ 0 8))))
      in Hnd.
    apply NoDup_cons in Hnd as [Hnotin _]. apply Hnotin.
    apply list_elem_of_lookup. exists 7%nat. reflexivity.
Qed.

Lemma wc_x_revisits_witness :
  let out := Samples.outcome_of
               (rsdScriptInvokeForEach (Samples.hal 2) Samples.threadable
                  None (Some Samples.flat8) None (Samples.round_robin 2 80)) in
  length (invoked out) = 64%nat ∧ ¬ NoDup (coords <$> invoked out).
Proof.
  intros out.
  destruct (wc_x_revisits (Samples.round_robin 2 80) out) as (_ & Hlen & Hdup);
    [vm_compute; reflexivity | exact (conj Hlen Hdup)].
Defined.

(** ** Ranges after the set-up *)

Lemma clipAxis_range dim sc cStart cEnd s e :
  clipAxis dim sc cStart cEnd = Some (s, e) →
  0 ≤ dim → (∀ c, sc = Some c → 0 ≤ cStart c) →
  0 ≤ s ∧ s < rsMax 1 e ∧ rsMax 1 e ≤ rsMax 1 dim.
Proof.
  intros Hc Hdim Hstart. unfold clipAxis in Hc. rewrite !rsMax_max.
  destruct sc as [c|]; [|injection Hc as <- <-; lia].
  destruct (cEnd c =? 0); [injection Hc as <- <-; lia|].
  unfold clamped in Hc. simpl in Hc. rewrite !rsMin_min in Hc.
  specialize (Hstart c eq_refl).
  destruct (Z.leb_spec (Z.min dim (cEnd c)) (Z.min dim (cStart c))); [done|].
  injection Hc as <- <-. lia.
Qed.

Lemma setup_ranges ain aout sc a mtls :
  bound_allocation ain aout = Some a →
  launch_setup ain aout sc = Ready mtls →
  0 ≤ getDimX a → 0 ≤ getDimY a → clip_u32 sc →
  (0 ≤ xStart mtls ∧ xStart mtls < xEnd mtls ∧ xEnd mtls ≤ rsMax 1 (getDimX a))
  ∧ (0 ≤ yStart mtls ∧ yStart mtls < yEnd mtls ∧ yEnd mtls ≤ rsMax 1 (getDimY a)).
Proof.
  intros Ha Hs Hdx Hdy Hclip.
  destruct (setup_ready_inv _ _ _ _ Hs)
    as (a' & xs & xe & ys & ye & Ha' & Hx & Hy & -> & -> & -> & -> & _).
  rewrite Ha in Ha'. injection Ha' as <-.
  split.
  - apply (clipAxis_range _ _ _ _ _ _ Hx Hdx).
    intros c Hc. destruct (Hclip c Hc) as ([? _] & _). done.
  - apply (clipAxis_range _ _ _ _ _ _ Hy Hdy).
    intros c Hc. destruct (Hclip c Hc) as (_ & _ & [? _] & _). done.
Qed.

(** ** Where the caller's loops and [wc_xy] write *)

Section Writes.

Variable mtls : MTLaunchStruct.
Variable f : Z → Z → Z → Z → list Byte.byte.

Hypothesis x_range : 0 ≤ xStart mtls ∧ xEnd mtls ≤ dimX mtls.
Hypothesis y_range : 0 ≤ yStart mtls.
Hypothesis stride_pos : 1 ≤ eStrideOut mtls.
Hypothesis fits : eStrideOut mtls * dimX mtls * yEnd mtls ≤ UINT32_MOD.
Hypothesis element_fits : ∀ x y z ar,
  Z.of_nat (length (f x y z ar)) ≤ eStrideOut mtls.

Lemma seq_row_placed y c :
  yStart mtls ≤ y < yEnd mtls →
  c ∈ forget_in <$> seq_row_calls mtls 0 0 y → placed mtls c.
Proof using Type*.
  intros Hy Hc.
  apply list_elem_of_fmap in Hc as (c' & -> & Hc').
  unfold seq_row_calls, row_calls in Hc'.
  apply list_elem_of_fmap in Hc' as (x & -> & Hx%elem_of_seqZ).
  exists x, y. split; [lia|]. split; [lia|].
  unfold forget_in. simpl. f_equal.
  unfold seq_offset.
  replace (dimX mtls * dimY mtls * dimZ mtls * 0 + dimX mtls * dimY mtls * 0
           + dimX mtls * y) with (dimX mtls * y) by lia.
  assert (0 ≤ dimX mtls * y ∧ dimX mtls * y < dimX mtls * yEnd mtls
          ∨ dimX mtls = 0) as Hd by nia.
  assert (is_u32 (dimX mtls * y)) as Hu1 by (unfold is_u32; nia).
  rewrite (u32_small _ Hu1).
  assert (is_u32 (eStrideOut mtls * (dimX mtls * y))) as Hu2 by (unfold is_u32; nia).
  rewrite (u32_small _ Hu2). lia.
Qed.

Lemma seq_calls_placed c :
  c ∈ forget_in <$> (seqZ (yStart mtls) (yEnd mtls - yStart mtls)
                     ≫= seq_row_calls mtls 0 0) →
  placed mtls c.
Proof using Type*.
  rewrite fmap_bind_list. intros Hc.
  apply list_elem_of_bind in Hc as (y & Hc & Hy%elem_of_seqZ).
  apply (seq_row_placed y); [lia|done].
Qed.

Lemma placed_commute c1 c2 m :
  placed mtls c1 → placed mtls c2 →
  kernel_write f c2 (kernel_write f c1 m) = kernel_write f c1 (kernel_write f c2 m).
Proof using Type*.
  intros (x1 & y1 & Hx1 & Hy1 & ->) (x2 & y2 & Hx2 & Hy2 & ->).
  destruct (decide (x1 = x2 ∧ y1 = y2)) as [[-> ->]|Hne]; [done|].
  unfold kernel_write. simpl. apply write_bytes_comm.
  pose proof (element_fits x1 y1 0 0) as Hl1.
  pose proof (element_fits x2 y2 0 0) as Hl2.
  set (i1 := dimX mtls * y1 + (x1 - xStart mtls)).
  set (i2 := dimX mtls * y2 + (x2 - xStart mtls)).
  assert (i1 < i2 ∨ i2 < i1) as [Hlt|Hlt].
  { subst i1 i2. destruct (Z.lt_trichotomy y1 y2) as [H|[H|H]]; [left| |right].
    - nia.
    - subst y2. lia.
    - nia. }
  - right. nia.
  - left. nia.
Qed.

(** With a row stride of [dimX] elements, [wc_xy] and the caller's loops
    give a row the same output pointers. *)
Lemma xy_row_as_seq y :
  yStrideOut mtls = dimX mtls * eStrideOut mtls →
  forget_in <$> xy_row_calls mtls y = forget_in <$> seq_row_calls mtls 0 0 y.
Proof.
  intros Hstride. unfold xy_row_calls, seq_row_calls, row_calls.
  rewrite <- !list_fmap_compose. apply list_fmap_ext. intros _ x _. simpl.
  unfold forget_in. simpl. do 3 f_equal.
  unfold seq_offset, u32. rewrite Hstride.
  replace (dimX mtls * dimY mtls * dimZ mtls * 0 + dimX mtls * dimY mtls * 0
           + dimX mtls * y) with (dimX mtls * y) by lia.
  rewrite Zmult_mod_idemp_r. f_equal. lia.
Qed.

End Writes.

(** ** Sequential against parallel *)

(** C2, as the code has it: take a kernel that stores a function of its
    coordinates, no longer than the output element, and a launch with an
    output buffer whose dimensions, those of the input buffer when one is
    given and of the output buffer otherwise, have at least one column
    and more than one row, so that it is sliced along Y; let the output
    elements have at least one byte, the output row stride be [dimX]
    elements and [dimX * dimY] elements occupy fewer than [2^31] bytes;
    take any clip.  The dispatch with one worker returns; the dispatch
    of a threadable script with [n] workers ([1 < n < 2^30], so 4 among
    them) returns under some schedule; and whenever it returns, under any
    schedule, it leaves the same bytes in memory as the one-worker
    dispatch. *)
Theorem sequential_parallel_agree (f : Z → Z → Z → Z → list Byte.byte)
    (s : Script) (ain : option Allocation) (ao a : Allocation)
    (sc : option RsScriptCall) (n : Z) (m0 : gmap Z Byte.byte) :
  bound_allocation ain (Some ao) = Some a →
  1 ≤ getDimX a → 1 < getDimY a → 1 ≤ getElementSizeBytes ao →
  stride ao = getDimX a * getElementSizeBytes ao →
  stride ao * getDimY a < 2147483648 →
  clip_u32 sc →
  (∀ x y z ar, Z.of_nat (length (f x y z ar)) ≤ getElementSizeBytes ao) →
  isThreadable s = true →
  1 < n < 1073741824 →
  ∃ out1,
    (∀ sched,
       rsdScriptInvokeForEach {| mCount := 1; mInForEach := false |} s
         ain (Some ao) sc sched = Returned out1)
    ∧ (∃ sched out,
         rsdScriptInvokeForEach {| mCount := n; mInForEach := false |} s
           ain (Some ao) sc sched = Returned out)
    ∧ (∀ sched out,
         rsdScriptInvokeForEach {| mCount := n; mInForEach := false |} s
           ain (Some ao) sc sched = Returned out →
         run_kernel f (invoked out) m0 = run_kernel f (invoked out1) m0).
Proof.
  intros Ha HdX HdY HE Hstride Hsize Hclip Hlen Hth Hn.
  destruct (launch_setup ain (Some ao) sc) as [| |mtls] eqn:Hs.
  - apply setup_null in Hs as [_ [=]].
  - eexists. unfold rsdScriptInvokeForEach. rewrite Hs.
    split_and!; [done | by eexists [], _ | by intros ? ? [= <-]].
  - destruct (setup_ranges _ _ _ _ _ Ha Hs ltac:(lia) ltac:(lia) Hclip)
      as ((Hx0 & Hx1 & Hx2) & (Hy0 & Hy1 & Hy2)).
    destruct (setup_ready_inv _ _ _ _ Hs)
      as (a' & xs & xe & ys & ye & Ha' & _ & _ & _ & _ & _ & _
          & Hz0 & Hz1 & Har0 & Har1 & HmX & HmY & _ & Hptr & HmE & HmS).
    rewrite Ha in Ha'. injection Ha' as <-. simpl in Hptr, HmE, HmS.
    rewrite rsMax_max in Hx2, Hy2.
    assert (Hbytes : eStrideOut mtls * dimX mtls * yEnd mtls < 2147483648).
    { rewrite HmE, HmX. rewrite Hstride in Hsize. nia. }
    exists {| error := None; invoked := seq_loops mtls;
              hal_after := {| mCount := 1; mInForEach := false |};
              launch := Some (Inline mtls) |}.
    assert (HyE : yEnd mtls < 2147483648) by nia.
    assert (HdYb : dimY mtls < 2147483648) by (rewrite Hstride in Hsize; nia).
    assert (Hq : n * (dimY mtls `div` (n * 4)) ≤ dimY mtls).
    { pose proof (Z.mul_div_le (dimY mtls) (n * 4) ltac:(lia)). nia. }
    destruct (dispatch_xy {| mCount := n; mInForEach := false |} s ain (Some ao) sc mtls)
      as [Hex Hall]; simpl;
      try first [ done
                | unfold is_u32; change UINT32_MOD with 4294967296; nia ].
    split_and!.
    + intros sched. by rewrite (dispatch_ready _ _ _ _ _ _ _ Hs).
    + exact Hex.
    + intros sched out Hret. simpl.
      specialize (Hall _ _ Hret).
      rewrite <- (run_kernel_forget_in f (invoked out)),
              <- (run_kernel_forget_in f (seq_loops mtls)).
      rewrite (seq_loops_flat mtls Hz0 Hz1 Har0 Har1).
      assert (Hperm : forget_in <$> (seqZ (yStart mtls) (yEnd mtls - yStart mtls)
                                     ≫= seq_row_calls mtls 0 0)
                      ≡ₚ forget_in <$> invoked out).
      { rewrite Hall, !fmap_bind_list.
        assert ((seqZ (yStart mtls) (yEnd mtls - yStart mtls)
                 ≫= λ y, forget_in <$> xy_row_calls mtls y)
                = (seqZ (yStart mtls) (yEnd mtls - yStart mtls)
                   ≫= λ y, forget_in <$> seq_row_calls mtls 0 0 y)) as ->; [|done].
        apply list_bind_ext; [|done].
        intros y. apply xy_row_as_seq. rewrite HmS, HmX, HmE. done. }
      symmetry. unfold run_kernel.
      apply (foldl_commute_perm (λ acc c, kernel_write f c acc) _ _ Hperm).
      intros c1 c2 Hc1 Hc2 m.
      assert (Hfit : eStrideOut mtls * dimX mtls * yEnd mtls ≤ UINT32_MOD)
        by (change UINT32_MOD with 4294967296; lia).
      assert (Hel : ∀ x y z ar, Z.of_nat (length (f x y z ar)) ≤ eStrideOut mtls)
        by (intros; rewrite HmE; apply Hlen).
      assert (Hxr : 0 ≤ xStart mtls ∧ xEnd mtls ≤ dimX mtls) by lia.
      assert (HEp : 1 ≤ eStrideOut mtls) by lia.
      apply (placed_commute mtls f Hxr Hy0 HEp Hfit Hel);
        by apply (seq_calls_placed mtls f Hxr Hy0 HEp Hfit Hel).
Qed.

Lemma sequential_parallel_agree_witness :
  ∃ out1,
    (∀ sched,
       rsdScriptInvokeForEach {| mCount := 1; mInForEach := false |}
         Samples.threadable (Some Samples.grid4x3) (Some Samples.grid4x3)
         (Some (Samples.clip 1 3 0 2)) sched = Returned out1)
    ∧ (∃ sched out,
         rsdScriptInvokeForEach {| mCount := 4; mInForEach := false |}
           Samples.threadable (Some Samples.grid4x3) (Some Samples.grid4x3)
           (Some (Samples.clip 1 3 0 2)) sched = Returned out)
    ∧ (∀ sched out,
         rsdScriptInvokeForEach {| mCount := 4; mInForEach := false |}
           Samples.threadable (Some Samples.grid4x3) (Some Samples.grid4x3)
           (Some (Samples.clip 1 3 0 2)) sched = Returned out →
         run_kernel Samples.tag (invoked out) ∅
         = run_kernel Samples.tag (invoked out1) ∅).
Proof.
  apply (sequential_parallel_agree Samples.tag Samples.threadable
           (Some Samples.grid4x3) Samples.grid4x3 Samples.grid4x3
           (Some (Samples.clip 1 3 0 2)) 4 ∅).
  - reflexivity.
  - simpl; lia.
  - simpl; lia.
  - simpl; lia.
  - reflexivity.
  - simpl; lia.
  - intros c [= <-]. vm_compute. repeat split; congruence.
  - intros x y z ar. unfold Samples.tag.
    destruct (Byte.of_N _); simpl; lia.
  - reflexivity.
  - lia.
Defined.

(** C2 as stated fails when rows are padded: for two rows of two bytes
    with a row stride of four, the caller's loops put row 1 at byte offset
    2 and [wc_xy] puts it at byte offset 4. *)
Lemma padded_rows_differ :
  ¬ (∀ (f : Z → Z → Z → Z → list Byte.byte) (s : Script) (ao : Allocation)
       (sched : list nat) (out1 out4 : Outcome) (m0 : gmap Z Byte.byte),
       isThreadable s = true →
       rsdScriptInvokeForEach {| mCount := 1; mInForEach := false |} s
         None (Some ao) None sched = Returned out1 →
       rsdScriptInvokeForEach {| mCount := 4; mInForEach := false |} s
         None (Some ao) None sched = Returned out4 →
       run_kernel f (invoked out4) m0 = run_kernel f (invoked out1) m0).
Proof.
  intros H.
  specialize (H Samples.tag Samples.threadable Samples.padded2x2
                (Samples.round_robin 4 10)
                (Samples.outcome_of
                   (rsdScriptInvokeForEach {| mCount := 1; mInForEach := false |}
                      Samples.threadable None (Some Samples.padded2x2) None
                      (Samples.round_robin 4 10)))
                (Samples.outcome_of
                   (rsdScriptInvokeForEach {| mCount := 4; mInForEach := false |}
                      Samples.threadable None (Some Samples.padded2x2) None
                      (Samples.round_robin 4 10)))
                ∅ eq_refl
                ltac:(vm_compute; reflexivity) ltac:(vm_compute; reflexivity)).
  apply (f_equal (λ m, m !! 1002)) in H.
  vm_compute in H. discriminate H.
Qed.

(** ** Addresses in the caller's own loops *)

(** Each call of the caller's loops gets the row's offset, computed in
    32 bits from the full dimensions, times the element stride, plus one
    element stride per step taken from [xStart]; the row stride is not
    read. *)
Lemma seq_loops_address mtls c :
  c ∈ seq_loops mtls →
  k_out c = ptrOut mtls
            + u32 (eStrideOut mtls * seq_offset mtls (k_ar c) (k_z c) (k_y c))
            + (k_x c - xStart mtls) * eStrideOut mtls.
Proof.
  rewrite seq_loops_calls. intros H.
  apply list_elem_of_bind in H as (ar & H & _).
  apply list_elem_of_bind in H as (z & H & _).
  apply list_elem_of_bind in H as (y & H & _).
  unfold seq_row_calls, row_calls in H.
  apply list_elem_of_fmap in H as (x & -> & _). done.
Qed.

(** When X is not clipped at its start and nothing wraps, that is the
    flattened offset [((ar * dimZ + z) * dimY + y) * dimX + x] times the
    element stride. *)
Lemma seq_loops_flat_offset mtls c :
  c ∈ seq_loops mtls →
  xStart mtls = 0 →
  0 ≤ eStrideOut mtls → 0 ≤ dimX mtls → 0 ≤ dimY mtls → 0 ≤ dimZ mtls →
  0 ≤ arrayStart mtls → 0 ≤ zStart mtls → 0 ≤ yStart mtls →
  (1 + eStrideOut mtls)
  * (1 + ((arrayEnd mtls * dimZ mtls + zEnd mtls) * dimY mtls + yEnd mtls) * dimX mtls)
    ≤ UINT32_MOD →
  k_out c = ptrOut mtls
            + eStrideOut mtls
              * (((k_ar c * dimZ mtls + k_z c) * dimY mtls + k_y c) * dimX mtls + k_x c).
Proof.
  intros Hc Hx0 HE HdX HdY HdZ Har Hz Hy Hfit.
  rewrite (seq_loops_address _ _ Hc), Hx0.
  rewrite seq_loops_calls in Hc.
  apply list_elem_of_bind in Hc as (ar & Hc & Har'%elem_of_seqZ).
  apply list_elem_of_bind in Hc as (z & Hc & Hz'%elem_of_seqZ).
  apply list_elem_of_bind in Hc as (y & Hc & Hy'%elem_of_seqZ).
  unfold seq_row_calls, row_calls in Hc.
  apply list_elem_of_fmap in Hc as (x & -> & _). simpl.
  unfold seq_offset.
  set (flat := dimX mtls * dimY mtls * dimZ mtls * ar
               + dimX mtls * dimY mtls * z + dimX mtls * y).
  assert (Hflat : flat = ((ar * dimZ mtls + z) * dimY mtls + y) * dimX mtls)
    by (subst flat; lia).
  assert (Hbound : 0 ≤ flat
                   ∧ flat ≤ ((arrayEnd mtls * dimZ mtls + zEnd mtls) * dimY mtls
                             + yEnd mtls) * dimX mtls).
  { rewrite Hflat. split.
    - repeat (apply Z.mul_nonneg_nonneg || apply Z.add_nonneg_nonneg); lia.
    - apply Z.mul_le_mono_nonneg_r; [lia|].
      apply Z.add_le_mono; [|lia].
      apply Z.mul_le_mono_nonneg_r; [lia|].
      apply Z.add_le_mono; [|lia].
      apply Z.mul_le_mono_nonneg_r; lia. }
  set (top := ((arrayEnd mtls * dimZ mtls + zEnd mtls) * dimY mtls
               + yEnd mtls) * dimX mtls) in *.
  assert (0 ≤ top) by lia.
  rewrite (u32_small flat) by (unfold is_u32; nia).
  rewrite (u32_small (_ * flat)) by (unfold is_u32; nia).
  rewrite <- Hflat. lia.
Qed.

(** C9, at the input where the code departs from it: a one-dimensional
    buffer of 8 four-byte elements at address 1000, clipped to X in
    [2, 4), one worker.  The caller's loops call the kernel at x = 2 and
    x = 3, in that order, with the output pointers 1000 and 1004: the
    row's pointer is not advanced to [xStart].  The flattened offset of
    the claim puts x = 2 at 1000 + 4 * 2 = 1008. *)
Theorem sequential_clip_misplaces_x :
  ∃ out mtls,
    rsdScriptInvokeForEach (Samples.hal 1) Samples.threadable
      None (Some Samples.flat8) (Some (Samples.clip 2 4 0 0)) [] = Returned out
    ∧ launch out = Some (Inline mtls)
    ∧ (λ c, (coords c, k_out c)) <$> invoked out
      = [((2, 0, 0, 0), 1000); ((3, 0, 0, 0), 1004)]
    ∧ ptrOut mtls
      + eStrideOut mtls * (((0 * dimZ mtls + 0) * dimY mtls + 0) * dimX mtls + 2)
      = 1008.
Proof. eexists _, _. split_and!; reflexivity. Qed.

(** ** Coverage by the paths that do follow the domain *)

Lemma xy_rows_coords mtls :
  zStart mtls = 0 → zEnd mtls = 1 → arrayStart mtls = 0 → arrayEnd mtls = 1 →
  coords <$> (seqZ (yStart mtls) (yEnd mtls - yStart mtls) ≫= xy_row_calls mtls)
  = domain mtls.
Proof.
  intros Hz0 Hz1 Ha0 Ha1. unfold domain. rewrite Hz0, Hz1, Ha0, Ha1.
  change (seqZ 0 (1 - 0)) with [0]. rewrite !bind_singleton.
  rewrite fmap_bind_list. apply list_bind_ext; [|done].
  intros y. apply row_calls_coords.
Qed.

(** A dispatch that runs the caller's own loops visits the tuples of the
    domain in order, each once. *)
Lemma sequential_visits_domain dc s ain aout sc sched mtls :
  launch_setup ain aout sc = Ready mtls →
  (1 <? mCount dc) && isThreadable s && negb (mInForEach dc) = false →
  ∃ out,
    rsdScriptInvokeForEach dc s ain aout sc sched = Returned out
    ∧ coords <$> invoked out = domain mtls
    ∧ NoDup (coords <$> invoked out).
Proof.
  intros Hs Hc. rewrite (dispatch_ready _ _ _ _ _ _ _ Hs), Hc.
  eexists. split; [done|]. simpl. rewrite seq_loops_coords.
  split; [done|apply domain_NoDup].
Qed.

(** A Y-sliced dispatch whose sums do not wrap visits the tuples of the
    domain, each once, in an order that depends on the schedule. *)
Lemma parallel_xy_visits_domain dc s ain aout sc mtls sched out :
  launch_setup ain aout sc = Ready mtls →
  1 < mCount dc → mCount dc * 4 < UINT32_MOD →
  isThreadable s = true → mInForEach dc = false →
  1 < dimY mtls →
  is_u32 (yStart mtls) → is_u32 (yEnd mtls) → yStart mtls < yEnd mtls →
  yEnd mtls + mCount dc * Z.max 1 (dimY mtls `div` (mCount dc * 4)) ≤ UINT32_MOD →
  rsdScriptInvokeForEach dc s ain aout sc sched = Returned out →
  coords <$> invoked out ≡ₚ domain mtls ∧ NoDup (coords <$> invoked out).
Proof.
  intros Hs Hn Hn4 Hth Hin Hy Hys Hye Hne Hfit Hret.
  destruct (dispatch_xy dc s ain aout sc mtls Hs Hn Hn4 Hth Hin Hy Hys Hye Hne Hfit)
    as [_ Hall].
  specialize (Hall _ _ Hret).
  destruct (setup_ready_inv _ _ _ _ Hs)
    as (a' & xs & xe & ys & ye & _ & _ & _ & _ & _ & _ & _
        & Hz0 & Hz1 & Har0 & Har1 & _).
  assert (Hc : coords <$> invoked out ≡ₚ domain mtls).
  { rewrite Hall. by rewrite xy_rows_coords. }
  split; [done|]. rewrite Hc. apply domain_NoDup.
Qed.

(** * Further properties of the dispatcher *)

(** ** What a dispatch leaves behind and what it ignores *)

(** X1: a dispatch that returns leaves the driver's context, worker
    count and in-forEach flag, exactly as it found it, whichever way it
    ran. *)
Theorem dispatch_restores_context (dc : RsdHal) (s : Script)
    (ain aout : option Allocation) (sc : option RsScriptCall)
    (sched : list nat) (out : Outcome) :
  rsdScriptInvokeForEach dc s ain aout sc sched = Returned out →
  hal_after out = dc.
Proof.
  unfold rsdScriptInvokeForEach.
  destruct (launch_setup ain aout sc) as [| |mtls]; try (by intros [= <-]).
  destruct (parallel_chosen dc s) eqn:Hp; [|by intros [= <-]].
  apply parallel_chosen_spec in Hp as (_ & _ & Hin).
  destruct (parallel_plan _ _) as [[fn m']|]; [|done].
  destruct (rsdLaunchThreads _ _ _); [|done].
  intros [= <-]. simpl. destruct dc as [n b]. simpl in *. by subst b.
Qed.

Lemma dispatch_restores_context_witness :
  hal_after
    (Samples.outcome_of
       (rsdScriptInvokeForEach (Samples.hal 2) Samples.threadable
          None (Some Samples.grid4x3) None (Samples.round_robin 2 20)))
  = Samples.hal 2.
Proof.
  apply (dispatch_restores_context (Samples.hal 2) Samples.threadable
           None (Some Samples.grid4x3) None (Samples.round_robin 2 20)).
  vm_compute. reflexivity.
Defined.

(** X2: when an input allocation is given, the output allocation's
    dimensions are never consulted: with any two outputs the set-up ends
    the same way, and when it is ready the dimensions and the iteration
    domain are the input's. *)
Theorem input_dimensions_win (ai : Allocation) (ao1 ao2 : option Allocation)
    (sc : option RsScriptCall) :
  match launch_setup (Some ai) ao1 sc, launch_setup (Some ai) ao2 sc with
  | Ready m1, Ready m2 =>
      domain m1 = domain m2
      ∧ dimX m1 = getDimX ai ∧ dimY m1 = getDimY ai ∧ dimZ m1 = getDimZ ai
      ∧ dimX m2 = getDimX ai ∧ dimY m2 = getDimY ai ∧ dimZ m2 = getDimZ ai
  | EmptyRange, EmptyRange => True
  | _, _ => False
  end.
Proof.
  unfold launch_setup. simpl.
  destruct (clipAxis (getDimX ai) sc sc_xStart sc_xEnd) as [[xs xe]|]; [|done].
  destruct (clipAxis (getDimY ai) sc sc_yStart sc_yEnd) as [[ys ye]|]; [|done].
  done.
Qed.

(** ** Every call of a dispatch *)

Lemma row_calls_elem m y z ar pin pout c :
  c ∈ row_calls m y z ar pin pout
  ↔ ∃ x, xStart m ≤ x < xEnd m
         ∧ c = {| k_in := pin + (x - xStart m) * eStrideIn m;
                  k_out := pout + (x - xStart m) * eStrideOut m;
                  k_x := x; k_y := y; k_z := z; k_ar := ar |}.
Proof.
  unfold row_calls. rewrite list_elem_of_fmap. split.
  - intros (x & -> & Hx%elem_of_seqZ). exists x. split; [lia|done].
  - intros (x & Hx & ->). exists x. split; [done|]. apply elem_of_seqZ. lia.
Qed.

Lemma claimSlice_bounds axisStart axisEnd sliceSize slice sStart sEnd :
  claimSlice axisStart axisEnd sliceSize slice = Some (sStart, sEnd) →
  0 ≤ sStart ∧ sStart < sEnd ∧ sEnd ≤ axisEnd.
Proof.
  unfold claimSlice. cbv zeta. rewrite rsMin_min.
  pose proof (u32_range (axisStart + u32 (slice * sliceSize))) as [? _].
  case_match eqn:Hle; [done|]. intros [= <- <-]. lia.
Qed.

Lemma wc_xy_dispatched m i l :
  wc_xy m i = Some l → Forall (dispatched m) l.
Proof.
  unfold wc_xy.
  destruct (claimSlice _ _ _ _) as [[s e]|] eqn:Hc; [|done].
  intros [= <-]. apply claimSlice_bounds in Hc as (H0 & Hlt & Hle).
  rewrite wc_xy_rows_calls. simpl. apply Forall_forall. intros c Hin.
  apply list_elem_of_bind in Hin as (y & Hin & Hy%elem_of_seqZ).
  apply row_calls_elem in Hin as (x & Hx & ->).
  unfold dispatched. simpl. split_and!; try done; try lia.
  - exists (yStrideIn m), y. split; [by left|done].
  - exists (yStrideOut m), y. split; [by left|done].
Qed.

Lemma wc_x_dispatched m i l :
  0 < yEnd m →
  wc_x m i = Some l → Forall (dispatched m) l.
Proof.
  intros Hy. unfold wc_x.
  destruct (claimSlice _ _ _ _) as [[s e]|] eqn:Hc; [|done].
  intros [= <-]. rewrite x_loop_calls. simpl.
  apply Forall_forall. intros c Hin.
  apply row_calls_elem in Hin as (x & Hx & ->).
  unfold dispatched. simpl. split_and!; try done; try lia.
  - exists (eStrideIn m), s. split; [by right|done].
  - exists (eStrideOut m), s. split; [by right|done].
Qed.

Lemma seq_loops_dispatched m :
  zStart m = 0 → zEnd m = 1 → arrayStart m = 0 → arrayEnd m = 1 →
  Forall (dispatched m) (seq_loops m).
Proof.
  intros Hz0 Hz1 Ha0 Ha1. rewrite (seq_loops_flat m Hz0 Hz1 Ha0 Ha1).
  apply Forall_forall. intros c Hin.
  apply list_elem_of_bind in Hin as (y & Hin & Hy%elem_of_seqZ).
  apply row_calls_elem in Hin as (x & Hx & ->).
  unfold dispatched. simpl. split_and!; try done; try lia.
  - exists (eStrideIn m), (seq_offset m 0 0 y). split; [by right|done].
  - exists (eStrideOut m), (seq_offset m 0 0 y). split; [by right|done].
Qed.

(** A property of every call the worker function can make holds of every
    call made on the pool, whatever the schedule. *)
Lemma pool_run_Forall (P : Invocation → Prop) body sched st :
  (∀ i l, body i = Some l → Forall P l) →
  Forall P (trace st) →
  Forall (λ o, ∀ l, o = Some l → Forall P l) (workers st) →
  Forall P (trace (pool_run body sched st)).
Proof.
  intros Hbody. revert st.
  induction sched as [|w sched IH]; intros st Ht Hw; [done|].
  simpl. apply IH; unfold worker_step;
    destruct (workers st !! w) as [[[|c rest]|]|] eqn:Hl; simpl; try done.
  - rewrite Forall_app. split; [done|].
    apply Forall_singleton.
    eapply Forall_lookup_1 in Hw; [|done].
    specialize (Hw _ eq_refl). by apply Forall_cons_1 in Hw as [? _].
  - apply Forall_insert; [done|]. intros l Hl'. eauto.
  - apply Forall_insert; [done|]. intros l [= <-].
    eapply Forall_lookup_1 in Hw; [|done].
    specialize (Hw _ eq_refl). by apply Forall_cons_1 in Hw as [_ ?].
Qed.

Lemma launch_Forall (P : Invocation → Prop) n body sched tr :
  (∀ i l, body i = Some l → Forall P l) →
  rsdLaunchThreads n body sched = Some tr → Forall P tr.
Proof.
  intros Hbody. unfold rsdLaunchThreads.
  destruct (drained _); [|done]. intros [= <-].
  apply pool_run_Forall; [done|done|].
  simpl. apply Forall_replicate. intros l [= <-]. done.
Qed.

Lemma setup_ready_pointers ain aout sc mtls :
  launch_setup ain aout sc = Ready mtls →
  ptrIn mtls = from_option mallocPtr 0 ain
  ∧ eStrideIn mtls = from_option getElementSizeBytes 0 ain
  ∧ yStrideIn mtls = from_option stride 0 ain
  ∧ ptrOut mtls = from_option mallocPtr 0 aout
  ∧ eStrideOut mtls = from_option getElementSizeBytes 0 aout
  ∧ yStrideOut mtls = from_option stride 0 aout.
Proof.
  unfold launch_setup.
  destruct (bound_allocation ain aout) as [a|]; [|done].
  destruct (clipAxis (getDimX a) sc sc_xStart sc_xEnd) as [[xs xe]|]; [|done].
  destruct (clipAxis (getDimY a) sc sc_yStart sc_yEnd) as [[ys ye]|]; [|done].
  intros [= <-]. done.
Qed.

(** Every call of a dispatch that returns has the common shape, on every
    path and under every schedule. *)
Lemma dispatch_dispatched dc s ain aout sc sched out mtls :
  launch_setup ain aout sc = Ready mtls →
  rsdScriptInvokeForEach dc s ain aout sc sched = Returned out →
  Forall (dispatched mtls) (invoked out).
Proof.
  intros Hs Hret.
  destruct (setup_ready_inv _ _ _ _ Hs)
    as (a & xs & xe & ys & ye & _ & _ & _ & _ & _ & _ & Hye
        & Hz0 & Hz1 & Ha0 & Ha1 & _).
  assert (0 < yEnd mtls) by (rewrite Hye, rsMax_max; lia).
  unfold rsdScriptInvokeForEach in Hret. rewrite Hs in Hret.
  destruct (parallel_chosen dc s).
  - unfold parallel_plan in Hret.
    destruct (1 <? dimY mtls);
      destruct (sliceSizeFor _ _) as [sz|]; try done; simpl in Hret;
      destruct (rsdLaunchThreads _ _ _) as [tr|] eqn:Htr; try done;
      injection Hret as <-; simpl;
      apply (launch_Forall (dispatched mtls) _ _ _ _) in Htr; try done.
    + intros i l Hl. by apply (wc_xy_dispatched _ _ _ Hl).
    + intros i l Hl. by apply (wc_x_dispatched (set_mSliceSize sz mtls) _ _ H Hl).
  - injection Hret as <-. simpl. by apply seq_loops_dispatched.
Qed.

(** X3: without an input allocation every kernel call gets a null input
    pointer, and without an output allocation a null output pointer, on
    every path and under every schedule. *)
Theorem absent_buffer_null_pointer (dc : RsdHal) (s : Script)
    (ain aout : option Allocation) (sc : option RsScriptCall)
    (sched : list nat) (out : Outcome) :
  rsdScriptInvokeForEach dc s ain aout sc sched = Returned out →
  (ain = None → Forall (λ c, k_in c = 0) (invoked out))
  ∧ (aout = None → Forall (λ c, k_out c = 0) (invoked out)).
Proof.
  intros Hret.
  destruct (launch_setup ain aout sc) as [| |mtls] eqn:Hs.
  - unfold rsdScriptInvokeForEach in Hret. rewrite Hs in Hret.
    injection Hret as <-. simpl. done.
  - unfold rsdScriptInvokeForEach in Hret. rewrite Hs in Hret.
    injection Hret as <-. simpl. done.
  - pose proof (dispatch_dispatched _ _ _ _ _ _ _ _ Hs Hret) as Hall.
    destruct (setup_ready_pointers _ _ _ _ Hs)
      as (HpI & HeI & HyI & HpO & HeO & HyO).
    split; intros ->; simpl in *;
      eapply Forall_impl; try exact Hall;
      intros c (_ & _ & _ & _ & (a & b & Ha & Hin) & (a' & b' & Ha' & Hout)).
    + rewrite Hin, HpI, HeI. rewrite HyI, HeI in Ha.
      assert (a = 0) as -> by (by destruct Ha).
      rewrite Z.mul_0_l. change (u32 0) with 0. simpl. lia.
    + rewrite Hout, HpO, HeO. rewrite HyO, HeO in Ha'.
      assert (a' = 0) as -> by (by destruct Ha').
      rewrite Z.mul_0_l. change (u32 0) with 0. simpl. lia.
Qed.

Lemma absent_buffer_null_pointer_witness :
  Forall (λ c, k_in c = 0)
    (invoked
       (Samples.outcome_of
          (rsdScriptInvokeForEach (Samples.hal 2) Samples.threadable
             None (Some Samples.grid4x3) None (Samples.round_robin 2 20)))).
Proof.
  refine (proj1 (absent_buffer_null_pointer (Samples.hal 2) Samples.threadable
                   None (Some Samples.grid4x3) None (Samples.round_robin 2 20)
                   _ _) eq_refl).
  vm_compute. reflexivity.
Defined.

(** X4: a dispatch never calls the kernel outside the bound buffer: for
    dimensions and clip fields that are 32-bit unsigned values, every
    call has [0 <= x < max 1 dimX], [0 <= y < max 1 dimY], [z = 0] and
    array index 0, on every path and under every schedule. *)
Theorem calls_stay_in_buffer (dc : RsdHal) (s : Script)
    (ain aout : option Allocation) (a : Allocation)
    (sc : option RsScriptCall) (sched : list nat) (out : Outcome) :
  bound_allocation ain aout = Some a →
  0 ≤ getDimX a → 0 ≤ getDimY a → clip_u32 sc →
  rsdScriptInvokeForEach dc s ain aout sc sched = Returned out →
  Forall (λ c, 0 ≤ k_x c < rsMax 1 (getDimX a)
               ∧ 0 ≤ k_y c < rsMax 1 (getDimY a)
               ∧ k_z c = 0 ∧ k_ar c = 0) (invoked out).
Proof.
  intros Ha HdX HdY Hclip Hret.
  destruct (launch_setup ain aout sc) as [| |mtls] eqn:Hs.
  - unfold rsdScriptInvokeForEach in Hret. rewrite Hs in Hret.
    injection Hret as <-. simpl. done.
  - unfold rsdScriptInvokeForEach in Hret. rewrite Hs in Hret.
    injection Hret as <-. simpl. done.
  - pose proof (dispatch_dispatched _ _ _ _ _ _ _ _ Hs Hret) as Hall.
    destruct (setup_ranges _ _ _ _ _ Ha Hs HdX HdY Hclip)
      as ((Hx0 & Hx1 & Hx2) & (Hy0 & Hy1 & Hy2)).
    eapply Forall_impl; [exact Hall|].
    intros c (Hz & Har & Hx & Hy & _). lia.
Qed.

Lemma calls_stay_in_buffer_witness :
  Forall (λ c, 0 ≤ k_x c < rsMax 1 4 ∧ 0 ≤ k_y c < rsMax 1 3
               ∧ k_z c = 0 ∧ k_ar c = 0)
    (invoked
       (Samples.outcome_of
          (rsdScriptInvokeForEach (Samples.hal 2) Samples.threadable
             None (Some Samples.grid4x3) (Some (Samples.clip 1 3 0 2))
             (Samples.round_robin 2 20)))).
Proof.
  apply (calls_stay_in_buffer (Samples.hal 2) Samples.threadable
           None (Some Samples.grid4x3) Samples.grid4x3
           (Some (Samples.clip 1 3 0 2)) (Samples.round_robin 2 20)).
  - reflexivity.
  - simpl. lia.
  - simpl. lia.
  - intros c [= <-]. vm_compute. repeat split; congruence.
  - vm_compute. reflexivity.
Defined.

(** ** Launches sliced along X *)

Lemma bind_const_replicate {A B} (l : list A) (d : list B) :
  l ≫= (λ _, d) = mjoin (replicate (length l) d).
Proof.
  induction l as [|a l IH]; [done|].
  rewrite bind_cons, IH. done.
Qed.

(** With a single row, plane and array index the domain is the X range. *)
Lemma domain_row mtls :
  yStart mtls = 0 → yEnd mtls = 1 →
  zStart mtls = 0 → zEnd mtls = 1 → arrayStart mtls = 0 → arrayEnd mtls = 1 →
  domain mtls = (λ x, (x, 0, 0, 0)) <$> seqZ (xStart mtls) (xEnd mtls - xStart mtls).
Proof.
  intros Hy0 Hy1 Hz0 Hz1 Ha0 Ha1. unfold domain.
  rewrite Hy0, Hy1, Hz0, Hz1, Ha0, Ha1.
  change (seqZ 0 (1 - 0)) with [0]. by rewrite !bind_singleton.
Qed.

(** A set-up for a buffer of at most one row has the single row 0. *)
Lemma setup_single_row ain aout sc mtls :
  launch_setup ain aout sc = Ready mtls →
  dimY mtls ≤ 1 → 0 ≤ yStart mtls →
  yStart mtls = 0 ∧ yEnd mtls = 1.
Proof.
  intros Hs Hd H0.
  destruct (setup_ready_inv _ _ _ _ Hs)
    as (a & xs & xe & ys & ye & _ & _ & Hy & _ & _ & Hys & Hye & _ & _ & _ & _
        & _ & HdY & _).
  rewrite Hys in H0. rewrite Hys, Hye, rsMax_max. rewrite HdY in Hd.
  unfold clipAxis in Hy. destruct sc as [c|]; [|injection Hy as <- <-; lia].
  destruct (sc_yEnd c =? 0); [injection Hy as <- <-; lia|].
  unfold clamped in Hy. simpl in Hy. rewrite !rsMin_min in Hy.
  destruct (Z.leb_spec (Z.min (getDimY a) (sc_yEnd c))
                       (Z.min (getDimY a) (sc_yStart c))); [done|].
  injection Hy as <- <-. lia.
Qed.

(** An X-sliced dispatch ([dimY <= 1]) whose 32-bit sums do not wrap
    returns under some schedule, and whenever it returns it has run the
    whole X range once for every slice. *)
Lemma dispatch_x dc s ain aout sc mtls :
  launch_setup ain aout sc = Ready mtls →
  1 < mCount dc → mCount dc * 4 < UINT32_MOD →
  isThreadable s = true → mInForEach dc = false →
  dimY mtls ≤ 1 →
  is_u32 (xStart mtls) → is_u32 (xEnd mtls) → xStart mtls < xEnd mtls →
  xEnd mtls + mCount dc * Z.max 1 (dimX mtls `div` (mCount dc * 4)) ≤ UINT32_MOD →
  (∃ sched out, rsdScriptInvokeForEach dc s ain aout sc sched = Returned out)
  ∧ (∀ sched out,
       rsdScriptInvokeForEach dc s ain aout sc sched = Returned out →
       invoked out
       ≡ₚ seqZ 0 (sliceCount (xStart mtls) (xEnd mtls)
                    (Z.max 1 (dimX mtls `div` (mCount dc * 4)))) ≫= λ i,
            x_slice_calls mtls
              (sliceAt (xStart mtls) (Z.max 1 (dimX mtls `div` (mCount dc * 4))) i)).
Proof.
  intros Hs Hn Hn4 Hth Hin Hy Hxs Hxe Hne Hfit.
  set (sz := Z.max 1 (dimX mtls `div` (mCount dc * 4))) in *.
  destruct (wc_x_launch (set_mSliceSize sz mtls) (mCount dc))
    as [(sched & tr & Hex) Hall]; simpl; try done; try lia.
  assert (Hd : ∀ sched,
            rsdScriptInvokeForEach dc s ain aout sc sched
            = match rsdLaunchThreads (mCount dc) (wc_x (set_mSliceSize sz mtls)) sched with
              | None => Blocked
              | Some tr =>
                  Returned {| error := None; invoked := tr;
                              hal_after := set_mInForEach false (set_mInForEach true dc);
                              launch := Some (Threads (set_mInForEach true dc) by_wc_x
                                                (set_mSliceSize sz mtls)) |}
              end).
  { intros sched'. rewrite (dispatch_ready _ _ _ _ _ _ _ Hs), Hth, Hin.
    destruct (Z.ltb_spec 1 (mCount dc)); [|lia]. simpl.
    unfold parallel_plan.
    destruct (Z.ltb_spec 1 (dimY mtls)); [lia|].
    rewrite sliceSizeFor_no_wrap by lia. done. }
  split.
  - exists sched. rewrite Hd, Hex. eauto.
  - intros sched' out. rewrite Hd.
    destruct (rsdLaunchThreads _ _ sched') as [tr'|] eqn:Htr; [|done].
    intros [= <-]. simpl. apply (Hall _ _ Htr).
Qed.

Lemma sliceCount_one axisStart axisEnd sliceSize :
  1 ≤ sliceSize → axisStart < axisEnd →
  1 ≤ sliceCount axisStart axisEnd sliceSize
  ∧ (sliceCount axisStart axisEnd sliceSize = 1 ↔ axisEnd - axisStart ≤ sliceSize).
Proof.
  intros Hsz Hlt. unfold sliceCount.
  destruct (Z.leb_spec axisEnd axisStart); [lia|].
  pose proof (Z.div_mod (axisEnd - axisStart + sliceSize - 1) sliceSize ltac:(lia)) as Hdm.
  pose proof (Z.mod_pos_bound (axisEnd - axisStart + sliceSize - 1) sliceSize ltac:(lia)).
  split; [nia|]. split; intros; nia.
Qed.

(** X5: the X-sliced parallel path in general.  For a buffer of at most
    one row, more than one worker and no 32-bit wrap-around, a dispatch
    returns under some schedule, and whenever it returns it has visited
    the whole domain once per slice of the X range: no tuple is visited
    twice exactly when the X range fits in one slice. *)
Theorem x_sliced_once_per_slice (dc : RsdHal) (s : Script)
    (ain aout : option Allocation) (sc : option RsScriptCall)
    (mtls : MTLaunchStruct) :
  launch_setup ain aout sc = Ready mtls →
  1 < mCount dc → mCount dc * 4 < UINT32_MOD →
  isThreadable s = true → mInForEach dc = false →
  dimY mtls ≤ 1 → 0 ≤ yStart mtls →
  is_u32 (xStart mtls) → is_u32 (xEnd mtls) → xStart mtls < xEnd mtls →
  xEnd mtls + mCount dc * Z.max 1 (dimX mtls `div` (mCount dc * 4)) ≤ UINT32_MOD →
  (∃ sched out, rsdScriptInvokeForEach dc s ain aout sc sched = Returned out)
  ∧ (∀ sched out,
       rsdScriptInvokeForEach dc s ain aout sc sched = Returned out →
       coords <$> invoked out
       ≡ₚ mjoin (replicate
                   (Z.to_nat (sliceCount (xStart mtls) (xEnd mtls)
                                (Z.max 1 (dimX mtls `div` (mCount dc * 4)))))
                   (domain mtls))
       ∧ (NoDup (coords <$> invoked out)
          ↔ xEnd mtls - xStart mtls ≤ Z.max 1 (dimX mtls `div` (mCount dc * 4)))).
Proof.
  intros Hs Hn Hn4 Hth Hin Hy Hy0 Hxs Hxe Hne Hfit.
  destruct (dispatch_x dc s ain aout sc mtls Hs Hn Hn4 Hth Hin Hy Hxs Hxe Hne Hfit)
    as [Hex Hall].
  split; [exact Hex|]. intros sched out Hret. specialize (Hall _ _ Hret).
  set (sz := Z.max 1 (dimX mtls `div` (mCount dc * 4))) in *.
  set (N := sliceCount (xStart mtls) (xEnd mtls) sz) in *.
  destruct (setup_single_row _ _ _ _ Hs Hy Hy0) as [Hys Hye].
  destruct (setup_ready_inv _ _ _ _ Hs)
    as (a & xs & xe & ys & ye & _ & _ & _ & _ & _ & _ & _
        & Hz0 & Hz1 & Ha0 & Ha1 & _).
  pose proof (domain_row mtls Hys Hye Hz0 Hz1 Ha0 Ha1) as Hdom.
  assert (Hc : coords <$> invoked out ≡ₚ mjoin (replicate (Z.to_nat N) (domain mtls))).
  { rewrite Hall, fmap_bind_list.
    rewrite <- (length_seqZ 0 N), <- bind_const_replicate.
    apply reflexive_eq. apply list_bind_ext; [|done].
    intros i. unfold x_slice_calls. by rewrite row_calls_coords, Hdom. }
  split; [exact Hc|].
  destruct (sliceCount_one (xStart mtls) (xEnd mtls) sz ltac:(lia) Hne) as [HN1 HNone].
  fold N in HN1, HNone. rewrite <- HNone, Hc.
  split.
  - intros Hnd. destruct (decide (N = 1)) as [|Hne1]; [done|]. exfalso.
    destruct (Z.to_nat N) as [|[|k]] eqn:Hk; [lia|lia|].
    simpl in Hnd. apply NoDup_app in Hnd as (_ & Hdis & _).
    apply (Hdis (xStart mtls, 0, 0, 0)).
    + rewrite Hdom. apply list_elem_of_fmap. exists (xStart mtls).
      split; [done|]. apply elem_of_seqZ. lia.
    + apply elem_of_app. left.
      rewrite Hdom. apply list_elem_of_fmap. exists (xStart mtls).
      split; [done|]. apply elem_of_seqZ. lia.
  - intros ->. simpl. rewrite app_nil_r. apply domain_NoDup.
Qed.

Lemma x_sliced_once_per_slice_witness :
  ∃ mtls,
    launch_setup None (Some Samples.flat8) (Some (Samples.clip 2 3 0 0)) = Ready mtls
    ∧ ∀ sched out,
        rsdScriptInvokeForEach (Samples.hal 2) Samples.threadable
          None (Some Samples.flat8) (Some (Samples.clip 2 3 0 0)) sched = Returned out →
        coords <$> invoked out
        ≡ₚ mjoin (replicate
                    (Z.to_nat (sliceCount (xStart mtls) (xEnd mtls)
                                 (Z.max 1 (dimX mtls `div` (mCount (Samples.hal 2) * 4)))))
                    (domain mtls))
        ∧ (NoDup (coords <$> invoked out)
           ↔ xEnd mtls - xStart mtls
             ≤ Z.max 1 (dimX mtls `div` (mCount (Samples.hal 2) * 4))).
Proof.
  eexists. split; [reflexivity|].
  refine (proj2 (x_sliced_once_per_slice (Samples.hal 2) Samples.threadable
                   None (Some Samples.flat8) (Some (Samples.clip 2 3 0 0)) _
                   eq_refl _ _ _ _ _ _ _ _ _ _));
    vm_compute; try reflexivity; try (split; congruence); congruence.
Defined.

(** * Script globals *)

Lemma elem_at_Some {A} (l : list A) i x :
  elem_at l i = Some x ↔ 0 ≤ i ∧ l !! Z.to_nat i = Some x.
Proof.
  unfold elem_at. destruct (Z.ltb_spec i 0); split; try done.
  - intros [? _]. lia.
  - intros [_ ?]. done.
Qed.

Lemma elem_at_in_range {A} (l : list A) i :
  0 ≤ i < Z.of_nat (length l) → is_Some (elem_at l i).
Proof.
  intros Hi. unfold elem_at. destruct (Z.ltb_spec i 0); [lia|].
  apply lookup_lt_is_Some. lia.
Qed.

(** ** Looking an allocation up by its pointer *)

Lemma find_bound_spec d ptr (k : nat) : ∀ lo,
  0 ≤ lo → lo + Z.of_nat k ≤ Z.of_nat (length (mBoundAllocs d)) →
  match find_bound (Some d) (seqZ lo (Z.of_nat k)) ptr with
  | Some (Some a) =>
      mallocPtr a = ptr
      ∧ ∃ ct, lo ≤ ct < lo + Z.of_nat k
              ∧ elem_at (mBoundAllocs d) ct = Some (Some a)
              ∧ ∀ j a', lo ≤ j < ct →
                        elem_at (mBoundAllocs d) j = Some (Some a') →
                        mallocPtr a' ≠ ptr
  | Some None =>
      ∀ ct a, lo ≤ ct < lo + Z.of_nat k →
              elem_at (mBoundAllocs d) ct = Some (Some a) → mallocPtr a ≠ ptr
  | None => False
  end.
Proof.
  induction k as [|k IH]; intros lo Hlo Hlen.
  - simpl. intros ct a Hct. lia.
  - rewrite (seqZ_cons lo) by lia.
    replace (Z.pred (Z.of_nat (S k))) with (Z.of_nat k) by lia.
    cbn [find_bound]. simpl.
    destruct (elem_at_in_range (mBoundAllocs d) lo ltac:(lia)) as [oa Hoa].
    rewrite Hoa. simpl.
    specialize (IH (Z.succ lo) ltac:(lia) ltac:(lia)).
    destruct oa as [al|].
    + destruct (Z.eqb_spec (mallocPtr al) ptr) as [Heq|Hne].
      * split; [done|]. exists lo. split; [lia|]. split; [done|]. intros; lia.
      * destruct (find_bound _ _ _) as [[a|]|]; [| |done].
        -- destruct IH as (Hp & ct & Hct & Hel & Hfirst).
           split; [done|]. exists ct. split; [lia|]. split; [done|].
           intros j a' Hj Hel'. destruct (decide (j = lo)) as [->|].
           ++ rewrite Hoa in Hel'. by injection Hel' as <-.
           ++ apply (Hfirst j a'); [lia|done].
        -- intros ct a Hct Hel. destruct (decide (ct = lo)) as [->|].
           ++ rewrite Hoa in Hel. by injection Hel as <-.
           ++ apply (IH ct a); [lia|done].
    + destruct (find_bound _ _ _) as [[a|]|]; [| |done].
      * destruct IH as (Hp & ct & Hct & Hel & Hfirst).
        split; [done|]. exists ct. split; [lia|]. split; [done|].
        intros j a' Hj Hel'. destruct (decide (j = lo)) as [->|].
        -- rewrite Hoa in Hel'. done.
        -- apply (Hfirst j a'); [lia|done].
      * intros ct a Hct Hel. destruct (decide (ct = lo)) as [->|].
        -- rewrite Hoa in Hel. done.
        -- apply (IH ct a); [lia|done].
Qed.

(** X6: looking an allocation up by pointer.  When the bound-allocation
    array covers the exported variables, the lookup is defined; a
    result that is not [NULL] is the allocation of the first slot whose
    allocation has that data pointer, and the pointer is not [NULL]; the
    result is [NULL] only for a [NULL] pointer or when no slot's
    allocation has that data pointer. *)
Theorem lookup_first_match (script : ScriptHal) (d : DrvScript) (ptr : Z) :
  drv script = Some d →
  exportedVariableCount script ≤ Z.of_nat (length (mBoundAllocs d)) →
  match rsdScriptGetAllocationForPointer script ptr with
  | Some (Some a) =>
      ptr ≠ 0 ∧ mallocPtr a = ptr
      ∧ ∃ ct, 0 ≤ ct < exportedVariableCount script
              ∧ elem_at (mBoundAllocs d) ct = Some (Some a)
              ∧ ∀ j a', 0 ≤ j < ct →
                        elem_at (mBoundAllocs d) j = Some (Some a') →
                        mallocPtr a' ≠ ptr
  | Some None =>
      ptr = 0
      ∨ ∀ ct a, 0 ≤ ct < exportedVariableCount script →
                elem_at (mBoundAllocs d) ct = Some (Some a) → mallocPtr a ≠ ptr
  | None => False
  end.
Proof.
  intros Hd Hlen. unfold rsdScriptGetAllocationForPointer. rewrite Hd.
  destruct (Z.eqb_spec ptr 0) as [->|Hne]; [by left|].
  destruct (Z.le_gt_cases (exportedVariableCount script) 0) as [Hle|Hpos].
  - rewrite seqZ_nil by lia. simpl. right. intros; lia.
  - pose proof (find_bound_spec d ptr (Z.to_nat (exportedVariableCount script))
                  0 ltac:(lia) ltac:(lia)) as H.
    rewrite Z2Nat.id in H by lia.
    destruct (find_bound _ _ _) as [[a|]|]; [| |done].
    + destruct H as (Hp & ct & Hct & Hel & Hfirst).
      split; [done|]. split; [done|]. exists ct. split; [lia|]. done.
    + right. intros ct a Hct. apply H. lia.
Qed.

Lemma lookup_first_match_witness :
  match rsdScriptGetAllocationForPointer ScriptSamples.script3 1000 with
  | Some (Some a) =>
      1000 ≠ 0 ∧ mallocPtr a = 1000
      ∧ ∃ ct, 0 ≤ ct < exportedVariableCount ScriptSamples.script3
              ∧ elem_at (mBoundAllocs ScriptSamples.driver3) ct = Some (Some a)
              ∧ ∀ j a', 0 ≤ j < ct →
                        elem_at (mBoundAllocs ScriptSamples.driver3) j = Some (Some a') →
                        mallocPtr a' ≠ 1000
  | Some None =>
      1000 = 0
      ∨ ∀ ct a, 0 ≤ ct < exportedVariableCount ScriptSamples.script3 →
                elem_at (mBoundAllocs ScriptSamples.driver3) ct = Some (Some a) →
                mallocPtr a ≠ 1000
  | None => False
  end.
Proof.
  apply (lookup_first_match ScriptSamples.script3 ScriptSamples.driver3 1000).
  - reflexivity.
  - simpl. lia.
Defined.

(** ** Binding an allocation *)

Lemma find_bound_ext d1 d2 cts ptr :
  mBoundAllocs d1 = mBoundAllocs d2 →
  find_bound (Some d1) cts ptr = find_bound (Some d2) cts ptr.
Proof.
  intros Heq. induction cts as [|ct cts IH]; [done|].
  cbn [find_bound]. simpl. rewrite Heq, IH. done.
Qed.

(** X7: binding and looking up compose.  Binding an allocation with a
    data pointer that is not [NULL] to a slot whose field was found in
    the library is defined, and the lookup of that data pointer then
    finds an allocation with this data pointer: the bound one itself,
    unless an earlier slot holds another allocation with the same data
    pointer. *)
Theorem bind_then_lookup (sizeof_ptr : nat) (script : ScriptHal) (d : DrvScript)
    (slot addr : Z) (a : Allocation) (mem : gmap Z Byte.byte) :
  drv script = Some d →
  exportedVariableCount script ≤ Z.of_nat (length (mBoundAllocs d)) →
  0 ≤ slot < exportedVariableCount script →
  elem_at (mFieldAddress d) slot = Some addr → addr ≠ 0 →
  mallocPtr a ≠ 0 →
  ∃ script' mem' a',
    rsdScriptSetGlobalBind sizeof_ptr script slot (Some a) mem = Some (script', mem')
    ∧ rsdScriptGetAllocationForPointer script' (mallocPtr a) = Some (Some a')
    ∧ mallocPtr a' = mallocPtr a
    ∧ ((∀ j b, 0 ≤ j < slot → elem_at (mBoundAllocs d) j = Some (Some b) →
               mallocPtr b ≠ mallocPtr a) → a' = a).
Proof.
  intros Hd Hlen Hslot Haddr Hnz Hp.
  unfold rsdScriptSetGlobalBind. rewrite Hd. simpl. rewrite Haddr. simpl.
  destruct (Z.eqb_spec addr 0) as [|_]; [done|].
  destruct (elem_at_in_range (mBoundAllocs d) slot ltac:(lia)) as [old Hold].
  rewrite Hold. simpl.
  set (d' := set_mBoundAllocs (<[Z.to_nat slot:=Some a]> (mBoundAllocs d)) d).
  set (script' := set_drv (Some d') script).
  pose proof (lookup_first_match script' d' (mallocPtr a) eq_refl) as Hl.
  simpl in Hl. rewrite length_insert in Hl. specialize (Hl Hlen).
  assert (Hnew : elem_at (<[Z.to_nat slot:=Some a]> (mBoundAllocs d)) slot = Some (Some a)).
  { apply elem_at_Some. split; [lia|]. apply list_lookup_insert_eq. lia. }
  destruct (rsdScriptGetAllocationForPointer script' (mallocPtr a))
    as [[a'|]|] eqn:Hlk; [| |done].
  - destruct Hl as (_ & Hpa & ct & Hct & Hel & Hfirst).
    eexists script', _, a'. split; [reflexivity|]. split; [done|]. split; [done|].
    intros Hearlier.
    destruct (Z.lt_trichotomy ct slot) as [Hlt|[->|Hgt]].
    + exfalso. apply (Hearlier ct a'); [lia| |done].
      apply elem_at_Some in Hel as [? Hel]. apply elem_at_Some. split; [done|].
      rewrite list_lookup_insert_ne in Hel by lia. done.
    + rewrite Hnew in Hel. by injection Hel as <-.
    + exfalso. apply (Hfirst slot a); [lia|done|done].
  - exfalso. destruct Hl as [Hl|Hl]; [done|].
    apply (Hl slot a); [lia|done|done].
Qed.

Lemma bind_then_lookup_witness :
  ∃ script' mem' a',
    rsdScriptSetGlobalBind 4 ScriptSamples.script3 0 (Some Samples.grid4x3) ∅
    = Some (script', mem')
    ∧ rsdScriptGetAllocationForPointer script' (mallocPtr Samples.grid4x3)
      = Some (Some a')
    ∧ mallocPtr a' = mallocPtr Samples.grid4x3
    ∧ ((∀ j b, 0 ≤ j < 0 →
               elem_at (mBoundAllocs ScriptSamples.driver3) j = Some (Some b) →
               mallocPtr b ≠ mallocPtr Samples.grid4x3) → a' = Samples.grid4x3).
Proof.
  apply (bind_then_lookup 4 ScriptSamples.script3 ScriptSamples.driver3 0 2000
           Samples.grid4x3 ∅).
  - reflexivity.
  - simpl. lia.
  - simpl. lia.
  - reflexivity.
  - lia.
  - simpl. lia.
Defined.

Lemma byte_of_value z : Z.of_N (Byte.to_N (byte_of z)) = z `mod` 256.
Proof.
  unfold byte_of.
  pose proof (Z.mod_pos_bound z 256 ltac:(lia)) as Hb.
  destruct (Byte.of_N (Z.to_N (z `mod` 256))) as [b|] eqn:Hof.
  - simpl. rewrite (Byte.to_of_N _ Hof). lia.
  - apply Byte.of_N_None_iff in Hof. lia.
Qed.

Lemma read_pointer_insert size : ∀ a q b mem,
  q < a →
  read_pointer size a (<[q:=b]> mem) = read_pointer size a mem.
Proof.
  induction size as [|n IH]; intros a q b mem Hq; [done|].
  simpl. rewrite lookup_insert_ne by lia. rewrite IH by lia. done.
Qed.

Lemma read_pointer_bytes size : ∀ a p mem,
  read_pointer size a (write_bytes a (pointer_bytes size p) mem)
  = Some (p `mod` 256 ^ Z.of_nat size).
Proof.
  induction size as [|n IH]; intros a p mem.
  - simpl. by rewrite Z.mod_1_r.
  - cbn [pointer_bytes write_bytes read_pointer].
    rewrite lookup_insert_eq. simpl.
    rewrite read_pointer_insert by lia. rewrite IH. simpl.
    f_equal. rewrite byte_of_value.
    replace (256 ^ Z.of_nat (S n)) with (256 * 256 ^ Z.of_nat n)
      by (rewrite Nat2Z.inj_succ, Z.pow_succ_r by lia; done).
    rewrite Z.rem_mul_r by lia. done.
Qed.

Lemma length_pointer_bytes size : ∀ p, length (pointer_bytes size p) = size.
Proof. induction size as [|n IH]; intros p; [done|]. simpl. by rewrite IH. Qed.

(** X8: after a bind the script's global holds the allocation's data
    pointer.  For a field found in the library and a data pointer that
    fits in a pointer, the bytes of the field read back as the data
    pointer of the bound allocation, or as [NULL] when [NULL] was bound;
    no byte outside the field changes. *)
Theorem bind_stores_pointer (sizeof_ptr : nat) (script script' : ScriptHal)
    (d : DrvScript) (slot addr : Z) (data : option Allocation)
    (mem mem' : gmap Z Byte.byte) :
  drv script = Some d →
  elem_at (mFieldAddress d) slot = Some addr → addr ≠ 0 →
  0 ≤ from_option mallocPtr 0 data < 256 ^ Z.of_nat sizeof_ptr →
  rsdScriptSetGlobalBind sizeof_ptr script slot data mem = Some (script', mem') →
  read_pointer sizeof_ptr addr mem' = Some (from_option mallocPtr 0 data)
  ∧ ∀ q, q < addr ∨ addr + Z.of_nat sizeof_ptr ≤ q → mem' !! q = mem !! q.
Proof.
  intros Hd Haddr Hnz Hfit. unfold rsdScriptSetGlobalBind.
  rewrite Hd. simpl. rewrite Haddr. simpl.
  destruct (Z.eqb_spec addr 0) as [|_]; [done|].
  destruct (elem_at (mBoundAllocs d) slot); [|done]. simpl.
  intros [= <- <-]. split.
  - rewrite read_pointer_bytes. f_equal. apply Z.mod_small. done.
  - intros q Hq. apply write_bytes_outside. by rewrite length_pointer_bytes.
Qed.

Lemma bind_stores_pointer_witness :
  read_pointer 4 2000
    (write_bytes 2000 (pointer_bytes 4 1000) ∅) = Some 1000
  ∧ ∀ q, q < 2000 ∨ 2000 + Z.of_nat 4 ≤ q →
         write_bytes 2000 (pointer_bytes 4 1000) ∅ !! q
         = (∅ : gmap Z Byte.byte) !! q.
Proof.
  apply (bind_stores_pointer 4 ScriptSamples.script3
           (set_drv (Some (set_mBoundAllocs
                             (<[0%nat:=Some Samples.grid4x3]>
                                (mBoundAllocs ScriptSamples.driver3))
                             ScriptSamples.driver3)) ScriptSamples.script3)
           ScriptSamples.driver3 0 2000 (Some Samples.grid4x3) ∅).
  - reflexivity.
  - reflexivity.
  - lia.
  - simpl. lia.
  - reflexivity.
Defined.

(** ** Setting a global that holds objects *)

Lemma incRefs_loop stride (l : list Z) : ∀ p ev,
  foldl (λ acc i, incRefs_step stride i acc) (p, ev) l
  = (p + Z.of_nat (length l) * stride,
     ev ++ (IncRefs <$> ((λ i, p + i * stride) <$> seqZ 0 (Z.of_nat (length l))))).
Proof.
  induction l as [|i l IH]; intros p ev.
  - simpl. rewrite app_nil_r. f_equal. lia.
  - cbn [foldl]. unfold incRefs_step at 2. simpl fst. simpl snd.
    rewrite IH. f_equal; [simpl length; lia|].
    rewrite <- app_assoc. f_equal.
    change (length (i :: l)) with (S (length l)).
    rewrite (seqZ_cons 0 (Z.of_nat (S (length l)))) by lia.
    replace (Z.pred (Z.of_nat (S (length l)))) with (Z.of_nat (length l)) by lia.
    rewrite !fmap_cons. simpl app. f_equal; [f_equal; lia|].
    f_equal. rewrite <- (fmap_add_seqZ 1 0). rewrite <- list_fmap_compose.
    apply list_fmap_ext. intros _ j _. simpl. lia.
Qed.

Lemma decRefs_loop stride (l : list Z) : ∀ p ev,
  foldl (λ acc i, decRefs_step stride i acc) (p, ev) l
  = (p + Z.of_nat (length l) * stride,
     ev ++ (DecRefs <$> ((λ i, p + i * stride) <$> seqZ 0 (Z.of_nat (length l))))).
Proof.
  induction l as [|i l IH]; intros p ev.
  - simpl. rewrite app_nil_r. f_equal. lia.
  - cbn [foldl]. unfold decRefs_step at 2. simpl fst. simpl snd.
    rewrite IH. f_equal; [simpl length; lia|].
    rewrite <- app_assoc. f_equal.
    change (length (i :: l)) with (S (length l)).
    rewrite (seqZ_cons 0 (Z.of_nat (S (length l)))) by lia.
    replace (Z.pred (Z.of_nat (S (length l)))) with (Z.of_nat (length l)) by lia.
    rewrite !fmap_cons. simpl app. f_equal; [f_equal; lia|].
    f_equal. rewrite <- (fmap_add_seqZ 1 0). rewrite <- list_fmap_compose.
    apply list_fmap_ext. intros _ j _. simpl. lia.
Qed.

(** X9: setting a one-dimensional global of objects.  For a field
    found in the library and a dimension array of one integer, the
    references of the [dims[0]] new elements are all taken before any of
    the old elements' references is dropped, element by element at the
    element's size, and then the new value is copied over the field. *)
Theorem elem_dims_counts_references (script : ScriptHal) (d : DrvScript)
    (slot addr data : Z) (bytes : list Byte.byte) (stride : Z)
    (dims : list Z) (dimLength n : Z) (mem : gmap Z Byte.byte) :
  drv script = Some d →
  elem_at (mFieldAddress d) slot = Some addr → addr ≠ 0 →
  dimLength `div` 4 = 1 → elem_at dims 0 = Some n →
  rsdScriptSetGlobalVarWithElemDims script slot data bytes stride dims dimLength mem
  = Some (write_bytes addr bytes mem,
          (IncRefs <$> ((λ i, data + i * stride) <$> seqZ 0 n))
          ++ (DecRefs <$> ((λ i, addr + i * stride) <$> seqZ 0 n))).
Proof.
  intros Hd Haddr Hnz Hdim Hn. unfold rsdScriptSetGlobalVarWithElemDims.
  rewrite Hd. simpl. rewrite Haddr. simpl.
  destruct (Z.eqb_spec addr 0) as [|_]; [done|].
  rewrite Hdim. simpl. rewrite Hn. simpl. do 2 f_equal.
  unfold for_range. rewrite Z.sub_0_r.
  rewrite incRefs_loop, decRefs_loop. simpl.
  rewrite length_seqZ.
  destruct (Z.le_gt_cases n 0) as [Hle|Hpos].
  - replace (Z.of_nat (Z.to_nat n)) with 0 by lia.
    rewrite (seqZ_nil 0 n) by lia. done.
  - rewrite Z2Nat.id by lia. done.
Qed.

Lemma elem_dims_counts_references_witness :
  rsdScriptSetGlobalVarWithElemDims ScriptSamples.script3 2 3000
    ScriptSamples.bytes4 2 [2] 4 ∅
  = Some (write_bytes 2016 ScriptSamples.bytes4 ∅,
          (IncRefs <$> ((λ i, 3000 + i * 2) <$> seqZ 0 2))
          ++ (DecRefs <$> ((λ i, 2016 + i * 2) <$> seqZ 0 2))).
Proof.
  apply (elem_dims_counts_references ScriptSamples.script3 ScriptSamples.driver3
           2 2016 3000 ScriptSamples.bytes4 2 [2] 4 2 ∅).
  - reflexivity.
  - reflexivity.
  - lia.
  - reflexivity.
  - reflexivity.
Defined.

(** X10: with any other number of dimensions no reference is counted.
    When [dimLength / sizeof(int)] is not 1 the call does what
    [rsdScriptSetGlobalVar] does, copying the value over the field, and
    asks for no reference to be taken or dropped. *)
Theorem elem_dims_other_ranks_only_copy (script : ScriptHal) (slot data : Z)
    (bytes : list Byte.byte) (stride : Z) (dims : list Z) (dimLength : Z)
    (mem : gmap Z Byte.byte) :
  dimLength `div` 4 ≠ 1 →
  rsdScriptSetGlobalVarWithElemDims script slot data bytes stride dims dimLength mem
  = (λ m, (m, [])) <$> rsdScriptSetGlobalVar script slot bytes mem.
Proof.
  intros Hdim. unfold rsdScriptSetGlobalVarWithElemDims, rsdScriptSetGlobalVar.
  destruct (drv script) as [d|]; [|done]. simpl.
  destruct (elem_at (mFieldAddress d) slot) as [addr|]; [|done]. simpl.
  destruct (addr =? 0); [done|].
  destruct (Z.eqb_spec (dimLength `div` 4) 1); [done|]. done.
Qed.

Lemma elem_dims_other_ranks_only_copy_witness :
  rsdScriptSetGlobalVarWithElemDims ScriptSamples.script3 2 3000
    ScriptSamples.bytes4 2 [1; 2] 8 ∅
  = (λ m, (m, [])) <$> rsdScriptSetGlobalVar ScriptSamples.script3 2
                         ScriptSamples.bytes4 ∅.
Proof.
  apply (elem_dims_other_ranks_only_copy ScriptSamples.script3 2 3000
           ScriptSamples.bytes4 2 [1; 2] 8 ∅).
  vm_compute. congruence.
Defined.

(** ** Destroying a script *)

Lemma destroy_loop d (l : list Z) : ∀ ev,
  Forall (λ i, 0 ≤ i < Z.of_nat (length (mFieldIsObject d))
               ∧ i < Z.of_nat (length (mFieldAddress d))) l →
  foldl (λ acc i, destroy_step d i acc) (Some ev) l
  = Some (ev ++ (l ≫= cleared d)).
Proof.
  induction l as [|i l IH]; intros ev Hl.
  - simpl. by rewrite app_nil_r.
  - apply Forall_cons_1 in Hl as [[Hi1 Hi2] Hl].
    cbn [foldl]. rewrite bind_cons.
    destruct (elem_at_in_range (mFieldIsObject d) i ltac:(lia)) as [o Ho].
    destruct (elem_at_in_range (mFieldAddress d) i ltac:(lia)) as [a Ha].
    unfold destroy_step at 2, cleared at 1. simpl. rewrite Ho, Ha. simpl.
    destruct o.
    + destruct (a =? 0); rewrite IH by done; [done|].
      by rewrite <- app_assoc.
    + rewrite IH by done. done.
Qed.

Lemma rsdScriptDestroy_defined script d :
  drv script = Some d →
  exportedVariableCount script ≤ Z.of_nat (length (mFieldIsObject d)) →
  exportedVariableCount script ≤ Z.of_nat (length (mFieldAddress d)) →
  rsdScriptDestroy script
  = Some (set_drv None script,
          (seqZ 0 (exportedVariableCount script) ≫= cleared d)
          ++ (if mScriptSO d =? 0 then [] else [Dlclose (mScriptSO d)])).
Proof.
  intros Hd H1 H2. unfold rsdScriptDestroy. rewrite Hd.
  unfold for_range. rewrite Z.sub_0_r.
  rewrite destroy_loop.
  - done.
  - apply Forall_forall. intros i Hi%elem_of_seqZ. lia.
Qed.

(** X11: what destroying a script releases.  When the two field arrays
    cover the exported variables, destroying a script with a driver
    record is defined; it clears, in slot order, exactly the fields that
    are marked as objects and were found in the library, then closes the
    library if one is open, and leaves the script without a driver
    record. *)
Theorem destroy_releases (script : ScriptHal) (d : DrvScript) :
  drv script = Some d →
  exportedVariableCount script ≤ Z.of_nat (length (mFieldIsObject d)) →
  exportedVariableCount script ≤ Z.of_nat (length (mFieldAddress d)) →
  rsdScriptDestroy script
  = Some (set_drv None script,
          (seqZ 0 (exportedVariableCount script) ≫= cleared d)
          ++ (if mScriptSO d =? 0 then [] else [Dlclose (mScriptSO d)])).
Proof. apply rsdScriptDestroy_defined. Qed.

Lemma destroy_releases_witness :
  rsdScriptDestroy ScriptSamples.script3
  = Some (set_drv None ScriptSamples.script3,
          (seqZ 0 (exportedVariableCount ScriptSamples.script3)
             ≫= cleared ScriptSamples.driver3)
          ++ (if mScriptSO ScriptSamples.driver3 =? 0 then []
              else [Dlclose (mScriptSO ScriptSamples.driver3)])).
Proof.
  apply (destroy_releases ScriptSamples.script3 ScriptSamples.driver3).
  - reflexivity.
  - simpl. lia.
  - simpl. lia.
Defined.

(** X12: destroying twice is safe.  After a destroy that is defined, a
    second destroy changes nothing and releases nothing: no field is
    cleared again and the library is not closed again. *)
Theorem destroy_twice (script script' : ScriptHal) (ev : list Event) :
  rsdScriptDestroy script = Some (script', ev) →
  rsdScriptDestroy script' = Some (script', []).
Proof.
  unfold rsdScriptDestroy.
  destruct (drv script) as [d|] eqn:Hd.
  - destruct (for_range _ _ _ _); [|done]. simpl. by intros [= <- _].
  - intros [= <- _]. by rewrite Hd.
Qed.

Lemma destroy_twice_witness :
  rsdScriptDestroy (set_drv None ScriptSamples.script3)
  = Some (set_drv None ScriptSamples.script3, []).
Proof.
  apply (destroy_twice ScriptSamples.script3 (set_drv None ScriptSamples.script3)
           [ClearObject 2016; Dlclose 7]).
  reflexivity.
Defined.

(** * Loading a script *)

(** ** Steps of the body *)

Lemma init_bind_eq {A B} (m : Init A) (f : A → Init B) st :
  (m ≫= f) st
  = match m st with
    | (Some a, st') => f a st'
    | (None, st') => (None, st')
    end.
Proof. reflexivity. Qed.

Lemma fgets_cons scr d line rest :
  fgets {| st_script := scr; st_drv := d; st_fp := line :: rest |}
  = (Some line, {| st_script := scr; st_drv := d; st_fp := rest |}).
Proof. reflexivity. Qed.

Lemma fgets_inv st line st' :
  fgets st = (Some line, st') →
  st_fp st = line :: st_fp st'
  ∧ st_script st' = st_script st ∧ st_drv st' = st_drv st.
Proof.
  unfold fgets. destruct (st_fp st) as [|l r]; [done|].
  intros [= <- <-]. done.
Qed.

Lemma set_mFieldAddress_same d : set_mFieldAddress (mFieldAddress d) d = d.
Proof. by destruct d. Qed.

Lemma set_mInvokeFunctions_same d : set_mInvokeFunctions (mInvokeFunctions d) d = d.
Proof. by destruct d. Qed.

Lemma set_mFieldIsObject_same d : set_mFieldIsObject (mFieldIsObject d) d = d.
Proof. by destruct d. Qed.

(** Writing [v] at [i] extends the part of the array that is filled. *)
Lemma filled_step {A} (arr : list A) (i : nat) (v : A) (vals : list A) :
  (i < length arr)%nat →
  take (S i) (<[i:=v]> arr) ++ vals ++ drop (S i + length vals) (<[i:=v]> arr)
  = take i arr ++ (v :: vals) ++ drop (i + S (length vals)) arr.
Proof.
  intros Hi.
  rewrite (take_S_r _ _ v) by (by apply list_lookup_insert_eq).
  rewrite take_insert_ge by lia.
  rewrite drop_insert_lt by lia.
  rewrite <- app_assoc. simpl.
  by replace (i + S (length vals))%nat with (S (i + length vals)) by lia.
Qed.

(** ** The loops *)

(** The loop over the exported variables reads one name per slot and
    stores what [dlsym] gives for it, [NULL] or not. *)
Lemma variables_loop libc so names : ∀ i scr d rest,
  (i + length names ≤ length (mFieldAddress d))%nat →
  for_each (seq i (length names)) (read_variable libc so)
    {| st_script := scr; st_drv := d; st_fp := names ++ rest |}
  = (Some tt,
     {| st_script := scr;
        st_drv := set_mFieldAddress
                    (take i (mFieldAddress d)
                     ++ ((λ n, dlsym libc so (chop_last_newline n)) <$> names)
                     ++ drop (i + length names) (mFieldAddress d)) d;
        st_fp := rest |}).
Proof.
  induction names as [|n names IH]; intros i scr d rest Hlen.
  - simpl. rewrite Nat.add_0_r, take_drop, set_mFieldAddress_same. done.
  - cbn [length seq for_each]. rewrite init_bind_eq.
    unfold read_variable at 1. rewrite init_bind_eq.
    change ((n :: names) ++ rest) with (n :: (names ++ rest)).
    rewrite fgets_cons. unfold upd_drv at 1. cbn [st_script st_drv st_fp].
    rewrite IH by (simpl; rewrite length_insert; simpl in Hlen; lia).
    simpl in Hlen.
    do 2 f_equal. unfold set_mFieldAddress. simpl. f_equal.
    rewrite <- (length_fmap (λ n0, dlsym libc so (chop_last_newline n0)) names).
    apply filled_step. lia.
Qed.

Lemma read_function_cons libc so i scr d n rest :
  (i < length (mInvokeFunctions d))%nat →
  read_function libc so i {| st_script := scr; st_drv := d; st_fp := n :: rest |}
  = (if dlsym libc so (chop_last_newline n) =? 0 then None else Some tt,
     {| st_script := scr;
        st_drv := set_mInvokeFunctions
                    (<[i:=dlsym libc so (chop_last_newline n)]> (mInvokeFunctions d)) d;
        st_fp := rest |}).
Proof.
  intros Hi. unfold read_function. rewrite init_bind_eq, fgets_cons.
  rewrite init_bind_eq. unfold upd_drv at 1. cbn [st_script st_drv st_fp].
  rewrite init_bind_eq. unfold get_drv at 1. cbn [st_script st_drv st_fp].
  unfold set_mInvokeFunctions at 1. cbn [mInvokeFunctions].
  rewrite list_lookup_insert_eq by lia. cbn [default from_option id].
  by destruct (dlsym libc so (chop_last_newline n) =? 0).
Qed.

(** The loop over the exported functions stops with an error at the
    first name that [dlsym] does not find. *)
Lemma functions_loop libc so names : ∀ i scr d rest,
  (i + length names ≤ length (mInvokeFunctions d))%nat →
  Forall (λ n, dlsym libc so (chop_last_newline n) ≠ 0) names →
  for_each (seq i (length names)) (read_function libc so)
    {| st_script := scr; st_drv := d; st_fp := names ++ rest |}
  = (Some tt,
     {| st_script := scr;
        st_drv := set_mInvokeFunctions
                    (take i (mInvokeFunctions d)
                     ++ ((λ n, dlsym libc so (chop_last_newline n)) <$> names)
                     ++ drop (i + length names) (mInvokeFunctions d)) d;
        st_fp := rest |}).
Proof.
  induction names as [|n names IH]; intros i scr d rest Hlen Hok.
  - simpl. rewrite Nat.add_0_r, take_drop, set_mInvokeFunctions_same. done.
  - apply Forall_cons_1 in Hok as [Hn Hok]. simpl in Hlen.
    cbn [length seq for_each]. rewrite init_bind_eq.
    change ((n :: names) ++ rest) with (n :: (names ++ rest)).
    rewrite read_function_cons by lia.
    destruct (Z.eqb_spec (dlsym libc so (chop_last_newline n)) 0) as [|_]; [done|].
    rewrite IH by (try done; simpl; rewrite length_insert; lia).
    do 2 f_equal. unfold set_mInvokeFunctions. simpl. f_equal.
    rewrite <- (length_fmap (λ n0, dlsym libc so (chop_last_newline n0)) names).
    apply filled_step. lia.
Qed.

Lemma functions_loop_fails libc so names : ∀ i scr d rest,
  (i + length names ≤ length (mInvokeFunctions d))%nat →
  Exists (λ n, dlsym libc so (chop_last_newline n) = 0) names →
  (for_each (seq i (length names)) (read_function libc so)
     {| st_script := scr; st_drv := d; st_fp := names ++ rest |}).1 = None.
Proof.
  induction names as [|n names IH]; intros i scr d rest Hlen Hbad.
  - by apply Exists_nil in Hbad.
  - simpl in Hlen.
    cbn [length seq for_each]. rewrite init_bind_eq.
    change ((n :: names) ++ rest) with (n :: (names ++ rest)).
    rewrite read_function_cons by lia.
    destruct (Z.eqb_spec (dlsym libc so (chop_last_newline n)) 0) as [Hz|Hnz];
      [done|].
    apply Exists_cons in Hbad as [Hbad|Hbad]; [done|].
    apply IH; [|done]. simpl. rewrite length_insert. lia.
Qed.

Lemma read_forEach_cons libc so i scr d n rest :
  (i < length (mForEachFunctions d))%nat →
  read_forEach libc so i {| st_script := scr; st_drv := d; st_fp := n :: rest |}
  = match scan_forEach libc n with
    | None => (None, {| st_script := scr; st_drv := d; st_fp := rest |})
    | Some _ =>
        (if forEach_fn libc so n =? 0 then None else Some tt,
         {| st_script := scr;
            st_drv := set_mForEachFunctions
                        (<[i:=forEach_fn libc so n]> (mForEachFunctions d))
                        (set_mForEachSignatures
                           (<[i:=forEach_sig libc n]> (mForEachSignatures d)) d);
            st_fp := rest |})
    end.
Proof.
  intros Hi. unfold read_forEach, forEach_fn, forEach_sig.
  rewrite init_bind_eq, fgets_cons.
  rewrite init_bind_eq. destruct (scan_forEach libc n) as [p|]; [|done].
  unfold scanned, mret at 1, Init_ret at 1.
  rewrite init_bind_eq. unfold upd_drv at 1. cbn [st_script st_drv st_fp].
  rewrite init_bind_eq. unfold upd_drv at 1. cbn [st_script st_drv st_fp].
  rewrite init_bind_eq. unfold get_drv at 1. cbn [st_script st_drv st_fp].
  unfold set_mForEachFunctions at 1. cbn [mForEachFunctions].
  unfold set_mForEachSignatures at 1. cbn [mForEachFunctions].
  rewrite list_lookup_insert_eq by lia. cbn [default from_option id].
  by destruct (dlsym libc so p.2 =? 0).
Qed.

(** The loop over the exported kernels stops with an error at the first
    line that does not scan or names a symbol that [dlsym] does not
    find. *)
Lemma forEach_loop libc so names : ∀ i scr d rest,
  (i + length names ≤ length (mForEachFunctions d))%nat →
  (i + length names ≤ length (mForEachSignatures d))%nat →
  Forall (λ n, is_Some (scan_forEach libc n) ∧ forEach_fn libc so n ≠ 0) names →
  for_each (seq i (length names)) (read_forEach libc so)
    {| st_script := scr; st_drv := d; st_fp := names ++ rest |}
  = (Some tt,
     {| st_script := scr;
        st_drv := set_mForEachFunctions
                    (take i (mForEachFunctions d)
                     ++ (forEach_fn libc so <$> names)
                     ++ drop (i + length names) (mForEachFunctions d))
                    (set_mForEachSignatures
                       (take i (mForEachSignatures d)
                        ++ (forEach_sig libc <$> names)
                        ++ drop (i + length names) (mForEachSignatures d)) d);
        st_fp := rest |}).
Proof.
  induction names as [|n names IH]; intros i scr d rest Hlen1 Hlen2 Hok.
  - simpl. rewrite Nat.add_0_r, !take_drop. by destruct d.
  - apply Forall_cons_1 in Hok as [[[p Hp] Hn] Hok]. simpl in Hlen1, Hlen2.
    cbn [length seq for_each]. rewrite init_bind_eq.
    change ((n :: names) ++ rest) with (n :: (names ++ rest)).
    rewrite read_forEach_cons by lia. rewrite Hp.
    destruct (Z.eqb_spec (forEach_fn libc so n) 0) as [|_]; [done|].
    rewrite IH by (try done; simpl; rewrite length_insert; lia).
    do 2 f_equal. unfold set_mForEachFunctions, set_mForEachSignatures. simpl.
    f_equal.
    + rewrite <- (length_fmap (forEach_fn libc so) names).
      apply filled_step. lia.
    + rewrite <- (length_fmap (forEach_sig libc) names).
      apply filled_step. lia.
Qed.

Lemma forEach_loop_fails libc so names : ∀ i scr d rest,
  (i + length names ≤ length (mForEachFunctions d))%nat →
  Exists (λ n, ¬ (is_Some (scan_forEach libc n) ∧ forEach_fn libc so n ≠ 0)) names →
  (for_each (seq i (length names)) (read_forEach libc so)
     {| st_script := scr; st_drv := d; st_fp := names ++ rest |}).1 = None.
Proof.
  induction names as [|n names IH]; intros i scr d rest Hlen Hbad.
  - by apply Exists_nil in Hbad.
  - simpl in Hlen.
    cbn [length seq for_each]. rewrite init_bind_eq.
    change ((n :: names) ++ rest) with (n :: (names ++ rest)).
    rewrite read_forEach_cons by lia.
    destruct (scan_forEach libc n) as [p|] eqn:Hp; [|done].
    destruct (Z.eqb_spec (forEach_fn libc so n) 0) as [Hz|Hnz]; [done|].
    apply Exists_cons in Hbad as [Hbad|Hbad].
    + exfalso. apply Hbad. split; [by eexists|done].
    + apply IH; [|done]. simpl. rewrite length_insert. lia.
Qed.

Lemma read_object_slot_cons libc varCount i scr d n rest :
  read_object_slot libc varCount i
    {| st_script := scr; st_drv := d; st_fp := n :: rest |}
  = (match scan_slot libc n with Some _ => Some tt | None => None end,
     {| st_script := scr;
        st_drv := set_mFieldIsObject (mark_object libc varCount (mFieldIsObject d) n) d;
        st_fp := rest |}).
Proof.
  unfold read_object_slot, mark_object. rewrite init_bind_eq, fgets_cons.
  rewrite init_bind_eq. destruct (scan_slot libc n) as [v|].
  - unfold scanned, mret at 1, Init_ret at 1.
    destruct (v <? varCount)%N; [done|].
    by rewrite set_mFieldIsObject_same.
  - by rewrite set_mFieldIsObject_same.
Qed.

(** The loop over the object slots marks the listed variables that
    exist, and stops with an error at the first line that does not
    scan. *)
Lemma object_slots_loop libc varCount names : ∀ l scr d rest,
  length l = length names →
  Forall (λ n, is_Some (scan_slot libc n)) names →
  for_each l (read_object_slot libc varCount)
    {| st_script := scr; st_drv := d; st_fp := names ++ rest |}
  = (Some tt,
     {| st_script := scr;
        st_drv := set_mFieldIsObject
                    (foldl (mark_object libc varCount) (mFieldIsObject d) names) d;
        st_fp := rest |}).
Proof.
  induction names as [|n names IH]; intros l scr d rest Hl Hok.
  - destruct l; [|done]. simpl. by rewrite set_mFieldIsObject_same.
  - destruct l as [|i l]; [done|]. injection Hl as Hl.
    apply Forall_cons_1 in Hok as [[v Hv] Hok].
    cbn [for_each]. rewrite init_bind_eq.
    change ((n :: names) ++ rest) with (n :: (names ++ rest)).
    rewrite read_object_slot_cons, Hv.
    rewrite IH by done. done.
Qed.

Lemma object_slots_loop_fails libc varCount names : ∀ l scr d rest,
  length l = length names →
  Exists (λ n, ¬ is_Some (scan_slot libc n)) names →
  (for_each l (read_object_slot libc varCount)
     {| st_script := scr; st_drv := d; st_fp := names ++ rest |}).1 = None.
Proof.
  induction names as [|n names IH]; intros l scr d rest Hl Hbad.
  - by apply Exists_nil in Hbad.
  - destruct l as [|i l]; [done|]. injection Hl as Hl.
    cbn [for_each]. rewrite init_bind_eq.
    change ((n :: names) ++ rest) with (n :: (names ++ rest)).
    rewrite read_object_slot_cons.
    destruct (scan_slot libc n) as [v|] eqn:Hv; [|done].
    apply Exists_cons in Hbad as [Hbad|Hbad].
    + exfalso. apply Hbad. by eexists.
    + by apply IH.
Qed.

(** A loop whose body reads one line per turn has read as many lines as
    it made turns when it ends without an error. *)
Lemma for_each_consumes {A} (body : A → Init unit) :
  (∀ j st st', body j st = (Some tt, st') → ∃ line, st_fp st = line :: st_fp st') →
  ∀ l st st', for_each l body st = (Some tt, st') →
    ∃ names, length names = length l ∧ st_fp st = names ++ st_fp st'.
Proof.
  intros Hbody. induction l as [|j l IH]; intros st st' Hrun.
  - injection Hrun as <-. by exists [].
  - cbn [for_each] in Hrun. rewrite init_bind_eq in Hrun.
    destruct (body j st) as [[[]|] st1] eqn:Hj; [|done].
    apply Hbody in Hj as [line Hline].
    apply IH in Hrun as (names & Hlen & Hnames).
    exists (line :: names). split; [simpl; lia|].
    rewrite Hline, Hnames. done.
Qed.

Lemma read_variable_line libc so j st st' :
  read_variable libc so j st = (Some tt, st') → ∃ line, st_fp st = line :: st_fp st'.
Proof.
  destruct st as [scr d [|n rest]]; [done|].
  unfold read_variable. rewrite init_bind_eq, fgets_cons.
  intros [= <-]. by exists n.
Qed.

Lemma read_function_line libc so j st st' :
  read_function libc so j st = (Some tt, st') → ∃ line, st_fp st = line :: st_fp st'.
Proof.
  destruct st as [scr d [|n rest]]; [done|].
  unfold read_function. rewrite init_bind_eq, fgets_cons.
  rewrite init_bind_eq. unfold upd_drv at 1. cbn [st_script st_drv st_fp].
  rewrite init_bind_eq. unfold get_drv at 1. cbn [st_script st_drv st_fp].
  destruct (_ =? 0); [done|]. intros [= <-]. by exists n.
Qed.

Lemma read_forEach_line libc so j st st' :
  read_forEach libc so j st = (Some tt, st') → ∃ line, st_fp st = line :: st_fp st'.
Proof.
  destruct st as [scr d [|n rest]]; [done|].
  unfold read_forEach. rewrite init_bind_eq, fgets_cons.
  rewrite init_bind_eq. destruct (scan_forEach libc n) as [p|]; [|done].
  unfold scanned, mret at 1, Init_ret at 1.
  rewrite init_bind_eq. unfold upd_drv at 1. cbn [st_script st_drv st_fp].
  rewrite init_bind_eq. unfold upd_drv at 1. cbn [st_script st_drv st_fp].
  rewrite init_bind_eq. unfold get_drv at 1. cbn [st_script st_drv st_fp].
  destruct (_ =? 0); [done|]. intros [= <-]. by exists n.
Qed.

Lemma read_object_slot_line libc varCount j st st' :
  read_object_slot libc varCount j st = (Some tt, st') →
  ∃ line, st_fp st = line :: st_fp st'.
Proof.
  destruct st as [scr d [|n rest]]; [done|].
  rewrite read_object_slot_cons. destruct (scan_slot libc n); [|done].
  intros [= <-]. by exists n.
Qed.

(** ** Running the body on a state *)

Lemma upd_drv_run f scr d fp :
  upd_drv f {| st_script := scr; st_drv := d; st_fp := fp |}
  = (Some tt, {| st_script := scr; st_drv := f d; st_fp := fp |}).
Proof. reflexivity. Qed.

Lemma upd_script_run f scr d fp :
  upd_script f {| st_script := scr; st_drv := d; st_fp := fp |}
  = (Some tt, {| st_script := f scr; st_drv := d; st_fp := fp |}).
Proof. reflexivity. Qed.

Lemma get_drv_run scr d fp :
  get_drv {| st_script := scr; st_drv := d; st_fp := fp |}
  = (Some d, {| st_script := scr; st_drv := d; st_fp := fp |}).
Proof. reflexivity. Qed.

Lemma mret_run {A} (a : A) (st : InitState) : (mret a : Init A) st = (Some a, st).
Proof. reflexivity. Qed.

Lemma scanned_Some {A} (a : A) (st : InitState) : scanned (Some a) st = (Some a, st).
Proof. reflexivity. Qed.

Lemma scanned_None {A} (st : InitState) : scanned (@None A) st = (None, st).
Proof. reflexivity. Qed.

Lemma fgets_nil scr d :
  fgets {| st_script := scr; st_drv := d; st_fp := [] |}
  = (None, {| st_script := scr; st_drv := d; st_fp := [] |}).
Proof. reflexivity. Qed.

Ltac run_step :=
  first [ rewrite fgets_cons | rewrite fgets_nil
        | rewrite upd_drv_run | rewrite upd_script_run
        | rewrite get_drv_run | rewrite mret_run
        | rewrite scanned_Some | rewrite scanned_None ];
  cbv beta iota.

Ltac run := repeat (first [ run_step | rewrite init_bind_eq ]).

(** ** The four lists of the info file *)

Lemma load_variables_run libc so lv vars rest scr d :
  scan_count libc EXPORT_VAR_STR lv = Some (N.of_nat (length vars)) →
  mFieldAddress d = [] → mFieldIsObject d = [] →
  load_variables libc so
    {| st_script := scr; st_drv := d; st_fp := lv :: vars ++ rest |}
  = (Some (N.of_nat (length vars)),
     {| st_script := set_exportedVariableCount (Z.of_nat (length vars)) scr;
        st_drv := set_mFieldAddress
                    ((λ n, dlsym libc so (chop_last_newline n)) <$> vars)
                    (set_mFieldIsObject (replicate (length vars) false) d);
        st_fp := rest |}).
Proof.
  intros Hscan Ha Ho. unfold load_variables. run. rewrite Hscan. run.
  rewrite nat_N_Z.
  destruct (N.ltb_spec 0 (N.of_nat (length vars))) as [Hpos|Hz].
  - run. rewrite Nat2N.id.
    rewrite variables_loop by (simpl; rewrite length_replicate; lia).
    run. do 2 f_equal. unfold set_mFieldAddress. simpl. f_equal.
    rewrite drop_ge by (rewrite length_replicate; lia). by rewrite app_nil_r.
  - assert (vars = []) as -> by (apply nil_length_inv; lia).
    run. simpl. do 2 f_equal. destruct d. simpl in *. by subst.
Qed.

Lemma load_functions_run libc so lf funcs rest scr d :
  scan_count libc EXPORT_FUNC_STR lf = Some (N.of_nat (length funcs)) →
  mInvokeFunctions d = [] →
  Forall (λ n, dlsym libc so (chop_last_newline n) ≠ 0) funcs →
  load_functions libc so
    {| st_script := scr; st_drv := d; st_fp := lf :: funcs ++ rest |}
  = (Some tt,
     {| st_script := set_exportedFunctionCount (Z.of_nat (length funcs)) scr;
        st_drv := set_mInvokeFunctions
                    ((λ n, dlsym libc so (chop_last_newline n)) <$> funcs) d;
        st_fp := rest |}).
Proof.
  intros Hscan Ha Hok. unfold load_functions. run. rewrite Hscan. run.
  rewrite nat_N_Z.
  destruct (N.ltb_spec 0 (N.of_nat (length funcs))) as [Hpos|Hz].
  - run. rewrite Nat2N.id.
    rewrite functions_loop by (try done; simpl; rewrite length_replicate; lia).
    do 2 f_equal. unfold set_mInvokeFunctions. simpl. f_equal.
    rewrite drop_ge by (rewrite length_replicate; lia). by rewrite app_nil_r.
  - assert (funcs = []) as -> by (apply nil_length_inv; lia).
    run. simpl. do 2 f_equal. destruct d. simpl in *. by subst.
Qed.

Lemma load_functions_fails libc so lf funcs rest scr d :
  scan_count libc EXPORT_FUNC_STR lf = Some (N.of_nat (length funcs)) →
  Exists (λ n, dlsym libc so (chop_last_newline n) = 0) funcs →
  (load_functions libc so
     {| st_script := scr; st_drv := d; st_fp := lf :: funcs ++ rest |}).1 = None.
Proof.
  intros Hscan Hbad. unfold load_functions. run. rewrite Hscan. run.
  destruct (N.ltb_spec 0 (N.of_nat (length funcs))) as [Hpos|Hz].
  - run. rewrite Nat2N.id.
    apply functions_loop_fails; [|done]. simpl. rewrite length_replicate. lia.
  - assert (funcs = []) as -> by (apply nil_length_inv; lia).
    by apply Exists_nil in Hbad.
Qed.

Lemma load_forEach_run libc so lk kernels rest scr d :
  scan_count libc EXPORT_FOREACH_STR lk = Some (N.of_nat (length kernels)) →
  mForEachFunctions d = [] → mForEachSignatures d = [] →
  Forall (λ n, is_Some (scan_forEach libc n) ∧ forEach_fn libc so n ≠ 0) kernels →
  load_forEach libc so
    {| st_script := scr; st_drv := d; st_fp := lk :: kernels ++ rest |}
  = (Some tt,
     {| st_script := scr;
        st_drv := set_mForEachFunctions (forEach_fn libc so <$> kernels)
                    (set_mForEachSignatures (forEach_sig libc <$> kernels) d);
        st_fp := rest |}).
Proof.
  intros Hscan Ha Hb Hok. unfold load_forEach. run. rewrite Hscan. run.
  destruct (N.ltb_spec 0 (N.of_nat (length kernels))) as [Hpos|Hz].
  - run. rewrite Nat2N.id.
    rewrite forEach_loop by (try done; simpl; rewrite length_replicate; lia).
    do 2 f_equal. unfold set_mForEachFunctions, set_mForEachSignatures. simpl.
    f_equal; rewrite drop_ge by (rewrite length_replicate; lia);
      by rewrite app_nil_r.
  - assert (kernels = []) as -> by (apply nil_length_inv; lia).
    run. simpl. do 2 f_equal. destruct d. simpl in *. by subst.
Qed.

Lemma load_forEach_fails libc so lk kernels rest scr d :
  scan_count libc EXPORT_FOREACH_STR lk = Some (N.of_nat (length kernels)) →
  Exists (λ n, ¬ (is_Some (scan_forEach libc n) ∧ forEach_fn libc so n ≠ 0)) kernels →
  (load_forEach libc so
     {| st_script := scr; st_drv := d; st_fp := lk :: kernels ++ rest |}).1 = None.
Proof.
  intros Hscan Hbad. unfold load_forEach. run. rewrite Hscan. run.
  destruct (N.ltb_spec 0 (N.of_nat (length kernels))) as [Hpos|Hz].
  - run. rewrite Nat2N.id.
    apply forEach_loop_fails; [|done]. simpl. rewrite length_replicate. lia.
  - assert (kernels = []) as -> by (apply nil_length_inv; lia).
    by apply Exists_nil in Hbad.
Qed.

Lemma load_object_slots_run libc varCount lo slots rest scr d :
  scan_count libc OBJECT_SLOT_STR lo = Some (N.of_nat (length slots)) →
  Forall (λ n, is_Some (scan_slot libc n)) slots →
  load_object_slots libc varCount
    {| st_script := scr; st_drv := d; st_fp := lo :: slots ++ rest |}
  = (Some tt,
     {| st_script := scr;
        st_drv := set_mFieldIsObject
                    (foldl (mark_object libc varCount) (mFieldIsObject d) slots) d;
        st_fp := rest |}).
Proof.
  intros Hscan Hok. unfold load_object_slots. run. rewrite Hscan. run.
  destruct (N.ltb_spec 0 (N.of_nat (length slots))) as [Hpos|Hz].
  - rewrite Nat2N.id.
    rewrite object_slots_loop by (try done; by rewrite length_seq). done.
  - assert (slots = []) as -> by (apply nil_length_inv; lia).
    run. simpl. by rewrite set_mFieldIsObject_same.
Qed.

Lemma load_object_slots_fails libc varCount lo slots rest scr d :
  scan_count libc OBJECT_SLOT_STR lo = Some (N.of_nat (length slots)) →
  Exists (λ n, ¬ is_Some (scan_slot libc n)) slots →
  (load_object_slots libc varCount
     {| st_script := scr; st_drv := d; st_fp := lo :: slots ++ rest |}).1 = None.
Proof.
  intros Hscan Hbad. unfold load_object_slots. run. rewrite Hscan. run.
  destruct (N.ltb_spec 0 (N.of_nat (length slots))) as [Hpos|Hz].
  - rewrite Nat2N.id.
    apply object_slots_loop_fails; [|done]. by rewrite length_seq.
  - assert (slots = []) as -> by (apply nil_length_inv; lia).
    by apply Exists_nil in Hbad.
Qed.

(** ** What a list that was read without an error looked like *)

Lemma count_of_lines (n : N) (names : list string) :
  length names = length (seq 0 (N.to_nat n)) → n = N.of_nat (length names).
Proof. rewrite length_seq. lia. Qed.

Lemma load_variables_inv libc so st st' vc :
  load_variables libc so st = (Some vc, st') →
  ∃ lv vars, st_fp st = lv :: vars ++ st_fp st'
             ∧ scan_count libc EXPORT_VAR_STR lv = Some (N.of_nat (length vars)).
Proof.
  destruct st as [scr d [|lv tail]]; unfold load_variables; run; [done|].
  destruct (scan_count libc EXPORT_VAR_STR lv) as [n|] eqn:Hscan; run; [|done].
  destruct (N.ltb_spec 0 n) as [Hpos|Hz]; run.
  - destruct (for_each _ _ _) as [[[]|] st1] eqn:Hloop; run; [|done].
    intros [= <- <-].
    apply (for_each_consumes _ (read_variable_line libc so)) in Hloop
      as (names & Hlen & Hnames).
    apply count_of_lines in Hlen. simpl in Hnames.
    exists lv, names. by rewrite Hnames, Hscan, Hlen.
  - intros [= <- <-]. exists lv, []. simpl.
    split; [done|]. rewrite Hscan. f_equal. lia.
Qed.

Lemma load_functions_inv libc so st st' :
  load_functions libc so st = (Some tt, st') →
  ∃ lf funcs, st_fp st = lf :: funcs ++ st_fp st'
              ∧ scan_count libc EXPORT_FUNC_STR lf = Some (N.of_nat (length funcs))
              ∧ Forall (λ n, dlsym libc so (chop_last_newline n) ≠ 0) funcs.
Proof.
  intros Hrun.
  assert (∃ lf funcs, st_fp st = lf :: funcs ++ st_fp st'
            ∧ scan_count libc EXPORT_FUNC_STR lf = Some (N.of_nat (length funcs)))
    as (lf & funcs & Hfp & Hscan).
  { revert Hrun.
    destruct st as [scr d [|lf tail]]; unfold load_functions; run; [done|].
    destruct (scan_count libc EXPORT_FUNC_STR lf) as [n|] eqn:Hscan; run; [|done].
    destruct (N.ltb_spec 0 n) as [Hpos|Hz]; run.
    - intros Hloop.
      apply (for_each_consumes _ (read_function_line libc so)) in Hloop
        as (names & Hlen & Hnames).
      apply count_of_lines in Hlen. simpl in Hnames.
      exists lf, names. by rewrite Hnames, Hscan, Hlen.
    - intros [= <-]. exists lf, []. simpl.
      split; [done|]. rewrite Hscan. f_equal. lia. }
  exists lf, funcs. split; [done|]. split; [done|].
  destruct (decide (Forall (λ n, dlsym libc so (chop_last_newline n) ≠ 0) funcs))
    as [|Hbad]; [done|].
  exfalso. apply not_Forall_Exists in Hbad; [|apply _].
  destruct st as [scr d fp]. simpl in Hfp. subst fp.
  pose proof (load_functions_fails libc so lf funcs (st_fp st') scr d Hscan) as Hf.
  rewrite Hrun in Hf. simpl in Hf. enough (None = Some tt) by done.
  symmetry. apply Hf.
  eapply Exists_impl; [exact Hbad|]. simpl. intros n Hn.
  destruct (decide (dlsym libc so (chop_last_newline n) = 0)); [done|]. by destruct Hn.
Qed.

Lemma load_forEach_inv libc so st st' :
  load_forEach libc so st = (Some tt, st') →
  ∃ lk kernels,
    st_fp st = lk :: kernels ++ st_fp st'
    ∧ scan_count libc EXPORT_FOREACH_STR lk = Some (N.of_nat (length kernels))
    ∧ Forall (λ n, is_Some (scan_forEach libc n) ∧ forEach_fn libc so n ≠ 0) kernels.
Proof.
  intros Hrun.
  assert (∃ lk kernels, st_fp st = lk :: kernels ++ st_fp st'
            ∧ scan_count libc EXPORT_FOREACH_STR lk
              = Some (N.of_nat (length kernels)))
    as (lk & kernels & Hfp & Hscan).
  { revert Hrun.
    destruct st as [scr d [|lk tail]]; unfold load_forEach; run; [done|].
    destruct (scan_count libc EXPORT_FOREACH_STR lk) as [n|] eqn:Hscan; run; [|done].
    destruct (N.ltb_spec 0 n) as [Hpos|Hz]; run.
    - intros Hloop.
      apply (for_each_consumes _ (read_forEach_line libc so)) in Hloop
        as (names & Hlen & Hnames).
      apply count_of_lines in Hlen. simpl in Hnames.
      exists lk, names. by rewrite Hnames, Hscan, Hlen.
    - intros [= <-]. exists lk, []. simpl.
      split; [done|]. rewrite Hscan. f_equal. lia. }
  exists lk, kernels. split; [done|]. split; [done|].
  destruct (decide (Forall (λ n, is_Some (scan_forEach libc n)
                                 ∧ forEach_fn libc so n ≠ 0) kernels))
    as [|Hbad]; [done|].
  exfalso. apply not_Forall_Exists in Hbad; [|apply _].
  destruct st as [scr d fp]. simpl in Hfp. subst fp.
  pose proof (load_forEach_fails libc so lk kernels (st_fp st') scr d Hscan Hbad) as Hf.
  rewrite Hrun in Hf. done.
Qed.

Lemma load_object_slots_inv libc varCount st st' :
  load_object_slots libc varCount st = (Some tt, st') →
  ∃ lo slots,
    st_fp st = lo :: slots ++ st_fp st'
    ∧ scan_count libc OBJECT_SLOT_STR lo = Some (N.of_nat (length slots))
    ∧ Forall (λ n, is_Some (scan_slot libc n)) slots.
Proof.
  intros Hrun.
  assert (∃ lo slots, st_fp st = lo :: slots ++ st_fp st'
            ∧ scan_count libc OBJECT_SLOT_STR lo = Some (N.of_nat (length slots)))
    as (lo & slots & Hfp & Hscan).
  { revert Hrun.
    destruct st as [scr d [|lo tail]]; unfold load_object_slots; run; [done|].
    destruct (scan_count libc OBJECT_SLOT_STR lo) as [n|] eqn:Hscan; run; [|done].
    destruct (N.ltb_spec 0 n) as [Hpos|Hz]; run.
    - intros Hloop.
      apply (for_each_consumes _ (read_object_slot_line libc varCount)) in Hloop
        as (names & Hlen & Hnames).
      apply count_of_lines in Hlen. simpl in Hnames.
      exists lo, names. by rewrite Hnames, Hscan, Hlen.
    - intros [= <-]. exists lo, []. simpl.
      split; [done|]. rewrite Hscan. f_equal. lia. }
  exists lo, slots. split; [done|]. split; [done|].
  destruct (decide (Forall (λ n, is_Some (scan_slot libc n)) slots))
    as [|Hbad]; [done|].
  exfalso. apply not_Forall_Exists in Hbad; [|apply _].
  destruct st as [scr d fp]. simpl in Hfp. subst fp.
  pose proof (load_object_slots_fails libc varCount lo slots (st_fp st') scr d
                Hscan Hbad) as Hf.
  rewrite Hrun in Hf. done.
Qed.

(** ** The whole body *)

Lemma load_info_run libc so lines vars funcs kernels slots rest scr :
  info_file libc lines vars funcs kernels slots rest →
  symbols_found libc so funcs kernels →
  load_info libc so
    {| st_script := scr; st_drv := set_mScriptSO so drv_zeroed; st_fp := lines |}
  = (Some tt,
     {| st_script :=
          set_drv (drv scr) (loaded_script libc so vars funcs kernels slots);
        st_drv := loaded_drv libc so vars funcs kernels slots;
        st_fp := rest |}).
Proof.
  intros (lv & lf & lk & lo & -> & Hv & Hf & Hk & Ho & Hks & Hss) [Hfs Hkf].
  unfold load_info. rewrite init_bind_eq, upd_drv_run. cbv beta iota.
  rewrite init_bind_eq, (load_variables_run _ _ _ _ _ _ _ Hv) by done.
  cbv beta iota.
  rewrite init_bind_eq, (load_functions_run _ _ _ _ _ _ _ Hf) by done.
  cbv beta iota.
  rewrite init_bind_eq, (load_forEach_run _ _ _ _ _ _ _ Hk); try done; cycle 1.
  { apply Forall_and. done. }
  cbv beta iota.
  rewrite init_bind_eq, (load_object_slots_run _ _ _ _ _ _ _ Ho) by done.
  cbv beta iota. run.
  destruct (N.ltb_spec 0 (N.of_nat (length vars))) as [Hpos|Hz]; run.
  - rewrite Nat2N.id. done.
  - assert (vars = []) as -> by (apply nil_length_inv; lia). done.
Qed.

Lemma load_info_fails libc so lines vars funcs kernels slots rest scr :
  info_file libc lines vars funcs kernels slots rest →
  ¬ symbols_found libc so funcs kernels →
  (load_info libc so
     {| st_script := scr; st_drv := set_mScriptSO so drv_zeroed; st_fp := lines |}).1
  = None.
Proof.
  intros (lv & lf & lk & lo & -> & Hv & Hf & Hk & Ho & Hks & Hss) Hbad.
  unfold load_info. rewrite init_bind_eq, upd_drv_run. cbv beta iota.
  rewrite init_bind_eq, (load_variables_run _ _ _ _ _ _ _ Hv) by done.
  cbv beta iota. rewrite init_bind_eq.
  destruct (decide (Forall (λ n, dlsym libc so (chop_last_newline n) ≠ 0) funcs))
    as [Hfs|Hfs].
  - rewrite (load_functions_run _ _ _ _ _ _ _ Hf) by done. cbv beta iota.
    rewrite init_bind_eq.
    match goal with
    | |- context [load_forEach libc so ?st] =>
        pose proof (load_forEach_fails libc so lk kernels (lo :: slots ++ rest)
                      (st_script st) (st_drv st) Hk) as Hfail;
          simpl in Hfail;
          destruct (load_forEach libc so st) as [[[]|] st1]
    end; [|done].
    exfalso. enough (None = Some tt) by done. symmetry. apply Hfail.
    apply not_Forall_Exists; [apply _|]. intros Hall. apply Hbad.
    split; [done|]. eapply Forall_impl; [exact Hall|]. by intros n [_ ?].
  - apply not_Forall_Exists in Hfs; [|apply _].
    match goal with
    | |- context [load_functions libc so ?st] =>
        pose proof (load_functions_fails libc so lf funcs
                      (lk :: kernels ++ lo :: slots ++ rest)
                      (st_script st) (st_drv st) Hf) as Hfail;
          simpl in Hfail;
          destruct (load_functions libc so st) as [[[]|] st1]
    end; [|done].
    exfalso. enough (None = Some tt) by done. symmetry. apply Hfail.
    eapply Exists_impl; [exact Hfs|]. simpl. intros n Hn.
    destruct (decide (dlsym libc so (chop_last_newline n) = 0)); [done|].
    by destruct Hn.
Qed.

Lemma load_info_inv libc so lines scr st :
  load_info libc so
    {| st_script := scr; st_drv := set_mScriptSO so drv_zeroed; st_fp := lines |}
  = (Some tt, st) →
  ∃ vars funcs kernels slots,
    info_file libc lines vars funcs kernels slots (st_fp st)
    ∧ symbols_found libc so funcs kernels.
Proof.
  unfold load_info. rewrite init_bind_eq, upd_drv_run. cbv beta iota.
  rewrite init_bind_eq.
  destruct (load_variables _ _ _) as [[vc|] s1] eqn:H1; [|done].
  rewrite init_bind_eq.
  destruct (load_functions _ _ _) as [[[]|] s2] eqn:H2; [|done].
  rewrite init_bind_eq.
  destruct (load_forEach _ _ _) as [[[]|] s3] eqn:H3; [|done].
  rewrite init_bind_eq.
  destruct (load_object_slots _ _ _) as [[[]|] s4] eqn:H4; [|done].
  intros Hrest.
  assert (st_fp st = st_fp s4) as Hfp.
  { revert Hrest. destruct s4 as [scr4 d4 fp4]. run.
    destruct (0 <? vc)%N; run; by intros [= <-]. }
  apply load_variables_inv in H1 as (lv & vars & Hfp1 & Hv).
  apply load_functions_inv in H2 as (lf & funcs & Hfp2 & Hf & Hfs).
  apply load_forEach_inv in H3 as (lk & kernels & Hfp3 & Hk & Hks).
  apply load_object_slots_inv in H4 as (lo & slots & Hfp4 & Ho & Hss).
  simpl in Hfp1. rewrite Hfp2, Hfp3, Hfp4, <- Hfp in Hfp1.
  exists vars, funcs, kernels, slots. split.
  - exists lv, lf, lk, lo. split_and!; try done.
    eapply Forall_impl; [exact Hks|]. by intros n [? _].
  - split; [done|]. eapply Forall_impl; [exact Hks|]. by intros n [_ ?].
Qed.

(** ** The library handle *)

Lemma keeps_bind {A B} (m : Init A) (f : A → Init B) :
  keeps_library m → (∀ a, keeps_library (f a)) → keeps_library (m ≫= f).
Proof.
  intros Hm Hf st. rewrite init_bind_eq. specialize (Hm st).
  destruct (m st) as [[a|] st1]; simpl in *; [|done].
  by rewrite Hf.
Qed.

Lemma keeps_mret {A} (a : A) : keeps_library (mret a : Init A).
Proof. by intros st. Qed.

Lemma keeps_goto_error {A} : keeps_library (@goto_error A).
Proof. by intros st. Qed.

Lemma keeps_fgets : keeps_library fgets.
Proof. intros st. unfold fgets. by destruct (st_fp st). Qed.

Lemma keeps_scanned {A} (o : option A) : keeps_library (scanned o).
Proof. intros st. by destruct o. Qed.

Lemma keeps_upd_script f : keeps_library (upd_script f).
Proof. by intros st. Qed.

Lemma keeps_get_drv : keeps_library get_drv.
Proof. by intros st. Qed.

Lemma keeps_upd_drv f :
  (∀ d, mScriptSO (f d) = mScriptSO d) → keeps_library (upd_drv f).
Proof. intros Hf st. simpl. apply Hf. Qed.

Lemma keeps_if {A} (b : bool) (m1 m2 : Init A) :
  keeps_library m1 → keeps_library m2 → keeps_library (if b then m1 else m2).
Proof. by destruct b. Qed.

Lemma keeps_for_each {A} (l : list A) (body : A → Init unit) :
  (∀ i, keeps_library (body i)) → keeps_library (for_each l body).
Proof.
  intros Hbody. induction l as [|i l IH]; [apply keeps_mret|].
  cbn [for_each]. apply keeps_bind; [done|]. by intros _.
Qed.

Create HintDb keeps.

#[global] Hint Resolve keeps_mret keeps_goto_error keeps_fgets keeps_scanned
  keeps_upd_script keeps_get_drv keeps_if keeps_for_each : keeps.

Ltac keeps :=
  repeat first
    [ apply keeps_bind; [|intros ?]
    | apply keeps_upd_drv; intros ?; reflexivity
    | apply keeps_if
    | apply keeps_for_each; intros ?
    | solve [auto with keeps] ].

Lemma keeps_read_variable libc so i : keeps_library (read_variable libc so i).
Proof. unfold read_variable. keeps. Qed.

Lemma keeps_read_function libc so i : keeps_library (read_function libc so i).
Proof. unfold read_function. keeps. Qed.

Lemma keeps_read_forEach libc so i : keeps_library (read_forEach libc so i).
Proof. unfold read_forEach. keeps. Qed.

Lemma keeps_read_object_slot libc n i : keeps_library (read_object_slot libc n i).
Proof. unfold read_object_slot. keeps. Qed.

#[global] Hint Resolve keeps_read_variable keeps_read_function keeps_read_forEach
  keeps_read_object_slot : keeps.

(** Nothing in the body touches the library handle. *)
Lemma keeps_load_info libc so : keeps_library (load_info libc so).
Proof.
  unfold load_info, load_variables, load_functions, load_forEach,
    load_object_slots.
  keeps.
Qed.

(** ** What [rsdScriptInit] returns *)

Lemma rsdScriptInit_true libc calloc_ok fp lines so script script' ev :
  rsdScriptInit libc calloc_ok fp lines so script = InitReturned (true, script', ev) →
  calloc_ok = true ∧ fp ≠ 0 ∧ so ≠ 0
  ∧ ∃ vars funcs kernels slots rest,
      info_file libc lines vars funcs kernels slots rest
      ∧ symbols_found libc so funcs kernels
      ∧ script' = loaded_script libc so vars funcs kernels slots
      ∧ ev = init_calls fp so.
Proof.
  unfold rsdScriptInit, init_error.
  destruct calloc_ok; [|done]. simpl negb. cbv iota.
  destruct (Z.eqb_spec fp 0) as [|Hfp]; [done|].
  destruct (Z.eqb_spec so 0) as [|Hso]; [done|].
  destruct (load_info _ _ _) as [[[]|] st] eqn:Hrun; [|done].
  intros [= <- <-]. split_and!; try done.
  destruct (load_info_inv _ _ _ _ _ Hrun)
    as (vars & funcs & kernels & slots & Hfile & Hsym).
  rewrite (load_info_run _ _ _ _ _ _ _ _ _ Hfile Hsym) in Hrun.
  injection Hrun as <-.
  exists vars, funcs, kernels, slots, (st_fp st). done.
Qed.

Lemma rsdScriptInit_layout libc fp lines so script vars funcs kernels slots rest :
  info_file libc lines vars funcs kernels slots rest →
  fp ≠ 0 → so ≠ 0 →
  (symbols_found libc so funcs kernels →
   rsdScriptInit libc true fp lines so script
   = InitReturned
       (true, loaded_script libc so vars funcs kernels slots, init_calls fp so))
  ∧ (¬ symbols_found libc so funcs kernels →
     ∃ script',
       rsdScriptInit libc true fp lines so script
       = InitReturned
           (false, script', [MutexLock; Fclose fp; MutexUnlock; Dlclose so])
       ∧ drv script' = None).
Proof.
  intros Hfile Hfp Hso. unfold rsdScriptInit, init_error. simpl negb. cbv iota.
  destruct (Z.eqb_spec fp 0) as [|_]; [done|].
  destruct (Z.eqb_spec so 0) as [|_]; [done|].
  split; intros Hsym.
  - by rewrite (load_info_run _ _ _ _ _ _ _ _ _ Hfile Hsym).
  - pose proof (load_info_fails _ _ _ _ _ _ _ _ (set_drv (Some drv_zeroed) script)
                  Hfile Hsym) as Hfail.
    pose proof (keeps_load_info libc so
                  {| st_script := set_drv (Some drv_zeroed) script;
                     st_drv := set_mScriptSO so drv_zeroed;
                     st_fp := lines |}) as Hkeep.
    destruct (load_info _ _ _) as [[[]|] st]; [done|]. simpl in Hkeep.
    exists (set_drv None (st_script st)). split; [|done].
    rewrite Hkeep.
    destruct (Z.eqb_spec so 0) as [|_]; [done|]. done.
Qed.

(** When [calloc] or [fopen] fails the label [error] is reached with a
    null file pointer. *)
Lemma rsdScriptInit_undefined libc calloc_ok fp lines so script :
  calloc_ok = false ∨ fp = 0 →
  rsdScriptInit libc calloc_ok fp lines so script
  = InitUndefined [MutexLock] (Fclose 0).
Proof.
  unfold rsdScriptInit, init_error.
  destruct calloc_ok; simpl negb; cbv iota; [|done].
  intros [H|H]; [done|]. subst fp. done.
Qed.

Lemma rsdScriptInit_false libc calloc_ok fp lines so script script' ev :
  rsdScriptInit libc calloc_ok fp lines so script = InitReturned (false, script', ev) →
  calloc_ok = true ∧ fp ≠ 0
  ∧ drv script' = None
  ∧ ev = [MutexLock; Fclose fp; MutexUnlock]
         ++ (if so =? 0 then [] else [Dlclose so]).
Proof.
  unfold rsdScriptInit, init_error.
  destruct calloc_ok; simpl negb; cbv iota; [|done].
  destruct (Z.eqb_spec fp 0) as [->|Hfp]; [done|].
  destruct (Z.eqb_spec so 0) as [->|Hso]; [by intros [= <- <-]|].
  pose proof (keeps_load_info libc so
                {| st_script := set_drv (Some drv_zeroed) script;
                   st_drv := set_mScriptSO so drv_zeroed;
                   st_fp := lines |}) as Hkeep.
  destruct (load_info _ _ _) as [[[]|] st]; [done|]. simpl in Hkeep.
  rewrite Hkeep.
  destruct (Z.eqb_spec so 0) as [|_]; [done|].
  by intros [= <- <-].
Qed.

(** X13: what a successful load has read.  When [rsdScriptInit] returns
    true, the record, the info file and the library were all opened; the
    file had the expected layout (four lists, each after its count, with
    kernel and object slot lines that scan), every function and kernel it
    names was found in the library, and the script is left with counts,
    entry points, field addresses, object marks, kernel signatures and
    an empty binding table as the file and the library give them, marked
    threadable; the file is closed, the mutex released and the library
    left open. *)
Theorem init_success_reads_layout (libc : Libc) (calloc_ok : bool) (fp : Z)
    (lines : list string) (so : Z) (script script' : ScriptHal) (ev : list Event) :
  rsdScriptInit libc calloc_ok fp lines so script = InitReturned (true, script', ev) →
  calloc_ok = true ∧ fp ≠ 0 ∧ so ≠ 0
  ∧ ∃ vars funcs kernels slots rest,
      info_file libc lines vars funcs kernels slots rest
      ∧ symbols_found libc so funcs kernels
      ∧ script' = loaded_script libc so vars funcs kernels slots
      ∧ ev = init_calls fp so.
Proof. apply rsdScriptInit_true. Qed.

Lemma init_success_reads_layout_witness :
  true = true ∧ 9 ≠ 0 ∧ 7 ≠ 0
  ∧ ∃ vars funcs kernels slots rest,
      info_file ScriptSamples.libc ScriptSamples.info3 vars funcs kernels slots rest
      ∧ symbols_found ScriptSamples.libc 7 funcs kernels
      ∧ ScriptSamples.script_of
          (rsdScriptInit ScriptSamples.libc true 9 ScriptSamples.info3 7
             ScriptSamples.unloaded)
        = loaded_script ScriptSamples.libc 7 vars funcs kernels slots
      ∧ ScriptSamples.calls_of
          (rsdScriptInit ScriptSamples.libc true 9 ScriptSamples.info3 7
             ScriptSamples.unloaded)
        = init_calls 9 7.
Proof.
  apply (init_success_reads_layout ScriptSamples.libc true 9 ScriptSamples.info3 7
           ScriptSamples.unloaded).
  vm_compute. reflexivity.
Defined.

(** X14: missing variables are tolerated, missing functions and kernels
    are not.  On an info file of the expected layout, with the file and
    the library opened, [rsdScriptInit] returns true exactly when every
    function and every kernel the file names is found in the library; a
    variable that is not found only leaves a null field address.  When
    a symbol is missing the call returns false with the file closed, the
    mutex released, the library closed again and no driver record
    left. *)
Theorem init_needs_functions_not_variables (libc : Libc) (fp : Z)
    (lines : list string) (so : Z) (script : ScriptHal)
    (vars funcs kernels slots rest : list string) :
  info_file libc lines vars funcs kernels slots rest →
  fp ≠ 0 → so ≠ 0 →
  (symbols_found libc so funcs kernels →
   rsdScriptInit libc true fp lines so script
   = InitReturned
       (true, loaded_script libc so vars funcs kernels slots, init_calls fp so))
  ∧ (¬ symbols_found libc so funcs kernels →
     ∃ script',
       rsdScriptInit libc true fp lines so script
       = InitReturned
           (false, script', [MutexLock; Fclose fp; MutexUnlock; Dlclose so])
       ∧ drv script' = None).
Proof. apply rsdScriptInit_layout. Qed.

(** X15: how a load fails.  When [calloc] or [fopen] fails, the error
    path calls [fclose] on the null file pointer with the mutex still
    held: the behaviour is undefined and nothing is returned.  Whenever
    [rsdScriptInit] does return false, the record and the file had been
    opened, the script has no driver record, the file has been closed
    once, the mutex has been released, and the library has been closed
    again exactly when [dlopen] had opened it. *)
Theorem init_failure_releases (libc : Libc) (calloc_ok : bool) (fp : Z)
    (lines : list string) (so : Z) (script : ScriptHal) :
  (calloc_ok = false ∨ fp = 0 →
   rsdScriptInit libc calloc_ok fp lines so script
   = InitUndefined [MutexLock] (Fclose 0))
  ∧ (∀ script' ev,
       rsdScriptInit libc calloc_ok fp lines so script
       = InitReturned (false, script', ev) →
       calloc_ok = true ∧ fp ≠ 0
       ∧ drv script' = None
       ∧ ev = [MutexLock; Fclose fp; MutexUnlock]
              ++ (if so =? 0 then [] else [Dlclose so])).
Proof.
  split.
  - apply rsdScriptInit_undefined.
  - intros script' ev. apply rsdScriptInit_false.
Qed.

Lemma init_needs_functions_not_variables_witness :
  (symbols_found ScriptSamples.libc 7 ScriptSamples.funcs1 ScriptSamples.kernels1 →
   rsdScriptInit ScriptSamples.libc true 9 ScriptSamples.info3 7 ScriptSamples.unloaded
   = InitReturned
       (true,
        loaded_script ScriptSamples.libc 7 ScriptSamples.vars3 ScriptSamples.funcs1
          ScriptSamples.kernels1 ScriptSamples.slots2,
        init_calls 9 7))
  ∧ (¬ symbols_found ScriptSamples.libc 7 ScriptSamples.funcs1 ScriptSamples.kernels1 →
     ∃ script',
       rsdScriptInit ScriptSamples.libc true 9 ScriptSamples.info3 7
         ScriptSamples.unloaded
       = InitReturned
           (false, script', [MutexLock; Fclose 9; MutexUnlock; Dlclose 7])
       ∧ drv script' = None).
Proof.
  apply (init_needs_functions_not_variables ScriptSamples.libc 9 ScriptSamples.info3 7
           ScriptSamples.unloaded ScriptSamples.vars3 ScriptSamples.funcs1
           ScriptSamples.kernels1 ScriptSamples.slots2 []).
  - eexists _, _, _, _. split; [reflexivity|].
    split_and!; try reflexivity.
    + repeat constructor. by eexists.
    + repeat constructor; by eexists.
  - lia.
  - lia.
Defined.

Lemma init_failure_releases_witness :
  rsdScriptInit ScriptSamples.libc true 0 ScriptSamples.info3 7 ScriptSamples.unloaded
  = InitUndefined [MutexLock] (Fclose 0)
  ∧ rsdScriptInit ScriptSamples.libc false 9 ScriptSamples.info3 7
      ScriptSamples.unloaded
    = InitUndefined [MutexLock] (Fclose 0)
  ∧ (true = true ∧ 9 ≠ 0
     ∧ drv (ScriptSamples.script_of
              (rsdScriptInit ScriptSamples.libc true 9 (take 6 ScriptSamples.info3) 7
                 ScriptSamples.unloaded)) = None
     ∧ ScriptSamples.calls_of
         (rsdScriptInit ScriptSamples.libc true 9 (take 6 ScriptSamples.info3) 7
            ScriptSamples.unloaded)
       = [MutexLock; Fclose 9; MutexUnlock] ++ (if 7 =? 0 then [] else [Dlclose 7])).
Proof.
  split; [|split].
  - apply (init_failure_releases ScriptSamples.libc true 0 ScriptSamples.info3 7
             ScriptSamples.unloaded). by right.
  - apply (init_failure_releases ScriptSamples.libc false 9 ScriptSamples.info3 7
             ScriptSamples.unloaded). by left.
  - apply (proj2 (init_failure_releases ScriptSamples.libc true 9
                    (take 6 ScriptSamples.info3) 7 ScriptSamples.unloaded)).
    vm_compute. reflexivity.
Defined.

(** ** A loaded script and the other entry points *)

Lemma length_marks libc n slots : ∀ arr,
  length (foldl (mark_object libc n) arr slots) = length arr.
Proof.
  induction slots as [|line slots IH]; intros arr; [done|].
  cbn [foldl]. rewrite IH. unfold mark_object.
  destruct (scan_slot libc line) as [v|]; [|done].
  destruct (v <? n)%N; [|done]. by rewrite length_insert.
Qed.

Lemma loaded_bounds libc so vars funcs kernels slots :
  let d := loaded_drv libc so vars funcs kernels slots in
  length (mFieldAddress d) = length vars
  ∧ length (mFieldIsObject d) = length vars
  ∧ length (mBoundAllocs d) = length vars.
Proof.
  simpl. rewrite length_fmap, length_marks, !length_replicate. done.
Qed.

(** X16: a loaded script can be destroyed.  After [rsdScriptInit] has
    returned true, [rsdScriptDestroy] is defined: it clears the object
    fields that were found, closes the library that the load left open,
    and leaves the script without a driver record. *)
Theorem init_then_destroy (libc : Libc) (calloc_ok : bool) (fp : Z)
    (lines : list string) (so : Z) (script script' : ScriptHal) (ev : list Event) :
  rsdScriptInit libc calloc_ok fp lines so script = InitReturned (true, script', ev) →
  ∃ d, drv script' = Some d
       ∧ rsdScriptDestroy script'
         = Some (set_drv None script',
                 (seqZ 0 (exportedVariableCount script') ≫= cleared d)
                 ++ [Dlclose so]).
Proof.
  intros Hinit.
  destruct (rsdScriptInit_true _ _ _ _ _ _ _ _ Hinit)
    as (_ & _ & Hso & vars & funcs & kernels & slots & rest & _ & _ & -> & _).
  exists (loaded_drv libc so vars funcs kernels slots). split; [done|].
  destruct (loaded_bounds libc so vars funcs kernels slots) as (Ha & Ho & _).
  rewrite (rsdScriptDestroy_defined (loaded_script libc so vars funcs kernels slots)
             (loaded_drv libc so vars funcs kernels slots) eq_refl); cycle 1.
  { rewrite Ho. simpl. lia. }
  { rewrite Ha. simpl. lia. }
  cbn [mScriptSO loaded_drv].
  destruct (Z.eqb_spec so 0) as [|_]; [done|]. done.
Qed.

Lemma init_then_destroy_witness :
  ∃ d, drv (ScriptSamples.script_of
              (rsdScriptInit ScriptSamples.libc true 9 ScriptSamples.info3 7
                 ScriptSamples.unloaded)) = Some d
       ∧ rsdScriptDestroy
           (ScriptSamples.script_of
              (rsdScriptInit ScriptSamples.libc true 9 ScriptSamples.info3 7
                 ScriptSamples.unloaded))
         = Some (set_drv None
                   (ScriptSamples.script_of
                      (rsdScriptInit ScriptSamples.libc true 9 ScriptSamples.info3 7
                         ScriptSamples.unloaded)),
                 (seqZ 0 (exportedVariableCount
                            (ScriptSamples.script_of
                               (rsdScriptInit ScriptSamples.libc true 9
                                  ScriptSamples.info3 7 ScriptSamples.unloaded)))
                    ≫= cleared d)
                 ++ [Dlclose 7]).
Proof.
  apply (init_then_destroy ScriptSamples.libc true 9 ScriptSamples.info3 7
           ScriptSamples.unloaded _
           (ScriptSamples.calls_of
              (rsdScriptInit ScriptSamples.libc true 9 ScriptSamples.info3 7
                 ScriptSamples.unloaded))).
  vm_compute. reflexivity.
Defined.

Lemma find_bound_unbound d ptr cts :
  Forall (λ ct, elem_at (mBoundAllocs d) ct = Some None) cts →
  find_bound (Some d) cts ptr = Some None.
Proof.
  induction cts as [|ct cts IH]; intros Hall; [done|].
  apply Forall_cons_1 in Hall as [Hct Hall].
  cbn [find_bound]. simpl. rewrite Hct. simpl. by apply IH.
Qed.

(** X17: a loaded script has nothing bound, and its slots are in
    bounds.  After [rsdScriptInit] has returned true, looking any
    pointer up gives [NULL], and setting a variable, binding an
    allocation and setting an object are defined for every slot below
    the exported variable count. *)
Theorem init_then_globals (libc : Libc) (calloc_ok : bool) (fp : Z)
    (lines : list string) (so : Z) (script script' : ScriptHal) (ev : list Event) :
  rsdScriptInit libc calloc_ok fp lines so script = InitReturned (true, script', ev) →
  (∀ ptr, rsdScriptGetAllocationForPointer script' ptr = Some None)
  ∧ ∀ slot, 0 ≤ slot < exportedVariableCount script' →
      (∀ data mem, is_Some (rsdScriptSetGlobalVar script' slot data mem))
      ∧ (∀ sizeof_ptr a mem,
           is_Some (rsdScriptSetGlobalBind sizeof_ptr script' slot a mem))
      ∧ (∀ obj, is_Some (rsdScriptSetGlobalObj script' slot obj)).
Proof.
  intros Hinit.
  destruct (rsdScriptInit_true _ _ _ _ _ _ _ _ Hinit)
    as (_ & _ & Hso & vars & funcs & kernels & slots & rest & _ & _ & -> & _).
  destruct (loaded_bounds libc so vars funcs kernels slots) as (Ha & Ho & Hb).
  split.
  - intros ptr. unfold rsdScriptGetAllocationForPointer.
    destruct (ptr =? 0); [done|].
    apply find_bound_unbound. apply Forall_forall.
    intros ct Hct%elem_of_seqZ. simpl in Hct.
    apply elem_at_Some. split; [lia|]. simpl.
    apply lookup_replicate. split; [done|]. lia.
  - intros slot Hslot. simpl in Hslot.
    destruct (elem_at_in_range
                (mFieldAddress (loaded_drv libc so vars funcs kernels slots)) slot
                ltac:(lia)) as [addr Haddr].
    destruct (elem_at_in_range
                (mBoundAllocs (loaded_drv libc so vars funcs kernels slots)) slot
                ltac:(lia)) as [old Hold].
    split_and!.
    + intros data mem. unfold rsdScriptSetGlobalVar.
      cbn [drv loaded_script mbind option_bind]. rewrite Haddr. simpl.
      by destruct (addr =? 0).
    + intros w a mem. unfold rsdScriptSetGlobalBind.
      cbn [drv loaded_script mbind option_bind]. rewrite Haddr. simpl.
      destruct (addr =? 0); [done|]. simpl in Hold. rewrite Hold. done.
    + intros obj. unfold rsdScriptSetGlobalObj.
      cbn [drv loaded_script mbind option_bind]. rewrite Haddr. simpl.
      by destruct (addr =? 0).
Qed.

Lemma init_then_globals_witness :
  (∀ ptr, rsdScriptGetAllocationForPointer
            (ScriptSamples.script_of
               (rsdScriptInit ScriptSamples.libc true 9 ScriptSamples.info3 7
                  ScriptSamples.unloaded)) ptr = Some None)
  ∧ ∀ slot,
      0 ≤ slot < exportedVariableCount
                   (ScriptSamples.script_of
                      (rsdScriptInit ScriptSamples.libc true 9 ScriptSamples.info3 7
                         ScriptSamples.unloaded)) →
      (∀ data mem,
         is_Some (rsdScriptSetGlobalVar
                    (ScriptSamples.script_of
                       (rsdScriptInit ScriptSamples.libc true 9 ScriptSamples.info3 7
                          ScriptSamples.unloaded)) slot data mem))
      ∧ (∀ sizeof_ptr a mem,
           is_Some (rsdScriptSetGlobalBind sizeof_ptr
                      (ScriptSamples.script_of
                         (rsdScriptInit ScriptSamples.libc true 9 ScriptSamples.info3
                            7 ScriptSamples.unloaded)) slot a mem))
      ∧ (∀ obj,
           is_Some (rsdScriptSetGlobalObj
                      (ScriptSamples.script_of
                         (rsdScriptInit ScriptSamples.libc true 9 ScriptSamples.info3
                            7 ScriptSamples.unloaded)) slot obj)).
Proof.
  apply (init_then_globals ScriptSamples.libc true 9 ScriptSamples.info3 7
           ScriptSamples.unloaded _
           (ScriptSamples.calls_of
              (rsdScriptInit ScriptSamples.libc true 9 ScriptSamples.info3 7
                 ScriptSamples.unloaded))).
  vm_compute. reflexivity.
Defined.

Lemma marks_lookup libc n slots : ∀ (arr : list bool) (i : nat),
  foldl (mark_object libc n) arr slots !! i = Some true
  ↔ arr !! i = Some true
    ∨ ((i < length arr)%nat ∧ (N.of_nat i < n)%N
       ∧ ∃ line, line ∈ slots ∧ scan_slot libc line = Some (N.of_nat i)).
Proof.
  induction slots as [|line slots IH]; intros arr i.
  - simpl. split; [by left|]. intros [?|(_ & _ & l & Hl & _)]; [done|].
    by apply elem_of_nil in Hl.
  - cbn [foldl]. rewrite IH. unfold mark_object.
    destruct (scan_slot libc line) as [v|] eqn:Hv.
    + destruct (N.ltb_spec v n) as [Hlt|Hge].
      * rewrite length_insert. split.
        -- intros [Hi|(Hi & Hn & l & Hl & Hs)].
           ++ destruct (decide (N.to_nat v = i)) as [<-|Hne].
              ** right. apply lookup_lt_Some in Hi. rewrite length_insert in Hi.
                 split; [done|]. split; [lia|].
                 exists line. split; [by left|]. rewrite Hv. f_equal. lia.
              ** rewrite list_lookup_insert_ne in Hi by done. by left.
           ++ right. split; [done|]. split; [done|].
              exists l. split; [by right|done].
        -- intros [Hi|(Hi & Hn & l & Hl & Hs)].
           ++ left. destruct (decide (N.to_nat v = i)) as [<-|Hne].
              ** apply list_lookup_insert_eq. by apply lookup_lt_Some in Hi.
              ** by rewrite list_lookup_insert_ne.
           ++ apply elem_of_cons in Hl as [->|Hl].
              ** left. rewrite Hv in Hs. injection Hs as ->.
                 rewrite Nat2N.id. by apply list_lookup_insert_eq.
              ** right. split; [done|]. split; [done|]. by exists l.
      * split.
        -- intros [Hi|(Hi & Hn & l & Hl & Hs)]; [by left|].
           right. split; [done|]. split; [done|].
           exists l. split; [by right|done].
        -- intros [Hi|(Hi & Hn & l & Hl & Hs)]; [by left|].
           apply elem_of_cons in Hl as [->|Hl].
           ++ rewrite Hv in Hs. injection Hs as ->. lia.
           ++ right. split; [done|]. split; [done|]. by exists l.
    + split.
      * intros [Hi|(Hi & Hn & l & Hl & Hs)]; [by left|].
        right. split; [done|]. split; [done|].
        exists l. split; [by right|done].
      * intros [Hi|(Hi & Hn & l & Hl & Hs)]; [by left|].
        apply elem_of_cons in Hl as [->|Hl].
        -- by rewrite Hv in Hs.
        -- right. split; [done|]. split; [done|]. by exists l.
Qed.

(** X18: which fields are marked as objects.  When [rsdScriptInit]
    returns true on an info file of the expected layout, field [i] is
    marked as an object exactly when [i] is below the number of
    variables and some object slot line gives [i]; slot numbers that
    name no variable are ignored. *)
Theorem init_marks_listed_objects (libc : Libc) (calloc_ok : bool) (fp : Z)
    (lines : list string) (so : Z) (script script' : ScriptHal) (ev : list Event)
    (vars funcs kernels slots rest : list string) :
  info_file libc lines vars funcs kernels slots rest →
  rsdScriptInit libc calloc_ok fp lines so script = InitReturned (true, script', ev) →
  ∃ d, drv script' = Some d
       ∧ ∀ i : nat,
           mFieldIsObject d !! i = Some true
           ↔ (i < length vars)%nat
             ∧ ∃ line, line ∈ slots ∧ scan_slot libc line = Some (N.of_nat i).
Proof.
  intros Hfile Hinit.
  destruct (rsdScriptInit_true _ _ _ _ _ _ _ _ Hinit)
    as (-> & Hfp & Hso & _).
  destruct (rsdScriptInit_layout libc fp lines so script vars funcs kernels slots rest
              Hfile Hfp Hso) as [Hok Hbad].
  assert (Decision (symbols_found libc so funcs kernels)) as [Hsym|Hsym]
    by (unfold symbols_found; apply _).
  - rewrite (Hok Hsym) in Hinit. injection Hinit as <- _.
    exists (loaded_drv libc so vars funcs kernels slots). split; [done|].
    intros i. cbn [mFieldIsObject loaded_drv]. rewrite marks_lookup.
    rewrite length_replicate. split.
    + intros [Hi|(Hi & _ & Hl)]; [|done].
      apply lookup_replicate in Hi as [? _]. done.
    + intros [Hi Hl]. right. split; [done|]. split; [lia|done].
  - destruct (Hbad Hsym) as (s' & Hs' & _). rewrite Hs' in Hinit. done.
Qed.

Lemma init_marks_listed_objects_witness :
  ∃ d, drv (ScriptSamples.script_of
              (rsdScriptInit ScriptSamples.libc true 9 ScriptSamples.info3 7
                 ScriptSamples.unloaded)) = Some d
       ∧ ∀ i : nat,
           mFieldIsObject d !! i = Some true
           ↔ (i < length ScriptSamples.vars3)%nat
             ∧ ∃ line, line ∈ ScriptSamples.slots2
                       ∧ scan_slot ScriptSamples.libc line = Some (N.of_nat i).
Proof.
  apply (init_marks_listed_objects ScriptSamples.libc true 9 ScriptSamples.info3 7
           ScriptSamples.unloaded _
           (ScriptSamples.calls_of
              (rsdScriptInit ScriptSamples.libc true 9 ScriptSamples.info3 7
                 ScriptSamples.unloaded))
           ScriptSamples.vars3 ScriptSamples.funcs1 ScriptSamples.kernels1
           ScriptSamples.slots2 []).
  - eexists _, _, _, _. split; [reflexivity|].
    split_and!; try reflexivity.
    + repeat constructor. by eexists.
    + repeat constructor; by eexists.
  - vm_compute. reflexivity.
Defined.
